(** * App screenshot tester: capture pipeline, detector, analyzer, comparator

    A shallow embedding of the TypeScript sources

      - [src/core/detector.ts]   (loading-completion strategies),
      - [src/core/browser.ts]    (BrowserController),
      - [src/core/capturer.ts]   (ScreenshotCapturer),
      - [src/core/analyzer.ts]   (VisualAnalyzer),
      - [src/core/metrics.ts]    (MetricsCollector),
      - [src/core/storage.ts]    (StorageManager),
      - [src/core/comparator.ts] (ScreenshotComparator),

    followed by the properties of the specification that concern them.

    Conventions.  JavaScript numbers that the code only uses as integers
    (indices, lengths, millisecond clocks, byte values) are [nat], [N] or
    [Z]; a quotient is the exact rational the double approximates, wrapped
    in [JS.number] together with [NaN] and [Infinity].  A string is the
    sequence of its code units, taken in [ascii].  An [async] function
    is cut at its [await]s into the segments the event loop runs
    atomically; a promise is described by the logical time at which it
    settles and by its outcome.  Logging is left out. *)

From Stdlib Require Import ZArith NArith QArith Qround List String Ascii Bool Lia.
From Stdlib Require Import Sorting Permutation Mergesort DecimalString DecimalNat DecimalZ.
From stdpp Require Import base list strings gmap.

Local Open Scope string_scope.
Local Open Scope list_scope.

(** * Part I: the embedding *)

(** ** JavaScript helpers *)

Module JS.

(** A JavaScript number: [NaN], [+Infinity] or a finite rational. *)
Inductive number : Type :=
| NaN
| Infinity
| Num (q : Q).

(** [a / b] for two non-negative integers. *)
Definition div_nat (a b : nat) : number :=
  match b with
  | O => match a with O => NaN | S _ => Infinity end
  | S _ => Num (Z.of_nat a # Pos.of_nat b)
  end.

(** [x * k] for a finite positive constant [k]. *)
Definition scale (x : number) (k : Q) : number :=
  match x with
  | NaN => NaN
  | Infinity => Infinity
  | Num q => Num (q * k)
  end.

(** [x > k], [x < k] and [x <= k]; every comparison with [NaN] is false. *)
Definition gtb (x : number) (k : Q) : bool :=
  match x with
  | NaN => false
  | Infinity => true
  | Num q => negb (Qle_bool q k)
  end.

Definition ltb (x : number) (k : Q) : bool :=
  match x with
  | NaN => false
  | Infinity => false
  | Num q => negb (Qle_bool k q)
  end.

Definition leb (x : number) (k : Q) : bool :=
  match x with
  | NaN => false
  | Infinity => false
  | Num q => Qle_bool q k
  end.

(** [a || b] on integers: [0] is falsy. *)
Definition or_int (a b : Z) : Z := if (a =? 0)%Z then b else a.

(** [String(n)] for a non-negative integer. *)
Definition string_of_nat (n : nat) : string :=
  NilEmpty.string_of_uint (Nat.to_uint n).

(** [String(z)] for an integer. *)
Definition string_of_Z (z : Z) : string :=
  NilZero.string_of_int (Z.to_int z).

Fixpoint replicate_char (n : nat) (c : ascii) : string :=
  match n with
  | O => EmptyString
  | S n' => String c (replicate_char n' c)
  end.

(** [s.padStart(n, c)] for a one-character pad string. *)
Definition padStart (n : nat) (c : ascii) (s : string) : string :=
  replicate_char (n - String.length s) c +:+ s.

(** [path.join(dir, file)] for a plain file name. *)
Definition path_join (dir file : string) : string := dir +:+ "/" +:+ file.

(** The segments of a path: what stands between its slashes. *)
Fixpoint split_slash (p : string) : list string :=
  match p with
  | EmptyString => [EmptyString]
  | String c rest =>
      if Ascii.eqb c "/" then EmptyString :: split_slash rest
      else match split_slash rest with
           | segment :: segments => String c segment :: segments
           | [] => [String c EmptyString]
           end
  end.

(** What [normalizeString] does with one segment: an empty segment and
    [.] are skipped; [..] removes the segment before it, and is kept, in
    a relative path, when there is none to remove; any other segment is
    appended. *)
Definition normalize_segment (allowAboveRoot : bool) (res : list string) (segment : string)
  : list string :=
  if String.eqb segment "" || String.eqb segment "." then res
  else if String.eqb segment ".." then
    match last res with
    | Some top =>
        if String.eqb top ".." then (if allowAboveRoot then res ++ [".."] else res)
        else removelast res
    | None => if allowAboveRoot then [".."] else []
    end
  else res ++ [segment].

Definition normalizeString (p : string) (allowAboveRoot : bool) : string :=
  String.concat "/" (fold_left (normalize_segment allowAboveRoot) (split_slash p) []).

Definition starts_with_slash (p : string) : bool :=
  match p with
  | String c _ => Ascii.eqb c "/"
  | EmptyString => false
  end.

Fixpoint ends_with_slash (p : string) : bool :=
  match p with
  | EmptyString => false
  | String c EmptyString => Ascii.eqb c "/"
  | String _ rest => ends_with_slash rest
  end.

(** [path.normalize(p)] of POSIX paths. *)
Definition normalize (p : string) : string :=
  if String.eqb p "" then "."
  else
    let isAbsolute := starts_with_slash p in
    let trailingSeparator := ends_with_slash p in
    let q := normalizeString p (negb isAbsolute) in
    if String.eqb q "" then
      if isAbsolute then "/" else if trailingSeparator then "./" else "."
    else
      (if isAbsolute then "/" else "") +:+ q +:+ (if trailingSeparator then "/" else "").

(** [path.join(...args)] of POSIX paths: the arguments that are not
    empty, joined by slashes and normalized. *)
Definition join (args : list string) : string :=
  match filter (fun arg => arg <> "") args with
  | [] => "."
  | parts => normalize (String.concat "/" parts)
  end.

(** [s.charAt(i)]: the empty string ([None]) out of range. *)
Definition charAt (s : string) (i : nat) : option ascii := String.get i s.

(** [a[i] = v] on an array: overwrites in range, appends at [a.length];
    a write further out would leave holes, which no code modelled here
    does, and is answered by [None]. *)
Definition array_set {A : Type} (a : list A) (i : nat) (v : A) : option (list A) :=
  if decide (i < length a) then Some (<[i:=v]> a)
  else if decide (i = length a) then Some (a ++ [v])
  else None.

(** A [for] loop over the indices [idx], threading a state; a body that
    reads a missing array element stops the loop with [None]. *)
Fixpoint for_each {S : Type} (idx : list nat) (body : nat -> S -> option S) (s : S) : option S :=
  match idx with
  | [] => Some s
  | i :: rest =>
      match body i s with
      | Some s' => for_each rest body s'
      | None => None
      end
  end.

(** A [Set<number>] in insertion order. *)
Definition set_has (i : nat) (s : list nat) : bool := existsb (Nat.eqb i) s.

Definition set_add (i : nat) (s : list nat) : list nat :=
  if set_has i s then s else s ++ [i].

(** White space and line terminators among the 8-bit code units: TAB,
    LF, VT, FF, CR, SP and NBSP. *)
Definition is_space (c : ascii) : bool :=
  let n := nat_of_ascii c in
  ((9 <=? n) && (n <=? 13) || (n =? 32) || (n =? 160))%nat.

Fixpoint trimStart (s : string) : string :=
  match s with
  | String c rest => if is_space c then trimStart rest else s
  | EmptyString => s
  end.

Fixpoint trimEnd (s : string) : string :=
  match s with
  | EmptyString => EmptyString
  | String c rest =>
      match trimEnd rest with
      | EmptyString => if is_space c then EmptyString else String c EmptyString
      | rest' => String c rest'
      end
  end.

(** [s.trim()] *)
Definition trim (s : string) : string := trimEnd (trimStart s).

(** [toLowerCase] of an 8-bit code unit: [A]-[Z] and the capital
    letters of Latin-1. *)
Definition lower (c : ascii) : ascii :=
  let n := nat_of_ascii c in
  if ((65 <=? n) && (n <=? 90) || (192 <=? n) && (n <=? 222) && negb (n =? 215))%nat
  then ascii_of_nat (n + 32)
  else c.

(** [s.toLowerCase()] *)
Fixpoint toLowerCase (s : string) : string :=
  match s with
  | EmptyString => EmptyString
  | String c rest => String (lower c) (toLowerCase rest)
  end.

(** [s.includes(needle)] *)
Fixpoint includes (s needle : string) : bool :=
  String.prefix needle s ||
  match s with
  | EmptyString => false
  | String _ rest => includes rest needle
  end.

(** [s.substring(0, n)] *)
Definition substring_to (n : nat) (s : string) : string := String.substring 0 n s.

(** The double-quote character. *)
Definition dquote : string := String (Ascii false true false false false true false false) "".

(** [Math.max(a, b)] *)
Definition Math_max (a b : number) : number :=
  match a, b with
  | NaN, _ | _, NaN => NaN
  | Infinity, _ | _, Infinity => Infinity
  | Num p, Num q => if Qle_bool p q then Num q else Num p
  end.

(** [Array.prototype.sort()] without comparator: ascending order of the
    code units. *)
Module StringOrder <: Orders.TotalLeBool.
Definition t := string.
Definition leb (x y : string) : bool := String.leb x y.
Definition leb_total : forall x y, leb x y = true \/ leb y x = true := String.leb_total.
End StringOrder.

Module StringSort := Mergesort.Sort StringOrder.

Definition sort (l : list string) : list string := StringSort.sort l.

End JS.

(** ** Loading-completion strategies ([detector.ts]) *)

Module Detector.

(** A promise that settles: the time (ms) at which it does and its result. *)
Record Promise (A : Type) : Type := mkPromise {
  settledAt : N;
  outcome : A
}.
Arguments mkPromise {A} _ _.
Arguments settledAt {A} _.
Arguments outcome {A} _.

Inductive Settlement : Type := Fulfilled | Rejected.

Inductive LoadState : Type := load | domcontentloaded | networkidle.

(** The Playwright page, an external collaborator: a wait is called with
    its arguments at a time and answers with the promise it returns. *)
Record Page : Type := mkPage {
  waitForLoadState : LoadState -> option N -> N -> Promise Settlement;
  waitForSelector : string -> N -> N -> Promise Settlement
}.

(** The [LoadingStrategy] interface: [detect(page)], called at time [now]. *)
Record LoadingStrategy : Type := mkStrategy {
  name : string;
  detect : Page -> N -> Promise bool
}.

(** [try { await p; return true } catch { return false }] *)
Definition settled_ok (p : Promise Settlement) : Promise bool :=
  mkPromise (settledAt p)
    match outcome p with
    | Fulfilled => true
    | Rejected => false
    end.

Definition NetworkIdleStrategy (timeout : N) : LoadingStrategy :=
  mkStrategy "networkIdle"
    (fun page now => settled_ok (waitForLoadState page networkidle (Some timeout) now)).

Definition DOMReadyStrategy : LoadingStrategy :=
  mkStrategy "domReady"
    (fun page now => settled_ok (waitForLoadState page domcontentloaded None now)).

Definition ElementPresentStrategy (selector : string) (timeout : N) : LoadingStrategy :=
  mkStrategy "elementPresent"
    (fun page now => settled_ok (waitForSelector page selector timeout now)).

(** [await new Promise(resolve => setTimeout(resolve, duration)); return true] *)
Definition TimeoutStrategy (duration : N) : LoadingStrategy :=
  mkStrategy "timeout" (fun _ now => mkPromise (now + duration)%N true).

(** [Promise.all] of promises that never reject, awaited at [now]: it
    settles when the last of them has settled. *)
Definition Promise_all {A : Type} (now : N) (ps : list (Promise A)) : Promise (list A) :=
  mkPromise (fold_right N.max now (map settledAt ps)) (map outcome ps).

(** [CompositeStrategy.detect]: the member promises are created in one
    synchronous [map], [Promise.all] is awaited, then [results.some]. *)
Definition CompositeStrategy (strategies : list LoadingStrategy) : LoadingStrategy :=
  mkStrategy "composite"
    (fun page now =>
       let results := Promise_all now (map (fun s => detect s page now) strategies) in
       mkPromise (settledAt results) (existsb (fun r => r) (outcome results))).

Definition createDefaultStrategy : LoadingStrategy :=
  CompositeStrategy [NetworkIdleStrategy 2000; TimeoutStrategy 10000].

(** [createFromConfig]: [waitFor] is used when truthy (present and not
    empty); [duration || 10000] bounds the timeout strategy. *)
Definition createFromConfig (waitFor : option string) (duration : option N) : LoadingStrategy :=
  let selector :=
    match waitFor with
    | Some s => if String.eqb s "" then [] else [ElementPresentStrategy s 5000]
    | None => []
    end in
  let d :=
    match duration with
    | Some v => if (v =? 0)%N then 10000%N else v
    | None => 10000%N
    end in
  CompositeStrategy (selector ++ [NetworkIdleStrategy 2000; TimeoutStrategy d]).

(** A page whose network becomes idle [idle] ms after the wait starts and
    on which no selector ever appears. *)
Definition quiet_page (idle : N) : Page :=
  mkPage
    (fun _ timeout now =>
       match timeout with
       | Some t => if (idle <=? t)%N then mkPromise (now + idle)%N Fulfilled
                   else mkPromise (now + t)%N Rejected
       | None => mkPromise (now + idle)%N Fulfilled
       end)
    (fun _ timeout now => mkPromise (now + timeout)%N Rejected).

End Detector.

(** ** Page analysis ([analyzer.ts]) *)

Module Analyzer.

Record VisualAnalysis : Type := mkAnalysis {
  hasContent : bool;
  isBlank : bool;
  textContent : string;
  elementCount : nat;
  imageCount : nat;
  hasErrors : bool;
  errorMessages : list string;
  loadingIndicators : list string
}.

Record VisualDiff : Type := mkDiff {
  hasSignificantChange : bool;
  changePercentage : JS.number;
  changedElements : list string
}.

(** The distance matrix: an array of rows of numbers. *)
Abbreviation Matrix := (list (list nat)).

(** [matrix[i][j]] *)
Definition matrix_get (m : Matrix) (i j : nat) : option nat :=
  match m !! i with
  | Some row => row !! j
  | None => None
  end.

(** [matrix[i][j] = v] *)
Definition matrix_set (m : Matrix) (i j v : nat) : option Matrix :=
  match m !! i with
  | Some row =>
      match JS.array_set row j v with
      | Some row' => Some (<[i:=row']> m)
      | None => None
      end
  | None => None
  end.

(** The body of the double loop of [levenshteinDistance] at [(i, j)]. *)
Definition levenshtein_cell (str1 str2 : string) (i j : nat) (m : Matrix) : option Matrix :=
  if decide (JS.charAt str2 (i - 1) = JS.charAt str1 (j - 1)) then
    match matrix_get m (i - 1) (j - 1) with
    | Some d => matrix_set m i j d
    | None => None
    end
  else
    match matrix_get m (i - 1) (j - 1), matrix_get m i (j - 1), matrix_get m (i - 1) j with
    | Some a, Some b, Some c => matrix_set m i j (Nat.min (a + 1) (Nat.min (b + 1) (c + 1)))
    | _, _, _ => None
    end.

(** [levenshteinDistance(str1, str2)]; [None] stands for a result that
    is not a number. *)
Definition levenshteinDistance (str1 str2 : string) : option nat :=
  let len1 := String.length str1 in
  let len2 := String.length str2 in
  match JS.for_each (seq 0 (S len2)) (fun i m => JS.array_set m i [i]) [] with
  | None => None
  | Some m0 =>
    match JS.for_each (seq 0 (S len1)) (fun j m => matrix_set m 0 j j) m0 with
    | None => None
    | Some m1 =>
      match JS.for_each (seq 1 len2)
              (fun i m => JS.for_each (seq 1 len1) (levenshtein_cell str1 str2 i) m) m1 with
      | None => None
      | Some m2 => matrix_get m2 len2 len1
      end
    end
  end.

(** [calculateTextSimilarity(text1, text2)] *)
Definition calculateTextSimilarity (text1 text2 : string) : JS.number :=
  if decide (text1 = text2) then JS.Num 100
  else if decide (text1 = "" \/ text2 = "") then JS.Num 0
  else
    let longer := if decide (String.length text2 < String.length text1) then text1 else text2 in
    let shorter := if decide (String.length text2 < String.length text1) then text2 else text1 in
    if decide (String.length longer = 0) then JS.Num 100
    else
      match levenshteinDistance longer shorter with
      | Some editDistance =>
          JS.Num (((Z.of_nat (String.length longer) - Z.of_nat editDistance)
                   # Pos.of_nat (String.length longer)) * 100)
      | None => JS.NaN
      end.

(** [Math.round(x)] printed in decimal. *)
Definition round_to_string (x : JS.number) : string :=
  match x with
  | JS.Num q => JS.string_of_Z (Qfloor (q + (1 # 2)))
  | JS.Infinity => "Infinity"
  | JS.NaN => "NaN"
  end.

(** [compareAnalyses(previous, current)].  The percentages are the exact
    rationals; the doubles of the code round them, so that a percentage
    within rounding distance of its bound (an element count changed by
    exactly 20 percent) may fall on the other side of it.  The similarity
    of two texts is never infinite. *)
Definition compareAnalyses (previous current : VisualAnalysis) : VisualDiff :=
  let c1 := if isBlank previous && negb (isBlank current) then ["Content appeared"] else [] in
  let c2 := if negb (isBlank previous) && isBlank current then ["Content disappeared"] else [] in
  let elementChange :=
    Z.to_nat (Z.abs (Z.of_nat (elementCount current) - Z.of_nat (elementCount previous))) in
  let elementChangePercent :=
    if decide (0 < elementCount previous)
    then JS.scale (JS.div_nat elementChange (elementCount previous)) 100
    else JS.Num 100 in
  let c3 :=
    if JS.gtb elementChangePercent 20
    then ["Element count changed by " +:+ round_to_string elementChangePercent +:+ "%"]
    else [] in
  let c4 :=
    if bool_decide (0 < length (loadingIndicators previous)) && bool_decide (length (loadingIndicators current) = 0)
    then ["Loading indicators removed"] else [] in
  let c5 :=
    if bool_decide (length (loadingIndicators previous) = 0) && bool_decide (0 < length (loadingIndicators current))
    then ["Loading indicators appeared"] else [] in
  let c6 := if negb (hasErrors previous) && hasErrors current then ["Errors detected"] else [] in
  let changedElements := c1 ++ c2 ++ c3 ++ c4 ++ c5 ++ c6 in
  let textChange := calculateTextSimilarity (textContent previous) (textContent current) in
  let changePercentage :=
    match textChange with
    | JS.Num q => JS.Num (100 - q)
    | JS.Infinity => JS.NaN
    | JS.NaN => JS.NaN
    end in
  mkDiff (bool_decide (0 < length changedElements) || JS.gtb changePercentage 30)
         changePercentage changedElements.

(** *** [analyzePage(page)] *)

(** The document, as the script that [analyzePage] evaluates in the page
    queries it: the inner text of the body ([None]: no body), the number
    of elements a selector matches, the inner texts of the elements
    matched by the error selector ([None] for an element without inner
    text), and the errors captured by the injected script ([None] when
    the script was not injected). *)
Record Document : Type := mkDocument {
  body_innerText : option string;
  querySelectorAll_length : string -> nat;
  errorElements_innerText : list (option string);
  capturedErrors : option (list string)
}.

Definition loadingSelectors : list string :=
  [".spinner"; ".loader"; ".loading";
   "[class*=" +:+ JS.dquote +:+ "spinner" +:+ JS.dquote +:+ "]";
   "[class*=" +:+ JS.dquote +:+ "loader" +:+ JS.dquote +:+ "]";
   "[class*=" +:+ JS.dquote +:+ "loading" +:+ JS.dquote +:+ "]";
   ".progress"; ".skeleton";
   "div[role=" +:+ JS.dquote +:+ "progressbar" +:+ JS.dquote +:+ "]"].

(** The text an error element contributes: trimmed, not empty and
    shorter than 200 code units. *)
Definition errorMessage_of (innerText : option string) : option string :=
  match innerText with
  | Some t =>
      let text := JS.trim t in
      if negb (String.eqb text "") && bool_decide (String.length text < 200)
      then Some text else None
  | None => None
  end.

(** The entry a loading selector contributes: [`${selector} (${n})`]. *)
Definition loadingIndicator_of (doc : Document) (selector : string) : option string :=
  let n := querySelectorAll_length doc selector in
  if bool_decide (0 < n) then Some (selector +:+ " (" +:+ JS.string_of_nat n +:+ ")")
  else None.

(** The function evaluated in the page. *)
Definition page_script (doc : Document) : VisualAnalysis :=
  let textContent :=
    match body_innerText doc with
    | Some t => JS.trim t
    | None => ""
    end in
  let hasContent := bool_decide (0 < String.length textContent) in
  let allElements := querySelectorAll_length doc "*" in
  let images := querySelectorAll_length doc "img" in
  let errorMessages := omap errorMessage_of (errorElements_innerText doc) in
  let consoleErrors := default [] (capturedErrors doc) in
  let loadingIndicators :=
    omap (loadingIndicator_of doc) loadingSelectors ++
    (if JS.includes (JS.toLowerCase textContent) "loading"
     then ["Loading text detected"] else []) in
  mkAnalysis hasContent
    (negb hasContent || bool_decide (allElements < 10))
    (JS.substring_to 500 textContent)
    allElements images
    (bool_decide (0 < length errorMessages) || bool_decide (0 < length consoleErrors))
    (errorMessages ++ consoleErrors)
    loadingIndicators.

(** [analyzePage(page)]; [None] stands for a page on which the
    evaluation fails.  The [performanceMetrics] that the method attaches
    to its result, and that none of its callers reads, are left out. *)
Definition analyzePage (page : option Document) : VisualAnalysis :=
  match page with
  | Some doc => page_script doc
  | None => mkAnalysis false true "" 0 0 true ["Failed to analyze page"] []
  end.

End Analyzer.

(** ** The browser controller ([browser.ts]) *)

Module Browser.

(** The calls the capturer makes on its [BrowserController], as the
    controller receives them. *)
Inductive Call : Type :=
| launch
| navigate (url : string)
| screenshot (path : string) (fullPage : bool)
| close.

(** [screenshot(path, fullPage = false)]: the argument may be omitted. *)
Definition screenshot_call (path : string) (fullPage : option bool) : Call :=
  screenshot path (default false fullPage).

(** The handles [browser], [context] and [page] ([false] is [null]). *)
Record Handles : Type := mkHandles {
  browser : bool;
  context : bool;
  page : bool
}.

Definition no_handles : Handles := mkHandles false false false.

(** What closing the Playwright objects does, for [close]: each of the
    three [close()] calls may throw. *)
Record Closing : Type := mkClosing {
  page_close_throws : bool;
  context_close_throws : bool;
  browser_close_throws : bool
}.

(** [close()]: the [try] closes what is open and clears the handles; the
    [catch] only logs, so that the handles stay when a close throws.  The
    method itself never throws. *)
Definition close_handles (w : Closing) (h : Handles) : Handles :=
  if page h && page_close_throws w then h
  else if context h && context_close_throws w then h
  else if browser h && browser_close_throws w then h
  else no_handles.

(** *** [launch()]

    The options of a controller, as its constructor has merged them; the
    calls it makes on Playwright; and the collaborators: which of the
    awaited calls reject, and which device names are known. *)

Record Throttling : Type := mkThrottling {
  downloadSpeed : option Q;
  uploadSpeed : option Q;
  latency : option Q
}.

Record BrowserOptions : Type := mkOptions {
  headless : option bool;
  viewport : option (Z * Z);
  userAgent : option string;
  deviceName : option string;
  throttling : option Throttling
}.

Inductive PlaywrightCall : Type :=
| chromium_launch (headless : option bool)
| browser_newContext (viewport : option (Z * Z)) (userAgent : option string)
                     (device : option string)
| context_newCDPSession
| emulateNetworkConditions (downloadThroughput uploadThroughput latency : Q)
| context_newPage.

Record Playwright : Type := mkPlaywright {
  known_device : string -> bool;
  launch_rejects : option string;
  newContext_rejects : option string;
  newCDPSession_rejects : option string;
  newPage_rejects : option string
}.

(** [applyThrottling()]: the calls it makes.  Its [catch] only warns. *)
Definition applyThrottling (pw : Playwright) (options : BrowserOptions) (h : Handles)
  : list PlaywrightCall :=
  if negb (page h) then []
  else
    match throttling options with
    | None => []
    | Some t =>
        let downloadSpeed := default ((15 # 10) * 1024 * 1024)%Q (downloadSpeed t) in
        let uploadSpeed := default (750 * 1024)%Q (uploadSpeed t) in
        let latency := default 40%Q (latency t) in
        match newCDPSession_rejects pw with
        | Some _ => [context_newCDPSession]
        | None =>
            [context_newCDPSession;
             emulateNetworkConditions (downloadSpeed / 8) (uploadSpeed / 8) latency]
        end
    end.

(** The device whose descriptor is merged into the context options. *)
Definition emulated_device (pw : Playwright) (options : BrowserOptions) : option string :=
  match deviceName options with
  | Some device =>
      if negb (String.eqb device "") && known_device pw device then Some device else None
  | None => None
  end.

(** [launch()]: the handles afterwards, the calls made on Playwright and
    the error rethrown, if any. *)
Definition launch_controller (pw : Playwright) (options : BrowserOptions) (h : Handles)
  : Handles * list PlaywrightCall * option string :=
  let c1 := chromium_launch (headless options) in
  match launch_rejects pw with
  | Some error => (h, [c1], Some error)
  | None =>
      let h1 := mkHandles true (context h) (page h) in
      let c2 := browser_newContext (viewport options) (userAgent options)
                                   (emulated_device pw options) in
      match newContext_rejects pw with
      | Some error => (h1, [c1; c2], Some error)
      | None =>
          let h2 := mkHandles true true (page h) in
          let throttle :=
            match throttling options with
            | Some _ => applyThrottling pw options h2
            | None => []
            end in
          match newPage_rejects pw with
          | Some error => (h2, [c1; c2] ++ throttle ++ [context_newPage], Some error)
          | None => (mkHandles true true true, [c1; c2] ++ throttle ++ [context_newPage], None)
          end
      end
  end.

End Browser.

(** ** The capture orchestrator ([capturer.ts]) *)

Module Capturer.

Inductive Phase : Type := initial | loading | final.

(** Every annotation is optional in the [Screenshot] interface. *)
Record Annotations : Type := mkAnnotations {
  blankScreen : option bool;
  hasContent : option bool;
  loadingIndicators : option (list string);
  hasErrors : option bool;
  errorMessages : option (list string);
  isKeyFrame : option bool
}.

Record Screenshot : Type := mkScreenshot {
  filename : string;
  timestamp : Z;
  phase : Phase;
  annotations : Annotations
}.

(** [CaptureConfig], with the fields the capturer and its tests use.
    [fullPage] is the flag the tests set; the interface of the sources
    does not declare it and the capturer never reads it. *)
Record CaptureConfig : Type := mkConfig {
  url : string;
  name : option string;
  duration : option Z;
  interval : option Z;
  outputDir : option string;
  viewport : option (Z * Z);
  waitFor : option string;
  fullPage : option bool
}.

(** The constructor: [{ duration: 10000, interval: 500, outputDir:
    './screenshots', ...config }]. *)
Definition withDefaults (c : CaptureConfig) : CaptureConfig :=
  mkConfig (url c) (name c)
    (Some (default 10000%Z (duration c)))
    (Some (default 500%Z (interval c)))
    (Some (default "./screenshots" (outputDir c)))
    (viewport c) (waitFor c) (fullPage c).

(** [this.config.duration!], present since the constructor. *)
Definition config_duration (c : CaptureConfig) : Z := default 10000%Z (duration c).

Record Analysis : Type := mkAnalysisBlock {
  loadingDuration : Z;
  keyFrames : list string;
  issues : list string;
  recommendations : list string
}.

Record Metadata : Type := mkMetadata {
  meta_url : string;
  meta_viewport : Z * Z;
  userAgent : string;
  meta_timestamp : string
}.

(** The local variables of a suspended [takeScreenshot]. *)
Record TakeTask : Type := mkTake {
  take_index : nat;
  take_filename : string;
  take_phase : Phase;
  take_timestamp : Z
}.

(** The local variables of a suspended [captureErrorScreenshot]. *)
Record ErrorTask : Type := mkError {
  error_index : nat;
  error_filename : string;
  error_timestamp : Z;
  error_type : string;
  error_message : string
}.

Inductive Task : Type :=
| Take (t : TakeTask)
| Error (e : ErrorTask).

(** [path.basename(p)]: what follows the last slash. *)
Fixpoint basename_from (acc : string) (p : string) : string :=
  match p with
  | EmptyString => acc
  | String c rest =>
      if Ascii.eqb c "/" then basename_from rest rest
      else basename_from acc rest
  end.

Definition basename (p : string) : string := basename_from p p.

(** [`${String(index).padStart(3, '0')}-${timestamp}ms.png`] *)
Definition screenshot_filename (index : nat) (timestamp : Z) : string :=
  JS.padStart 3 "0" (JS.string_of_nat index) +:+ "-" +:+ JS.string_of_Z timestamp +:+ "ms.png".

(** [`${String(index).padStart(3, '0')}-${timestamp}ms-ERROR.png`] *)
Definition error_filename_of (index : nat) (timestamp : Z) : string :=
  JS.padStart 3 "0" (JS.string_of_nat index) +:+ "-" +:+ JS.string_of_Z timestamp
    +:+ "ms-ERROR.png".

(** What an awaited call does: it returns or it throws. *)
Inductive Outcome (A : Type) : Type :=
| Returned (a : A)
| Thrown (error : string).
Arguments Returned {A} _.
Arguments Thrown {A} _.

Section WithCollaborators.

(** The analyzer and the metrics collector are collaborators of the
    capturer: their pure methods are parameters. *)
Variable compareAnalyses : Analyzer.VisualAnalysis -> Analyzer.VisualAnalysis -> Analyzer.VisualDiff.
Context {PerformanceMetrics : Type}.
Variable analyzePerformance : PerformanceMetrics -> list string.
Variable requestCount : PerformanceMetrics -> Z.
Variable totalResourceSize : PerformanceMetrics -> Z.

Record Performance : Type := mkPerformance {
  metrics : list PerformanceMetrics;
  summary : option (PerformanceMetrics * PerformanceMetrics)
}.

Record CaptureResult : Type := mkResult {
  captureId : string;
  metadata : Metadata;
  result_screenshots : list Screenshot;
  analysis : Analysis;
  performance : Performance;
  result_outputDir : string
}.

(** The fields of a [ScreenshotCapturer]; [browser] is the list of calls
    its controller has received, oldest first. *)
Record State : Type := mkState {
  config : CaptureConfig;
  browser : list Browser.Call;
  screenshots : list Screenshot;
  captureDir : string;
  startTime : Z;
  loadingComplete : bool;
  loadingCompleteTime : Z;
  previousAnalysis : option Analyzer.VisualAnalysis;
  keyFrameIndices : list nat;
  performanceMetrics : list PerformanceMetrics
}.

Definition new (c : CaptureConfig) : State :=
  mkState (withDefaults c) [] [] "" 0 false 0 None [] [].

(** *** [takeScreenshot(phase, timestamp)] *)

(** Up to [await this.browser.screenshot(screenshotPath)]: the index and
    the file name are fixed here. *)
Definition takeScreenshot_begin (st : State) (ph : Phase) (ts : Z) : State * TakeTask :=
  let index := length (screenshots st) in
  let filename := screenshot_filename index ts in
  let screenshotPath := JS.path_join (captureDir st) filename in
  (mkState (config st) (browser st ++ [Browser.screenshot_call screenshotPath None])
           (screenshots st) (captureDir st) (startTime st) (loadingComplete st)
           (loadingCompleteTime st) (previousAnalysis st) (keyFrameIndices st)
           (performanceMetrics st),
   mkTake index filename ph ts).

(** From the analysis to [this.screenshots.push(screenshot)]. *)
Definition takeScreenshot_resume (st : State) (t : TakeTask) (a : Analyzer.VisualAnalysis) : State :=
  let index := take_index t in
  let keys :=
    match previousAnalysis st with
    | Some previous =>
        if Analyzer.hasSignificantChange (compareAnalyses previous a)
        then JS.set_add index (keyFrameIndices st)
        else keyFrameIndices st
    | None => JS.set_add index (keyFrameIndices st)
    end in
  let screenshot :=
    mkScreenshot (take_filename t) (take_timestamp t) (take_phase t)
      (mkAnnotations (Some (Analyzer.isBlank a)) (Some (Analyzer.hasContent a))
         (Some (Analyzer.loadingIndicators a)) (Some (Analyzer.hasErrors a))
         (Some (Analyzer.errorMessages a)) (Some (JS.set_has index keys))) in
  mkState (config st) (browser st) (screenshots st ++ [screenshot]) (captureDir st)
          (startTime st) (loadingComplete st) (loadingCompleteTime st) (Some a) keys
          (performanceMetrics st).

(** After [collectMetrics]: the reading is kept, a failure only logged. *)
Definition takeScreenshot_metrics (st : State) (m : option PerformanceMetrics) : State :=
  match m with
  | Some reading =>
      mkState (config st) (browser st) (screenshots st) (captureDir st) (startTime st)
              (loadingComplete st) (loadingCompleteTime st) (previousAnalysis st)
              (keyFrameIndices st) (performanceMetrics st ++ [reading])
  | None => st
  end.

(** *** [captureErrorScreenshot(errorType, errorMessage)] *)

(** Up to [await this.browser.screenshot(screenshotPath)], at time [now]. *)
Definition captureErrorScreenshot_begin (st : State) (errorType errorMessage : string) (now : Z)
  : State * ErrorTask :=
  let timestamp := (now - startTime st)%Z in
  let index := length (screenshots st) in
  let filename := error_filename_of index timestamp in
  let screenshotPath := JS.path_join (captureDir st) filename in
  (mkState (config st) (browser st ++ [Browser.screenshot_call screenshotPath None])
           (screenshots st) (captureDir st) (startTime st) (loadingComplete st)
           (loadingCompleteTime st) (previousAnalysis st) (keyFrameIndices st)
           (performanceMetrics st),
   mkError index filename timestamp errorType errorMessage).

(** After the screenshot: the sample is pushed and its index recorded; a
    failed screenshot is caught and logged. *)
Definition captureErrorScreenshot_resume (st : State) (e : ErrorTask) (ok : bool) : State :=
  if ok then
    let screenshot :=
      mkScreenshot (error_filename e) (error_timestamp e) loading
        (mkAnnotations None None None (Some true)
           (Some [error_type e +:+ ": " +:+ error_message e]) (Some true)) in
    mkState (config st) (browser st) (screenshots st ++ [screenshot]) (captureDir st)
            (startTime st) (loadingComplete st) (loadingCompleteTime st)
            (previousAnalysis st) (JS.set_add (error_index e) (keyFrameIndices st))
            (performanceMetrics st)
  else st.

(** *** [detectLoading(detector)], after [await detector.detect(page)] *)
Definition detectLoading_resume (st : State) (isComplete : bool) (now : Z) : State :=
  if isComplete then
    mkState (config st) (browser st) (screenshots st) (captureDir st) (startTime st)
            true (now - startTime st)%Z (previousAnalysis st) (keyFrameIndices st)
            (performanceMetrics st)
  else st.

(** *** The manifest *)

Definition identifyKeyFrames (st : State) : list string :=
  let detected :=
    omap (fun index => filename <$> (screenshots st !! index)) (keyFrameIndices st) in
  let lastIndex := (Z.of_nat (length (screenshots st)) - 1)%Z in
  let last_one :=
    if (0 <=? lastIndex)%Z && negb (JS.set_has (Z.to_nat lastIndex) (keyFrameIndices st))
    then match screenshots st !! Z.to_nat lastIndex with
         | Some s => [filename s]
         | None => []
         end
    else [] in
  JS.sort (detected ++ last_one).

Definition truthy (b : option bool) : bool := default false b.

Definition detectIssues (st : State) : list string :=
  let lastScreenshot := last (screenshots st) in
  let blank :=
    match lastScreenshot with
    | Some s => if truthy (blankScreen (annotations s))
                then ["Page appears blank at end of capture"] else []
    | None => []
    end in
  let timeout :=
    if negb (loadingComplete st) then ["Loading did not complete within timeout"] else [] in
  let errorScreenshots := filter (fun s => truthy (hasErrors (annotations s)) = true) (screenshots st) in
  let errors :=
    if decide (0 < length errorScreenshots)
    then [JS.string_of_nat (length errorScreenshots) +:+ " screenshots contain errors"]
    else [] in
  blank ++ timeout ++ errors.

Definition analyzePerformanceMetrics (st : State) : list string :=
  match last (performanceMetrics st) with
  | Some latestMetrics => analyzePerformance latestMetrics
  | None => []
  end.

Definition generateRecommendations (st : State) : list string :=
  let keyFrameRatio := JS.div_nat (length (keyFrameIndices st)) (length (screenshots st)) in
  let r1 :=
    if JS.gtb keyFrameRatio (1 # 2)
    then ["High key frame ratio - page may be changing too frequently"]
    else if JS.ltb keyFrameRatio (1 # 10) && bool_decide (5 < length (screenshots st))
    then ["Low key frame ratio - consider checking for loading indicators"]
    else [] in
  let r2 :=
    if decide (20 < length (screenshots st))
    then ["Consider increasing capture interval to reduce screenshot count"]
    else [] in
  let r3 :=
    match last (performanceMetrics st) with
    | Some latestMetrics =>
        (if (50 <? requestCount latestMetrics)%Z
         then ["High number of network requests - consider bundling resources"] else [])
        ++
        (if (5 * 1024 * 1024 <? totalResourceSize latestMetrics)%Z
         then ["Large total resource size - consider optimizing assets"] else [])
    | None => []
    end in
  r1 ++ r2 ++ r3.

Definition getPerformanceSummary (st : State) : option (PerformanceMetrics * PerformanceMetrics) :=
  match head (performanceMetrics st), last (performanceMetrics st) with
  | Some firstMetrics, Some latestMetrics => Some (firstMetrics, latestMetrics)
  | _, _ => None
  end.

(** [generateManifest()]; [isoNow] is [new Date().toISOString()]. *)
Definition generateManifest (st : State) (isoNow : string) : CaptureResult :=
  let keyFrames := identifyKeyFrames st in
  let performanceIssues := analyzePerformanceMetrics st in
  mkResult (basename (captureDir st))
    (mkMetadata (url (config st)) (default (1280, 720)%Z (viewport (config st)))
                "Playwright" isoNow)
    (screenshots st)
    (mkAnalysisBlock
       (JS.or_int (loadingCompleteTime st) (config_duration (config st)))
       keyFrames
       (detectIssues st ++ performanceIssues)
       (generateRecommendations st))
    (mkPerformance (performanceMetrics st) (getPerformanceSummary st))
    (captureDir st).

(** *** The event loop

    A run of the capturer is a sequence of segments, each executed
    atomically: the segments of [captureSequence] itself ([navigated],
    [initial_begin], [final_begin]), of the interval loop
    ([interval_tick]), of the page-event handlers ([error_begin],
    [error_resume]), of [detectLoading] ([detect_resume]) and the
    continuations of suspended [takeScreenshot] calls.  The arguments of
    an event are what the outside world supplies: the clock, the analysis
    of the page, the metrics reading. *)

Inductive Event : Type :=
| navigated (now : Z)
| initial_begin
| interval_tick (now : Z)
| final_begin (now : Z)
| take_resume (id : nat) (a : Analyzer.VisualAnalysis)
| metrics_collected (reading : option PerformanceMetrics)
| error_begin (errorType errorMessage : string) (now : Z)
| error_resume (id : nat) (ok : bool)
| detect_resume (isComplete : bool) (now : Z).

(** The capturer, the handles of its browser controller and the calls
    that are suspended at an [await]; a call is named by its position. *)
Record Run : Type := mkRun {
  self : State;
  handles : Browser.Handles;
  suspended : list (option Task)
}.

Definition start (c : CaptureConfig) : Run := mkRun (new c) Browser.no_handles [].

Definition update (r : Run) (st : State) : Run := mkRun st (handles r) (suspended r).

Definition suspend (r : Run) (st : State) (t : Task) : Run :=
  mkRun st (handles r) (suspended r ++ [Some t]).

Definition finish (r : Run) (id : nat) (st : State) : Run :=
  mkRun st (handles r) (<[id:=None]> (suspended r)).

Definition begin_take (r : Run) (ph : Phase) (ts : Z) : Run :=
  let '(st, t) := takeScreenshot_begin (self r) ph ts in suspend r st (Take t).

Definition set_startTime (st : State) (now : Z) : State :=
  mkState (config st) (browser st) (screenshots st) (captureDir st) now
          (loadingComplete st) (loadingCompleteTime st) (previousAnalysis st)
          (keyFrameIndices st) (performanceMetrics st).

Definition exec (r : Run) (e : Event) : Run :=
  match e with
  | navigated now => update r (set_startTime (self r) now)
  | initial_begin => begin_take r initial 0
  | interval_tick now =>
      if loadingComplete (self r) then r
      else begin_take r loading (now - startTime (self r))
  | final_begin now => begin_take r final (now - startTime (self r))
  | take_resume id a =>
      match suspended r !! id with
      | Some (Some (Take t)) => finish r id (takeScreenshot_resume (self r) t a)
      | _ => r
      end
  | metrics_collected reading => update r (takeScreenshot_metrics (self r) reading)
  | error_begin errorType errorMessage now =>
      let '(st, t) := captureErrorScreenshot_begin (self r) errorType errorMessage now in
      suspend r st (Error t)
  | error_resume id ok =>
      match suspended r !! id with
      | Some (Some (Error t)) => finish r id (captureErrorScreenshot_resume (self r) t ok)
      | _ => r
      end
  | detect_resume isComplete now => update r (detectLoading_resume (self r) isComplete now)
  end.

Definition run (es : list Event) (r : Run) : Run := fold_left exec es r.

(** *** [captureSequence()]

    The body is written in a monad of actions on a [Run] that return or
    throw.  The world tells what each awaited collaborator does and
    which segments of other calls run meanwhile. *)

Definition Action (A : Type) : Type := Run -> Run * Outcome A.

Definition ret {A : Type} (a : A) : Action A := fun r => (r, Returned a).

Definition throw {A : Type} (error : string) : Action A := fun r => (r, Thrown error).

Definition bind {A B : Type} (m : Action A) (k : A -> Action B) : Action B :=
  fun r =>
    match m r with
    | (r', Returned a) => k a r'
    | (r', Thrown error) => (r', Thrown error)
    end.

(** [try { m } catch (error) { handler }] *)
Definition try_catch {A : Type} (m : Action A) (handler : string -> Action A) : Action A :=
  fun r =>
    match m r with
    | (r', Returned a) => (r', Returned a)
    | (r', Thrown error) => handler error r'
    end.

#[local] Instance Action_bind : MBind Action := fun A B k m => bind m k.

(** An awaited call that rejects with [fault], if any. *)
Definition await (fault : option string) : Action unit :=
  match fault with
  | Some error => throw error
  | None => ret tt
  end.

Definition await_result {A : Type} (result : Outcome A) : Action A := fun r => (r, result).

(** Segments of other calls that run while [captureSequence] is suspended. *)
Definition meanwhile (es : list Event) : Action unit := fun r => (run es r, Returned tt).

Definition log_call (c : Browser.Call) (st : State) : State :=
  mkState (config st) (browser st ++ [c]) (screenshots st) (captureDir st) (startTime st)
          (loadingComplete st) (loadingCompleteTime st) (previousAnalysis st)
          (keyFrameIndices st) (performanceMetrics st).

Definition set_captureDir (st : State) (dir : string) : State :=
  mkState (config st) (browser st) (screenshots st) dir (startTime st)
          (loadingComplete st) (loadingCompleteTime st) (previousAnalysis st)
          (keyFrameIndices st) (performanceMetrics st).

Record World : Type := mkWorld {
  launch_handles : Browser.Handles;
  launch_fault : option string;
  createCaptureDirectory_result : Outcome string;
  setupMetricsCollection_fault : option string;
  navigation_events : list Event;
  navigate_fault : option string;
  navigated_at : Z;
  initial_events : list Event;
  initial_fault : option string;
  race_events : list Event;
  race_fault : option string;
  final_at : Z;
  final_events : list Event;
  final_fault : option string;
  manifest_timestamp : string;
  saveManifest_fault : option string;
  closing : Browser.Closing
}.

(** [this.browser.launch()] *)
Definition browser_launch (w : World) : Action unit :=
  fun r =>
    (mkRun (log_call Browser.launch (self r)) (launch_handles w) (suspended r),
     match launch_fault w with
     | Some error => Thrown error
     | None => Returned tt
     end).

(** [this.browser.getPage()] *)
Definition browser_getPage : Action unit :=
  fun r =>
    (r, if Browser.page (handles r) then Returned tt
        else Thrown "Browser not launched. Call launch() first.").

(** [this.browser.navigate(url)] *)
Definition browser_navigate (w : World) : Action unit :=
  fun r =>
    if Browser.page (handles r) then
      ((meanwhile (navigation_events w) ;; await (navigate_fault w)) : Action unit)
        (update r (log_call (Browser.navigate (url (config (self r)))) (self r)))
    else
      (update r (log_call (Browser.navigate (url (config (self r)))) (self r)),
       Thrown "Browser not launched. Call launch() first.").

(** [this.browser.close()]: never throws. *)
Definition browser_close (w : World) : Action unit :=
  fun r =>
    (mkRun (log_call Browser.close (self r))
           (Browser.close_handles (closing w) (handles r)) (suspended r),
     Returned tt).

(** The [try] block of [captureSequence], up to [return manifest]. *)
Definition captureSequence_try (w : World) : Action CaptureResult :=
  browser_launch w ;;
  dir ← await_result (createCaptureDirectory_result w);
  ((fun r => (update r (set_captureDir (self r) dir), Returned tt)) : Action unit) ;;
  browser_getPage ;;
  await (setupMetricsCollection_fault w) ;;
  browser_navigate w ;;
  meanwhile [navigated (navigated_at w)] ;;
  meanwhile [initial_begin] ;;
  meanwhile (initial_events w) ;;
  await (initial_fault w) ;;
  meanwhile (race_events w) ;;
  await (race_fault w) ;;
  meanwhile [final_begin (final_at w)] ;;
  meanwhile (final_events w) ;;
  await (final_fault w) ;;
  manifest ← ((fun r => (r, Returned (generateManifest (self r) (manifest_timestamp w))))
              : Action CaptureResult);
  await (saveManifest_fault w) ;;
  browser_close w ;;
  ret manifest.

(** [try { ... } catch (error) { await this.browser.close(); throw error }] *)
Definition captureSequence (w : World) : Action CaptureResult :=
  try_catch (captureSequence_try w) (fun error => (browser_close w ;; throw error)).

End WithCollaborators.

End Capturer.

(** ** The metrics collector ([metrics.ts]) *)

Module Metrics.

(** A resource timing as the page reports it: [{ name, duration, size:
    transferSize || 0, type }]. *)
Record Resource : Type := mkResource {
  name : string;
  duration : Q;
  size : Z;
  type : string
}.

Record SlowestResource : Type := mkSlowest {
  url : string;
  slowest_duration : Q;
  slowest_size : Z
}.

Record PerformanceMetrics : Type := mkMetrics {
  navigationStart : Q;
  domContentLoaded : Q;
  loadEvent : Q;
  firstContentfulPaint : option Q;
  largestContentfulPaint : option Q;
  cumulativeLayoutShift : option Q;
  resourceCount : nat;
  totalResourceSize : Z;
  slowestResource : SlowestResource;
  usedJSHeapSize : option Z;
  totalJSHeapSize : option Z;
  requestCount : nat;
  failedRequests : nat;
  timestamp : Z
}.

(** The counters of a [MetricsCollector]. *)
Record MetricsCollector : Type := mkCollector {
  requests : nat;
  failed : nat
}.

(** What the four evaluations of [collectMetrics] read in the page. *)
Record PageReadings : Type := mkReadings {
  navigation_startTime : Q;
  navigation_domContentLoadedEventEnd : Q;
  navigation_loadEventEnd : Q;
  webVitals_fcp : option Q;
  webVitals_lcp : option Q;
  webVitals_cls : option Q;
  memory : option (Z * Z);
  resources : list Resource
}.

(** [x || 0] *)
Definition or_zero (x : Q) : Q := if Qeq_bool x 0 then 0%Q else x.

(** The reducer that finds the slowest resource. *)
Definition slower (slowest : option SlowestResource) (current : Resource)
  : option SlowestResource :=
  let bound :=
    match slowest with
    | Some s => or_zero (slowest_duration s)
    | None => 0%Q
    end in
  if negb (Qle_bool (duration current) bound)
  then Some (mkSlowest (name current) (duration current) (JS.or_int (size current) 0))
  else slowest.

(** [collectMetrics(page)] at the time [now], when the evaluations
    succeed. *)
Definition collectMetrics (this : MetricsCollector) (page : PageReadings) (now : Z)
  : PerformanceMetrics :=
  let totalResourceSize :=
    fold_left (fun sum r => (sum + JS.or_int (size r) 0)%Z) (resources page) 0%Z in
  let slowestResource := fold_left slower (resources page) None in
  mkMetrics
    (navigation_startTime page)
    (navigation_domContentLoadedEventEnd page - navigation_startTime page)
    (navigation_loadEventEnd page - navigation_startTime page)
    (webVitals_fcp page) (webVitals_lcp page) (webVitals_cls page)
    (length (resources page))
    totalResourceSize
    (default (mkSlowest "" 0 0) slowestResource)
    (fst <$> memory page) (snd <$> memory page)
    (requests this) (failed this)
    now.

End Metrics.

(** ** The storage manager ([storage.ts]) *)

Module Storage.

Record StorageManager : Type := mkStorage {
  outputDir : string
}.

(** [constructor(outputDir = '../.claude-screenshots')] *)
Definition new (outputDir : option string) : StorageManager :=
  mkStorage (default "../.claude-screenshots" outputDir).

(** [timestamp.replace(/[:.]/g, '-')] *)
Fixpoint replace_colons_and_dots (s : string) : string :=
  match s with
  | EmptyString => EmptyString
  | String c rest =>
      String (if Ascii.eqb c ":" || Ascii.eqb c "." then "-"%char else c)
             (replace_colons_and_dots rest)
  end.

(** What precedes the last slash of a path; [None] when it has none. *)
Fixpoint before_last_slash (p : string) : option string :=
  match p with
  | EmptyString => None
  | String c rest =>
      match before_last_slash rest with
      | Some d => Some (String c d)
      | None => if Ascii.eqb c "/" then Some EmptyString else None
      end
  end.

(** [path.dirname(p)] for a path that does not end in a slash, such as
    the working directory. *)
Definition dirname (p : string) : string :=
  match before_last_slash p with
  | Some EmptyString => "/"
  | Some d => d
  | None => "."
  end.

(** [createCaptureDirectory(name)], in the working directory [cwd] at
    the time [isoNow] ([new Date().toISOString()]); [mkdir_fault] is the
    error with which [fs.mkdir] rejects, if it does. *)
Definition createCaptureDirectory (this : StorageManager) (cwd isoNow : string)
           (mkdir_fault : option string) (name : string) : Capturer.Outcome string :=
  let projectName := Capturer.basename (dirname cwd) in
  let timestamp := replace_colons_and_dots isoNow in
  let dirName := name +:+ "-" +:+ timestamp in
  let fullPath := JS.join [outputDir this; projectName; dirName] in
  match mkdir_fault with
  | Some error => Capturer.Thrown error
  | None => Capturer.Returned fullPath
  end.

(** An entry of [fs.readdir(dir, { withFileTypes: true })]. *)
Record Dirent : Type := mkDirent {
  name : string;
  isDirectory : bool
}.

(** [listCaptures()]; [readdir] is the listing of the output directory,
    [None] when it cannot be read. *)
Definition listCaptures (readdir : option (list Dirent)) : list string :=
  match readdir with
  | Some entries =>
      rev (JS.sort (name <$> filter (fun entry => isDirectory entry = true) entries))
  | None => []
  end.




End Storage.

(** ** The pixel comparator ([comparator.ts]) *)

Module Comparator.

(** A decoded image: its size and its RGBA bytes, row by row. *)
Record PNG : Type := mkPNG {
  width : Z;
  height : Z;
  data : list Z
}.

Record ComparisonResult : Type := mkComparison {
  isMatch : bool;
  diffPercentage : JS.number;
  diffPixels : Z;
  totalPixels : Z;
  diffImagePath : option string
}.

Record ScreenshotComparator : Type := mkComparator {
  threshold : Q;
  pixelThreshold : Q
}.

(** [options.x || d] for an optional number. *)
Definition or_default (x : option Q) (d : Q) : Q :=
  match x with
  | Some v => if Qeq_bool v 0 then d else v
  | None => d
  end.

(** The constructor: [threshold || 0.1], [pixelThreshold || 10]. *)
Definition new (options_threshold options_pixelThreshold : option Q) : ScreenshotComparator :=
  mkComparator (or_default options_threshold (1 # 10)) (or_default options_pixelThreshold 10).

(** [ToInt32]: wrap into the signed 32-bit range. *)
Definition to_int32 (z : Z) : Z := ((z + 2 ^ 31) mod 2 ^ 32 - 2 ^ 31)%Z.

(** [z << 2] *)
Definition shl2 (z : Z) : Z := to_int32 (Z.shiftl z 2).

(** [buffer[i]]: [undefined] ([None]) outside the buffer. *)
Definition byte_at (buffer : list Z) (i : Z) : option Z :=
  if (i <? 0)%Z then None else buffer !! Z.to_nat i.

(** [buffer[i] = v] on a byte buffer: ignored outside the buffer. *)
Definition byte_set (buffer : list Z) (i : Z) (v : Z) : list Z :=
  if (i <? 0)%Z then buffer else <[Z.to_nat i:=v]> buffer.

(** [Math.abs(baseline.data[i] - current.data[i])]; [None] is [NaN]. *)
Definition channel_diff (baseline current : PNG) (i : Z) : option Z :=
  match byte_at (data baseline) i, byte_at (data current) i with
  | Some p, Some q => Some (Z.abs (p - q))
  | _, _ => None
  end.

(** [Math.max(rDiff, gDiff, bDiff, aDiff)], at byte index [idx]. *)
Definition pixelDiff_at (baseline current : PNG) (idx : Z) : option Z :=
  match channel_diff baseline current idx,
        channel_diff baseline current (idx + 1),
        channel_diff baseline current (idx + 2),
        channel_diff baseline current (idx + 3) with
  | Some r, Some g, Some b, Some a => Some (Z.max r (Z.max g (Z.max b a)))
  | _, _, _, _ => None
  end.

(** [pixelDiff > this.pixelThreshold] *)
Definition exceeds (pixelDiff : option Z) (limit : Q) : bool :=
  match pixelDiff with
  | Some d => negb (Qle_bool (inject_Z d) limit)
  | None => false
  end.

(** The running state of the double loop: [diffPixels] and [diff.data]. *)
Record Progress : Type := mkProgress {
  counted : Z;
  diff_data : list Z
}.

(** The body of the double loop at row [y], column [x]. *)
Definition compare_pixel (c : ScreenshotComparator) (baseline current : PNG)
           (y x : nat) (p : Progress) : Progress :=
  let idx := shl2 (width baseline * Z.of_nat y + Z.of_nat x) in
  if exceeds (pixelDiff_at baseline current idx) (pixelThreshold c) then
    mkProgress (counted p + 1)
      (byte_set (byte_set (byte_set (byte_set (diff_data p) idx 255) (idx + 1) 0)
                          (idx + 2) 0) (idx + 3) 255)
  else
    mkProgress (counted p)
      (byte_set (byte_set (byte_set (byte_set (diff_data p)
         idx (default 0%Z (byte_at (data baseline) idx)))
         (idx + 1) (default 0%Z (byte_at (data baseline) (idx + 1))))
         (idx + 2) (default 0%Z (byte_at (data baseline) (idx + 2))))
         (idx + 3) 128).

Definition compare_row (c : ScreenshotComparator) (baseline current : PNG)
           (p : Progress) (y : nat) : Progress :=
  fold_left (fun p x => compare_pixel c baseline current y x p)
            (seq 0 (Z.to_nat (width baseline))) p.

Definition compare_pixels (c : ScreenshotComparator) (baseline current : PNG)
           (p : Progress) : Progress :=
  fold_left (compare_row c baseline current) (seq 0 (Z.to_nat (height baseline))) p.

(** [a / b] for two non-negative integers. *)
Definition div_Z (a b : Z) : JS.number :=
  if (b =? 0)%Z then (if (a =? 0)%Z then JS.NaN else JS.Infinity)
  else JS.Num (a # Z.to_pos b).

(** [compareScreenshots], from the two decoded images on: the comparison
    result and, when one is written, the diff image with its path. *)
Definition compareScreenshots (c : ScreenshotComparator) (baseline current : PNG)
           (outputPath : option string) : ComparisonResult * option (string * PNG) :=
  if negb (width baseline =? width current)%Z || negb (height baseline =? height current)%Z then
    (mkComparison false (JS.Num 100)
       (width baseline * height baseline) (width baseline * height baseline) None,
     None)
  else
    let blank := replicate (Z.to_nat (4 * width baseline * height baseline)) 0%Z in
    let totalPixels := (width baseline * height baseline)%Z in
    let done := compare_pixels c baseline current (mkProgress 0 blank) in
    let diffPixels := counted done in
    let diffPercentage := JS.scale (div_Z diffPixels totalPixels) 100 in
    let isMatch := JS.leb diffPercentage (threshold c) in
    match outputPath with
    | Some path =>
        if negb (String.eqb path "") && (0 <? diffPixels)%Z then
          (mkComparison isMatch diffPercentage diffPixels totalPixels (Some path),
           Some (path, mkPNG (width baseline) (height baseline) (diff_data done)))
        else (mkComparison isMatch diffPercentage diffPixels totalPixels None, None)
    | None => (mkComparison isMatch diffPercentage diffPixels totalPixels None, None)
    end.

(** The pixel positions of an image, row by row. *)
Definition positions (img : PNG) : list (nat * nat) :=
  y ← seq 0 (Z.to_nat (height img)); (fun x => (x, y)) <$> seq 0 (Z.to_nat (width img)).

(** *** The comparison in the words of the specification

    An RGBA image holds its pixels row by row, four bytes a pixel.  The
    definitions below say what the specification asks of a pixel; they
    read the list of bytes directly and share neither the index
    arithmetic nor the tests of [compare_pixel], which is compared with
    them in Part II. *)

(** A decoded image carries four bytes for each of its pixels. *)
Definition well_formed (img : PNG) : Prop :=
  (0 <= width img)%Z /\ (0 <= height img)%Z /\
  Z.of_nat (length (data img)) = (4 * width img * height img)%Z.

(** The red, green, blue and alpha byte of the pixel at column [x] of
    row [y]. *)
Definition rgba (img : PNG) (x y : nat) : list Z :=
  take 4 (drop (4 * (Z.to_nat (width img) * y + x)) (data img)).

(** The absolute differences of two pixels, channel by channel. *)
Definition channel_differences (p q : list Z) : list Z :=
  zip_with (fun a b => Z.abs (a - b)) p q.

(** The greatest of a list of non-negative numbers. *)
Definition greatest (ds : list Z) : Z := foldr Z.max 0%Z ds.

(** The maximum of the four per-channel absolute differences at a
    position. *)
Definition max_difference (baseline current : PNG) (xy : nat * nat) : Z :=
  greatest (channel_differences (rgba baseline xy.1 xy.2) (rgba current xy.1 xy.2)).

(** [d] strictly exceeds [limit]. *)
Definition above (limit : Q) (d : Z) : bool :=
  match (limit ?= inject_Z d)%Q with
  | Lt => true
  | _ => false
  end.

(** The positions at which the maximum of the per-channel differences
    strictly exceeds [limit]. *)
Definition differing (limit : Q) (baseline current : PNG) : list (nat * nat) :=
  filter (fun xy => above limit (max_difference baseline current xy) = true)
         (positions baseline).

(** *** Files

    The comparator reads its images and manifests from the file system
    and writes diff images and baselines to it.  A disk holds files under
    their paths, compared as strings, and directories; [writable] tells
    where a write succeeds. *)

(** What [JSON.parse] makes of the content of a file, as far as the
    comparator looks at it: a text that is not JSON, a falsy value
    ([null], [false], [0], the empty string), or a truthy value with
    what iterating over its [analysis.keyFrames] yields ([None] when
    that cannot be iterated). *)
Inductive Json : Type :=
| unparsable
| falsy
| truthy (keyFrames : option (list string)).

(** A file: what [PNG.sync.read] decodes its content to ([None]: it is
    not a PNG image), and what [JSON.parse] makes of it. *)
Record File : Type := mkFile {
  decoded : option PNG;
  parsed : Json
}.

Record Disk : Type := mkDisk {
  files : gmap string File;
  directories : gset string;
  writable : string -> bool
}.

Inductive Exception : Type :=
| SystemError (syscall : string) (path : string)
| PngError
| TypeError
| Error (message : string).

Inductive Result (A : Type) : Type :=
| Ok (a : A)
| Throws (e : Exception).
Arguments Ok {A} _.
Arguments Throws {A} _.

(** [fs.access(path)]: does it resolve? *)
Definition access (d : Disk) (path : string) : bool :=
  bool_decide (is_Some (files d !! path)) || bool_decide (path ∈ directories d).

(** [fs.readFile(path)] *)
Definition readFile (d : Disk) (path : string) : Result File :=
  match files d !! path with
  | Some f => Ok f
  | None => Throws (SystemError "open" path)
  end.

(** [fs.writeFile(path, content)] *)
Definition writeFile (d : Disk) (path : string) (f : File) : Disk * Result unit :=
  if writable d path && negb (bool_decide (path ∈ directories d))
  then (mkDisk (<[path:=f]> (files d)) (directories d) (writable d), Ok tt)
  else (d, Throws (SystemError "open" path)).

(** [fs.copyFile(src, dest)] *)
Definition copyFile (d : Disk) (src dest : string) : Disk * Result unit :=
  match files d !! src with
  | Some f =>
      if writable d dest && negb (bool_decide (dest ∈ directories d))
      then (mkDisk (<[dest:=f]> (files d)) (directories d) (writable d), Ok tt)
      else (d, Throws (SystemError "copyfile" dest))
  | None => (d, Throws (SystemError "copyfile" src))
  end.

(** [fs.mkdir(path, { recursive: true })] *)
Definition mkdir (d : Disk) (path : string) : Disk * Result unit :=
  if bool_decide (path ∈ directories d) then (d, Ok tt)
  else if bool_decide (is_Some (files d !! path)) || negb (writable d path)
  then (d, Throws (SystemError "mkdir" path))
  else (mkDisk (files d) ({[path]} ∪ directories d) (writable d), Ok tt).

(** *** [compareScreenshots(baselinePath, currentPath, outputPath)]

    The whole method: both files are read and decoded, the images
    compared by [compareScreenshots] above, and the diff image written.
    Whatever is thrown is logged and rethrown.  The diff image is written
    by [PNG.sync.write], which [PNG.sync.read] inverts. *)
Definition compareScreenshots_files (c : ScreenshotComparator) (d : Disk)
           (baselinePath currentPath : string) (outputPath : option string)
  : Disk * Result ComparisonResult :=
  match readFile d baselinePath, readFile d currentPath with
  | Ok baselineData, Ok currentData =>
      match decoded baselineData, decoded currentData with
      | Some baseline, Some current =>
          match compareScreenshots c baseline current outputPath with
          | (result, Some (path, diff)) =>
              match writeFile d path (mkFile (Some diff) unparsable) with
              | (d', Ok _) => (d', Ok result)
              | (d', Throws e) => (d', Throws e)
              end
          | (result, None) => (d, Ok result)
          end
      | _, _ => (d, Throws PngError)
      end
  | Throws e, _ => (d, Throws e)
  | _, Throws e => (d, Throws e)
  end.

(** [readManifest(manifestPath)]: [null] ([None]) when the file cannot
    be read or parsed; a falsy value is as good as [null] to the callers. *)
Definition readManifest (d : Disk) (manifestPath : string) : option (option (list string)) :=
  match files d !! manifestPath with
  | Some f =>
      match parsed f with
      | truthy keyFrames => Some keyFrames
      | _ => None
      end
  | None => None
  end.

Record VisualRegressionResult : Type := mkRegression {
  baselineExists : bool;
  comparisons : list (string * ComparisonResult);
  overallMatch : bool;
  maxDiffPercentage : JS.number
}.

(** The entry pushed by the [catch] of the loop of [compareWithBaseline]. *)
Definition not_found : ComparisonResult := mkComparison false (JS.Num 100) 0 0 None.

(** The body of the loop over the key frames: the disk, [comparisons]
    and [maxDiffPercentage] before and after. *)
Definition compare_keyFrame (c : ScreenshotComparator) (currentCaptureDir baselineCaptureDir : string)
           (state : Disk * list (string * ComparisonResult) * JS.number) (keyFrame : string)
  : Disk * list (string * ComparisonResult) * JS.number :=
  let '(d, comparisons, maxDiffPercentage) := state in
  let currentPath := JS.join [currentCaptureDir; keyFrame] in
  let baselinePath := JS.join [baselineCaptureDir; keyFrame] in
  if access d baselinePath then
    let diffPath := JS.join [currentCaptureDir; "diff-" +:+ keyFrame] in
    match compareScreenshots_files c d currentPath baselinePath (Some diffPath) with
    | (d', Ok result) =>
        (d', comparisons ++ [(keyFrame, result)],
         JS.Math_max maxDiffPercentage (diffPercentage result))
    | (d', Throws _) => (d', comparisons ++ [(keyFrame, not_found)], JS.Num 100)
    end
  else (d, comparisons ++ [(keyFrame, not_found)], JS.Num 100).

(** [compareWithBaseline(currentCaptureDir, baselineCaptureDir)] *)
Definition compareWithBaseline (c : ScreenshotComparator) (d : Disk)
           (currentCaptureDir baselineCaptureDir : string)
  : Disk * Result VisualRegressionResult :=
  if negb (access d baselineCaptureDir) then
    (d, Ok (mkRegression false [] false (JS.Num 0)))
  else
    match readManifest d (JS.join [currentCaptureDir; "manifest.json"]),
          readManifest d (JS.join [baselineCaptureDir; "manifest.json"]) with
    | Some currentManifest, Some _ =>
        match currentManifest with
        | Some keyFrames =>
            let '(d', comparisons, maxDiffPercentage) :=
              fold_left (compare_keyFrame c currentCaptureDir baselineCaptureDir) keyFrames
                        (d, [], JS.Num 0) in
            (d', Ok (mkRegression true comparisons
                       (forallb (fun entry => isMatch entry.2) comparisons)
                       maxDiffPercentage))
        | None => (d, Throws TypeError)
        end
    | _, _ => (d, Throws (Error "Could not read manifest files"))
    end.

(** The loop of [createBaseline] over the key frames. *)
Fixpoint copy_keyFrames (d : Disk) (captureDir baselineDir : string) (keyFrames : list string)
  : Disk * Result unit :=
  match keyFrames with
  | [] => (d, Ok tt)
  | keyFrame :: rest =>
      match copyFile d (JS.join [captureDir; keyFrame]) (JS.join [baselineDir; keyFrame]) with
      | (d', Ok _) => copy_keyFrames d' captureDir baselineDir rest
      | (d', Throws e) => (d', Throws e)
      end
  end.

(** [createBaseline(captureDir, baselineDir)] *)
Definition createBaseline (d : Disk) (captureDir baselineDir : string) : Disk * Result unit :=
  match mkdir d baselineDir with
  | (d1, Throws e) => (d1, Throws e)
  | (d1, Ok _) =>
      match readManifest d1 (JS.join [captureDir; "manifest.json"]) with
      | None => (d1, Throws (Error "Could not read capture manifest"))
      | Some None => (d1, Throws TypeError)
      | Some (Some keyFrames) =>
          match copy_keyFrames d1 captureDir baselineDir keyFrames with
          | (d2, Ok _) =>
              copyFile d2 (JS.join [captureDir; "manifest.json"])
                          (JS.join [baselineDir; "manifest.json"])
          | (d2, Throws e) => (d2, Throws e)
          end
      end
  end.

End Comparator.

(** * Part II: properties *)

(** ** The composite strategy *)

Section CompositeStrategy.

Import Detector.

Lemma Promise_all_ge {A : Type} (now : N) (ps : list (Promise A)) (p : Promise A) :
  In p ps -> (settledAt p <= settledAt (Promise_all now ps))%N.
Proof.
  unfold Promise_all; simpl.
  induction ps as [|q ps IH]; simpl; intros Hin; [contradiction|].
  destruct Hin as [-> | Hin]; [lia|].
  specialize (IH Hin); lia.
Qed.


(** The composite strategy settles no earlier than any of its members. *)
Lemma composite_waits_for_every_member
      (strategies : list LoadingStrategy) (page : Page) (now : N) (s : LoadingStrategy) :
  In s strategies ->
  (settledAt (detect s page now)
   <= settledAt (detect (CompositeStrategy strategies) page now))%N.
Proof.
  intros Hin. simpl.
  apply (Promise_all_ge now (map (fun s => detect s page now) strategies)).
  apply in_map_iff. exists s. split; [reflexivity|exact Hin].
Qed.

(** The detector built from a configuration never answers before the
    configured duration has elapsed: its timeout member is awaited too. *)
Lemma createFromConfig_waits_for_duration
      (waitFor : option string) (d : N) (page : Page) (now : N) :
  d <> 0%N ->
  (now + d <= settledAt (detect (createFromConfig waitFor (Some d)) page now))%N.
Proof.
  intros Hd. unfold createFromConfig.
  destruct (N.eqb_spec d 0) as [->|_]; [contradiction|].
  apply (composite_waits_for_every_member _ page now (TimeoutStrategy d)).
  apply in_or_app. right. right. now left.
Qed.

(** C1.  The composite strategy does not answer as soon as one member
    answers [true].  The default composite [NetworkIdle(2000),
    Timeout(10000)] is started at time 0 on a page whose network is idle
    after 100 ms: the network-idle member answers [true] at 100 ms, yet
    the composite answers only at 10000 ms, when the timeout member has
    settled too.  First-to-finish would be 100 ms. *)
Theorem composite_detect_awaits_timeout_member :
  detect (NetworkIdleStrategy 2000) (quiet_page 100) 0 = mkPromise 100%N true /\
  detect createDefaultStrategy (quiet_page 100) 0 = mkPromise 10000%N true.
Proof. split; reflexivity. Qed.

End CompositeStrategy.

(** ** The pixel comparator *)

Section PixelComparator.

Import Comparator.

(** C6.  When the widths or the heights of the two decoded images
    differ, the comparison is a non-match at 100 percent whose
    differing-pixel count is the pixel count of the baseline; the result
    mentions neither the thresholds nor any byte of the images, and no
    diff image is produced: no pixel is compared. *)
Theorem dimension_mismatch_is_full_difference
        (c : ScreenshotComparator) (baseline current : PNG) (outputPath : option string) :
  width baseline <> width current \/ height baseline <> height current ->
  compareScreenshots c baseline current outputPath =
    (mkComparison false (JS.Num 100)
       (width baseline * height baseline) (width baseline * height baseline) None,
     None).
Proof.
  intros Hdim. unfold compareScreenshots.
  destruct (Z.eqb_spec (width baseline) (width current)) as [Hw|Hw];
    destruct (Z.eqb_spec (height baseline) (height current)) as [Hh|Hh];
    simpl; try reflexivity.
  destruct Hdim; contradiction.
Qed.

(** A 2x1 baseline against a 1x1 image, with thresholds that would
    accept anything. *)
Lemma dimension_mismatch_witness :
  compareScreenshots (mkComparator 100 255)
    (mkPNG 2 1 [0; 0; 0; 255; 0; 0; 0; 255]%Z) (mkPNG 1 1 [0; 0; 0; 255]%Z) (Some "diff.png") =
    (mkComparison false (JS.Num 100) 2 2 None, None).
Proof.
  apply (dimension_mismatch_is_full_difference (mkComparator 100 255)
           (mkPNG 2 1 [0; 0; 0; 255; 0; 0; 0; 255]%Z) (mkPNG 1 1 [0; 0; 0; 255]%Z)
           (Some "diff.png")).
  left. simpl. lia.
Defined.

(** The test of the loop body at a position, with the index arithmetic
    of the code. *)
Definition counted_by_code (c : ScreenshotComparator) (baseline current : PNG)
           (xy : nat * nat) : bool :=
  exceeds (pixelDiff_at baseline current
             (shl2 (width baseline * Z.of_nat xy.2 + Z.of_nat xy.1)))
          (pixelThreshold c).

Lemma counted_compare_pixel c baseline current y x p :
  counted (compare_pixel c baseline current y x p) =
  (counted p + if counted_by_code c baseline current (x, y) then 1 else 0)%Z.
Proof.
  unfold compare_pixel, counted_by_code; simpl.
  destruct (exceeds _ _); simpl; lia.
Qed.

Lemma counted_compare_row c baseline current y xs p :
  counted (fold_left (fun p x => compare_pixel c baseline current y x p) xs p) =
  (counted p +
   Z.of_nat (length (filter (fun xy => counted_by_code c baseline current xy = true)
                       ((fun x => (x, y)) <$> xs))))%Z.
Proof.
  revert p. induction xs as [|x xs IH]; intros p; [simpl; lia|].
  cbn [fold_left]. rewrite IH, counted_compare_pixel, fmap_cons, filter_cons.
  destruct (decide (counted_by_code c baseline current (x, y) = true)) as [E|E].
  - rewrite E, length_cons, Nat2Z.inj_succ. lia.
  - apply not_true_is_false in E. rewrite E. lia.
Qed.

Lemma counted_compare_rows c baseline current ys p :
  counted (fold_left (compare_row c baseline current) ys p) =
  (counted p +
   Z.of_nat (length (filter (fun xy => counted_by_code c baseline current xy = true)
                       (y ← ys; (fun x => (x, y)) <$> seq 0 (Z.to_nat (width baseline))))))%Z.
Proof.
  revert p. induction ys as [|y ys IH]; intros p; [simpl; lia|].
  cbn [fold_left]. rewrite IH. unfold compare_row at 1. rewrite counted_compare_row.
  rewrite bind_cons, filter_app, length_app, Nat2Z.inj_add. lia.
Qed.

(** The loop counts the positions its own test accepts. *)
Lemma counted_compare_pixels c baseline current p :
  counted (compare_pixels c baseline current p) =
  (counted p +
   Z.of_nat (length (filter (fun xy => counted_by_code c baseline current xy = true)
                       (positions baseline))))%Z.
Proof. apply counted_compare_rows. Qed.

Lemma filter_agree {A : Type} (P Q : A -> Prop)
      `{!forall x, Decision (P x)} `{!forall x, Decision (Q x)} (l : list A) :
  (forall x, x ∈ l -> P x <-> Q x) -> filter P l = filter Q l.
Proof.
  induction l as [|a l IH]; intros Hagree; [reflexivity|].
  rewrite !filter_cons.
  assert (Ha : P a <-> Q a) by (apply Hagree; left).
  assert (Hl : filter P l = filter Q l) by (apply IH; intros x Hx; apply Hagree; now right).
  destruct (decide (P a)), (decide (Q a)); rewrite Hl; tauto.
Qed.

Lemma filter_none {A : Type} (P : A -> Prop) `{!forall x, Decision (P x)} (l : list A) :
  (forall x, x ∈ l -> ~ P x) -> filter P l = [].
Proof.
  induction l as [|a l IH]; intros Hnone; [reflexivity|].
  rewrite filter_cons_False by (apply Hnone; left).
  apply IH. intros x Hx. apply Hnone. now right.
Qed.

Lemma elem_of_positions (img : PNG) (x y : nat) :
  (x, y) ∈ positions img <->
  (Z.of_nat x < Z.max 0 (width img))%Z /\ (Z.of_nat y < Z.max 0 (height img))%Z.
Proof.
  unfold positions. rewrite list_elem_of_bind. split.
  - intros (y' & Hx & Hy). apply list_elem_of_fmap in Hx as (x' & Heq & Hx).
    inversion Heq; subst. apply elem_of_seq in Hx, Hy. lia.
  - intros [Hx Hy]. exists y. split.
    + apply list_elem_of_fmap. exists x. split; [reflexivity|]. apply elem_of_seq. lia.
    + apply elem_of_seq. lia.
Qed.

(** Below [2^31] the 32-bit shift is the multiplication by four. *)
Lemma shl2_small (z : Z) : (0 <= z < 2 ^ 29)%Z -> shl2 z = (4 * z)%Z.
Proof.
  intros Hz. unfold shl2, to_int32. rewrite Z.shiftl_mul_pow2 by lia.
  change (2 ^ 2)%Z with 4%Z.
  rewrite Z.mod_small by lia. lia.
Qed.

(** At [2^29] the shifted index is negative. *)
Lemma shl2_wraps : shl2 (2 ^ 29) = (- 2 ^ 31)%Z.
Proof. reflexivity. Qed.

(** Below [2^29] pixels the index the loop computes for a position is
    the offset of the first byte of its pixel. *)
Lemma index_of_position (img : PNG) (x y : nat) :
  (width img * height img <= 2 ^ 29)%Z -> (x, y) ∈ positions img ->
  shl2 (width img * Z.of_nat y + Z.of_nat x) =
  Z.of_nat (4 * (Z.to_nat (width img) * y + x)).
Proof.
  intros Hsize Hin. apply elem_of_positions in Hin as [Hx Hy].
  rewrite shl2_small by nia.
  rewrite Nat2Z.inj_mul, Nat2Z.inj_add, Nat2Z.inj_mul, Z2Nat.id by lia.
  reflexivity.
Qed.

(** The pixel of a position lies within the bytes of a well-formed
    image. *)
Lemma pixel_in_buffer (img : PNG) (x y : nat) :
  well_formed img -> (x, y) ∈ positions img ->
  (4 * (Z.to_nat (width img) * y + x) + 4 <= length (data img))%nat.
Proof.
  intros (Hw & Hh & Hlen) Hin. apply elem_of_positions in Hin as [Hx Hy].
  assert (Hbytes : length (data img) =
                   (4 * (Z.to_nat (width img) * Z.to_nat (height img)))%nat) by nia.
  rewrite Hbytes.
  assert (Hrow : (Z.to_nat (width img) * y + x + 1 <= Z.to_nat (width img) * (y + 1))%nat) by nia.
  assert (Hrows : (Z.to_nat (width img) * (y + 1) <=
                   Z.to_nat (width img) * Z.to_nat (height img))%nat)
    by (apply Nat.mul_le_mono_l; lia).
  lia.
Qed.

(** The four bytes the loop reads from offset [n] on are the pixel
    stored there. *)
Lemma bytes_of_pixel (l : list Z) (n : nat) :
  (n + 4 <= length l)%nat ->
  exists r g b a,
    take 4 (drop n l) = [r; g; b; a] /\
    byte_at l (Z.of_nat n) = Some r /\ byte_at l (Z.of_nat n + 1) = Some g /\
    byte_at l (Z.of_nat n + 2) = Some b /\ byte_at l (Z.of_nat n + 3) = Some a.
Proof.
  intros Hlen.
  assert (Hat : forall k : nat, byte_at l (Z.of_nat n + Z.of_nat k) = drop n l !! k).
  { intros k. unfold byte_at.
    destruct (Z.ltb_spec (Z.of_nat n + Z.of_nat k) 0) as [Hneg|_]; [lia|].
    rewrite lookup_drop. f_equal. lia. }
  assert (Hdrop : (4 <= length (drop n l))%nat) by (rewrite length_drop; lia).
  pose proof (Hat 0%nat) as H0. pose proof (Hat 1%nat) as H1.
  pose proof (Hat 2%nat) as H2. pose proof (Hat 3%nat) as H3.
  rewrite Z.add_0_r in H0.
  change (Z.of_nat 1) with 1%Z in H1. change (Z.of_nat 2) with 2%Z in H2.
  change (Z.of_nat 3) with 3%Z in H3.
  destruct (drop n l) as [|r [|g [|b [|a rest]]]]; cbn [length] in Hdrop; try lia.
  exists r, g, b, a. repeat split; assumption.
Qed.

(** Within [2^29] pixels the loop computes, at every position of two
    well-formed images of equal size, the maximum of the four
    per-channel differences of the pixels stored there. *)
Lemma pixelDiff_at_is_max_difference (baseline current : PNG) (x y : nat) :
  width baseline = width current -> height baseline = height current ->
  well_formed baseline -> well_formed current ->
  (width baseline * height baseline <= 2 ^ 29)%Z ->
  (x, y) ∈ positions baseline ->
  pixelDiff_at baseline current (shl2 (width baseline * Z.of_nat y + Z.of_nat x)) =
  Some (max_difference baseline current (x, y)).
Proof.
  intros Hw Hh Hbase Hcur Hsize Hin.
  assert (Hin' : (x, y) ∈ positions current).
  { apply elem_of_positions. apply elem_of_positions in Hin. now rewrite <- Hw, <- Hh. }
  rewrite (index_of_position baseline x y Hsize Hin).
  destruct (bytes_of_pixel (data baseline) _ (pixel_in_buffer baseline x y Hbase Hin))
    as (r & g & b & a & Hp & Hr & Hg & Hb & Ha).
  destruct (bytes_of_pixel (data current) _ (pixel_in_buffer current x y Hcur Hin'))
    as (r' & g' & b' & a' & Hp' & Hr' & Hg' & Hb' & Ha').
  unfold max_difference, rgba. cbn [fst snd]. rewrite Hp, Hp'.
  rewrite <- Hw in Hr', Hg', Hb', Ha'.
  unfold pixelDiff_at, channel_diff. rewrite Hr, Hg, Hb, Ha, Hr', Hg', Hb', Ha'.
  unfold greatest, channel_differences. cbn [zip_with foldr]. f_equal. lia.
Qed.

(** The test of the loop is the strict comparison. *)
Lemma exceeds_above (d : Z) (limit : Q) : exceeds (Some d) limit = above limit d.
Proof.
  unfold exceeds, above.
  destruct (Qle_bool (inject_Z d) limit) eqn:E; cbn [negb].
  - apply Qle_bool_iff in E.
    destruct (limit ?= inject_Z d)%Q eqn:C; try reflexivity.
    apply Qlt_alt in C. exfalso. exact (Qlt_not_le _ _ C E).
  - destruct (limit ?= inject_Z d)%Q eqn:C; try reflexivity; exfalso.
    + apply Qeq_alt in C.
      assert (H : (inject_Z d <= limit)%Q) by (rewrite C; apply Qle_refl).
      apply Qle_bool_iff in H. congruence.
    + apply Qgt_alt in C. apply Qlt_le_weak in C.
      apply Qle_bool_iff in C. congruence.
Qed.

Lemma above_iff (limit : Q) (d : Z) : above limit d = true <-> (limit < inject_Z d)%Q.
Proof.
  unfold above. rewrite Qlt_alt.
  destruct (limit ?= inject_Z d)%Q; split; congruence.
Qed.

(** For two well-formed images of equal size and at most [2^29] pixels
    the loop counts the positions at which the maximum of the
    per-channel differences exceeds the pixel threshold. *)
Lemma counted_is_differing c baseline current p :
  width baseline = width current -> height baseline = height current ->
  well_formed baseline -> well_formed current ->
  (width baseline * height baseline <= 2 ^ 29)%Z ->
  counted (compare_pixels c baseline current p) =
  (counted p + Z.of_nat (length (differing (pixelThreshold c) baseline current)))%Z.
Proof.
  intros Hw Hh Hbase Hcur Hsize. rewrite counted_compare_pixels. do 3 f_equal.
  unfold differing. apply filter_agree.
  intros [x y] Hin. unfold counted_by_code. cbn [fst snd].
  rewrite (pixelDiff_at_is_max_difference baseline current x y) by assumption.
  now rewrite exceeds_above.
Qed.


Lemma diffPixels_compareScreenshots c baseline current outputPath :
  width baseline = width current -> height baseline = height current ->
  diffPixels (compareScreenshots c baseline current outputPath).1 =
  counted (compare_pixels c baseline current
             (mkProgress 0 (replicate (Z.to_nat (4 * width baseline * height baseline)) 0%Z))).
Proof.
  intros Hw Hh. unfold compareScreenshots.
  rewrite <- Hw, <- Hh, !Z.eqb_refl. simpl.
  destruct outputPath as [path|]; [|reflexivity].
  destruct (negb (String.eqb path "") && _); reflexivity.
Qed.

Lemma diffPercentage_compareScreenshots c baseline current outputPath :
  width baseline = width current -> height baseline = height current ->
  diffPercentage (compareScreenshots c baseline current outputPath).1 =
  JS.scale (div_Z (diffPixels (compareScreenshots c baseline current outputPath).1)
                  (width baseline * height baseline)) 100.
Proof.
  intros Hw Hh. unfold compareScreenshots.
  rewrite <- Hw, <- Hh, !Z.eqb_refl. simpl.
  destruct outputPath as [path|]; [|reflexivity].
  destruct (negb (String.eqb path "") && _); reflexivity.
Qed.

(** X23.  For every pair of well-formed images of equal size and at most
    [2^29] pixels, the loop body counts a pixel if and only if the
    maximum of the four per-channel absolute differences of the pixels
    stored at its position strictly exceeds the per-pixel threshold; the
    number of differing pixels reported is the number of such positions;
    and the threshold is 10 when none, or 0, is configured. *)
Theorem pixel_counted_iff_max_difference_exceeds
        (c : ScreenshotComparator) (baseline current : PNG) (outputPath : option string) :
  width baseline = width current -> height baseline = height current ->
  well_formed baseline -> well_formed current ->
  (width baseline * height baseline <= 2 ^ 29)%Z ->
  (forall x y p, (x, y) ∈ positions baseline ->
     (counted (compare_pixel c baseline current y x p) = (counted p + 1)%Z <->
      (pixelThreshold c < inject_Z (max_difference baseline current (x, y)))%Q) /\
     (counted (compare_pixel c baseline current y x p) = counted p <->
      (inject_Z (max_difference baseline current (x, y)) <= pixelThreshold c)%Q)) /\
  diffPixels (compareScreenshots c baseline current outputPath).1 =
    Z.of_nat (length (differing (pixelThreshold c) baseline current)) /\
  pixelThreshold (new None None) = 10%Q /\ pixelThreshold (new None (Some 0%Q)) = 10%Q.
Proof.
  intros Hw Hh Hbase Hcur Hsize. split; [|split; [|split; reflexivity]].
  - intros x y p Hin. rewrite counted_compare_pixel. unfold counted_by_code. cbn [fst snd].
    rewrite (pixelDiff_at_is_max_difference baseline current x y) by assumption.
    rewrite exceeds_above.
    destruct (above (pixelThreshold c) (max_difference baseline current (x, y))) eqn:E.
    + apply above_iff in E. split; split; intros H; try assumption; try lia.
      exfalso. exact (Qlt_not_le _ _ E H).
    + assert (Hle : (inject_Z (max_difference baseline current (x, y)) <= pixelThreshold c)%Q).
      { apply Qnot_lt_le. intros Hlt. apply above_iff in Hlt. congruence. }
      split; split; intros H; try assumption; try lia.
      exfalso. exact (Qlt_not_le _ _ H Hle).
  - rewrite diffPixels_compareScreenshots by assumption.
    rewrite counted_is_differing by assumption. cbn [counted]. lia.
Qed.

(** Two 1x2 images whose second pixels differ by 200 in the red channel
    alone, compared with the default thresholds: one pixel is counted. *)
Lemma pixel_counted_witness :
  diffPixels (compareScreenshots (new None None)
                (mkPNG 1 2 [10; 20; 30; 255; 10; 20; 30; 255]%Z)
                (mkPNG 1 2 [10; 20; 30; 255; 210; 20; 30; 255]%Z) None).1 = 1%Z.
Proof.
  pose proof (pixel_counted_iff_max_difference_exceeds (new None None)
                (mkPNG 1 2 [10; 20; 30; 255; 10; 20; 30; 255]%Z)
                (mkPNG 1 2 [10; 20; 30; 255; 210; 20; 30; 255]%Z) None
                eq_refl eq_refl) as H.
  destruct H as (_ & H & _).
  - unfold well_formed. cbn. lia.
  - unfold well_formed. cbn. lia.
  - cbn. lia.
  - exact H.
Defined.

(** X25.  When at no position of two well-formed images of equal size
    and at most [2^29] pixels the maximum of the per-channel differences
    exceeds the per-pixel threshold -- with the default threshold of 10,
    when the pixels differ by 5 in every channel --, no pixel is counted,
    and, the images not being empty, the difference is 0 percent: the
    images match under every threshold that is not negative, and no diff
    image is written. *)
Theorem differences_within_threshold_are_not_counted
        (c : ScreenshotComparator) (baseline current : PNG) (outputPath : option string) :
  width baseline = width current -> height baseline = height current ->
  well_formed baseline -> well_formed current ->
  (width baseline * height baseline <= 2 ^ 29)%Z ->
  (forall xy, xy ∈ positions baseline ->
     (inject_Z (max_difference baseline current xy) <= pixelThreshold c)%Q) ->
  let result := compareScreenshots c baseline current outputPath in
  diffPixels result.1 = 0%Z /\ result.2 = None /\ diffImagePath result.1 = None /\
  ((0 < width baseline * height baseline)%Z ->
   (exists q, diffPercentage result.1 = JS.Num q /\ (q == 0)%Q) /\
   ((0 <= threshold c)%Q -> isMatch result.1 = true)).
Proof.
  intros Hw Hh Hbase Hcur Hsize Hall result.
  assert (Hnone : differing (pixelThreshold c) baseline current = []).
  { unfold differing. apply filter_none. intros xy Hin Habove.
    apply above_iff in Habove. exact (Qlt_not_le _ _ Habove (Hall xy Hin)). }
  assert (Hcount : counted (compare_pixels c baseline current
             (mkProgress 0 (replicate (Z.to_nat (4 * width baseline * height baseline)) 0%Z)))
           = 0%Z).
  { rewrite counted_is_differing by assumption. rewrite Hnone. reflexivity. }
  subst result. unfold compareScreenshots.
  rewrite <- Hw, <- Hh, !Z.eqb_refl. cbn [negb orb]. cbv zeta. rewrite Hcount.
  assert (Hresult :
    (match outputPath with
     | Some path =>
         if negb (String.eqb path "") && (0 <? 0)%Z
         then (mkComparison
                 (JS.leb (JS.scale (div_Z 0 (width baseline * height baseline)) 100) (threshold c))
                 (JS.scale (div_Z 0 (width baseline * height baseline)) 100) 0
                 (width baseline * height baseline) (Some path),
               Some (path, mkPNG (width baseline) (height baseline)
                       (diff_data (compare_pixels c baseline current
                          (mkProgress 0
                             (replicate (Z.to_nat (4 * width baseline * height baseline)) 0%Z))))))
         else (mkComparison
                 (JS.leb (JS.scale (div_Z 0 (width baseline * height baseline)) 100) (threshold c))
                 (JS.scale (div_Z 0 (width baseline * height baseline)) 100) 0
                 (width baseline * height baseline) None, None)
     | None => (mkComparison
                 (JS.leb (JS.scale (div_Z 0 (width baseline * height baseline)) 100) (threshold c))
                 (JS.scale (div_Z 0 (width baseline * height baseline)) 100) 0
                 (width baseline * height baseline) None, None)
     end) =
    (mkComparison
       (JS.leb (JS.scale (div_Z 0 (width baseline * height baseline)) 100) (threshold c))
       (JS.scale (div_Z 0 (width baseline * height baseline)) 100) 0
       (width baseline * height baseline) None, None)).
  { destruct outputPath as [path|]; [|reflexivity].
    change (0 <? 0)%Z with false. now rewrite andb_false_r. }
  rewrite Hresult. cbn [fst snd diffPixels diffImagePath diffPercentage isMatch].
  split; [reflexivity|]. split; [reflexivity|]. split; [reflexivity|].
  intros Hpos. unfold div_Z.
  destruct (Z.eqb_spec (width baseline * height baseline) 0) as [Heq|_]; [lia|].
  cbn [JS.scale JS.leb]. split.
  - eexists. split; [reflexivity|]. reflexivity.
  - intros Hth. apply Qle_bool_iff.
    assert (Hzero : ((0 # Z.to_pos (width baseline * height baseline)) * 100 == 0)%Q)
      by reflexivity.
    now rewrite Hzero.
Qed.

(** Two 1x2 images that differ by 5 in every channel of their second
    pixel, compared with the default thresholds. *)
Lemma differences_within_threshold_witness :
  diffPixels (compareScreenshots (new None None)
                (mkPNG 1 2 [10; 20; 30; 255; 10; 20; 30; 250]%Z)
                (mkPNG 1 2 [10; 20; 30; 255; 15; 25; 35; 255]%Z) (Some "diff.png")).1 = 0%Z.
Proof.
  pose proof (differences_within_threshold_are_not_counted (new None None)
                (mkPNG 1 2 [10; 20; 30; 255; 10; 20; 30; 250]%Z)
                (mkPNG 1 2 [10; 20; 30; 255; 15; 25; 35; 255]%Z) (Some "diff.png")
                eq_refl eq_refl) as H.
  cbv zeta in H. destruct H as (H & _).
  - unfold well_formed. cbn. lia.
  - unfold well_formed. cbn. lia.
  - cbn. lia.
  - intros [x y] Hin. apply elem_of_positions in Hin. cbn in Hin.
    assert (x = 0%nat) as -> by lia.
    assert (y = 0%nat \/ y = 1%nat) as [-> | ->] by lia;
      vm_compute; discriminate.
  - exact H.
Defined.


(** A row of [2^29 + 1] black pixels, and the same row with its last
    pixel white. *)
Definition long_black_row : PNG :=
  mkPNG 536870913 1 (replicate (Z.to_nat 2147483652) 0%Z).

Definition long_row_white_end : PNG :=
  mkPNG 536870913 1 (replicate (Z.to_nat 2147483648) 0%Z ++ [255; 255; 255; 255]%Z).

Lemma byte_at_replicate (n i v : Z) :
  (0 <= i < n)%Z -> byte_at (replicate (Z.to_nat n) v) i = Some v.
Proof.
  intros Hi. unfold byte_at.
  destruct (Z.ltb_spec i 0) as [Hneg|_]; [lia|].
  apply lookup_replicate_2. lia.
Qed.

Lemma byte_at_app_l (l1 l2 : list Z) (i : Z) :
  (0 <= i < Z.of_nat (length l1))%Z -> byte_at (l1 ++ l2) i = byte_at l1 i.
Proof.
  intros Hi. unfold byte_at.
  destruct (Z.ltb_spec i 0) as [Hneg|_]; [lia|].
  apply lookup_app_l. lia.
Qed.

Lemma byte_at_app_r (l1 l2 : list Z) (i k : Z) :
  (0 <= k)%Z -> i = (Z.of_nat (length l1) + k)%Z -> byte_at (l1 ++ l2) i = byte_at l2 k.
Proof.
  intros Hk ->. unfold byte_at.
  destruct (Z.ltb_spec (Z.of_nat (length l1) + k) 0) as [Hneg|_]; [lia|].
  destruct (Z.ltb_spec k 0) as [Hneg|_]; [lia|].
  rewrite lookup_app_r by lia. f_equal. lia.
Qed.

Lemma black_channels (i : Z) :
  (0 <= i < 2147483648)%Z ->
  channel_diff long_black_row long_row_white_end i = Some 0%Z.
Proof.
  intros Hi. unfold channel_diff, long_black_row, long_row_white_end. cbn [data].
  rewrite byte_at_replicate by lia.
  rewrite byte_at_app_l by (rewrite length_replicate; lia).
  rewrite byte_at_replicate by lia. reflexivity.
Qed.

Lemma white_channels (k : Z) :
  (0 <= k < 4)%Z ->
  channel_diff long_black_row long_row_white_end (2147483648 + k) = Some 255%Z.
Proof.
  intros Hk. unfold channel_diff, long_black_row, long_row_white_end. cbn [data].
  rewrite byte_at_replicate by lia.
  rewrite (byte_at_app_r _ _ _ k) by (rewrite ?length_replicate; lia).
  assert (k = 0 \/ k = 1 \/ k = 2 \/ k = 3)%Z as [-> | [-> | [-> | ->]]] by lia; reflexivity.
Qed.

Lemma long_black_row_well_formed : well_formed long_black_row.
Proof.
  unfold well_formed, long_black_row. cbn [width height data].
  rewrite length_replicate, Z2Nat.id by lia. lia.
Qed.

Lemma long_row_white_end_well_formed : well_formed long_row_white_end.
Proof.
  unfold well_formed, long_row_white_end. cbn [width height data].
  rewrite length_app, length_replicate, Nat2Z.inj_add, Z2Nat.id by lia.
  cbn [length]. lia.
Qed.

Lemma last_pixel_black : rgba long_black_row (Z.to_nat 536870912) 0 = [0; 0; 0; 0]%Z.
Proof.
  unfold rgba, long_black_row. cbn [width data].
  rewrite drop_replicate, take_replicate.
  replace (4 `min` (Z.to_nat 2147483652 - 4 * (Z.to_nat 536870913 * 0 + Z.to_nat 536870912)))%nat
    with 4%nat by lia.
  reflexivity.
Qed.

Lemma last_pixel_white :
  rgba long_row_white_end (Z.to_nat 536870912) 0 = [255; 255; 255; 255]%Z.
Proof.
  unfold rgba, long_row_white_end. cbn [width data].
  rewrite drop_app_length'; [reflexivity|].
  rewrite length_replicate. lia.
Qed.

(** C7.  The comparator does not count every pixel whose maximal
    channel difference exceeds the threshold.  The two well-formed rows
    of [2^29 + 1] pixels have equal size; their last pixels are black
    and white, so that the maximum of the per-channel differences there
    is 255 and exceeds the default threshold of 10; yet no pixel is
    counted: the byte index [(width * y + x) << 2] of the pixel number
    [2^29] is [-2^31], and the reads at it are undefined. *)
Theorem pixel_beyond_int32_index_is_not_counted :
  (width long_black_row = width long_row_white_end /\
   height long_black_row = height long_row_white_end /\
   well_formed long_black_row /\ well_formed long_row_white_end) /\
  (rgba long_black_row (Z.to_nat 536870912) 0 = [0; 0; 0; 0]%Z /\
   rgba long_row_white_end (Z.to_nat 536870912) 0 = [255; 255; 255; 255]%Z /\
   max_difference long_black_row long_row_white_end (Z.to_nat 536870912, 0%nat) = 255%Z /\
   (Z.to_nat 536870912, 0%nat) ∈ differing 10 long_black_row long_row_white_end) /\
  diffPixels (compareScreenshots (new None None) long_black_row long_row_white_end None).1 = 0%Z.
Proof.
  assert (Hw : width long_black_row = width long_row_white_end)
    by (unfold long_black_row, long_row_white_end; cbn [width]; reflexivity).
  assert (Hh : height long_black_row = height long_row_white_end)
    by (unfold long_black_row, long_row_white_end; cbn [height]; reflexivity).
  assert (Hmax : max_difference long_black_row long_row_white_end
                   (Z.to_nat 536870912, 0%nat) = 255%Z).
  { unfold max_difference. cbn [fst snd]. rewrite last_pixel_black, last_pixel_white.
    reflexivity. }
  split; [|split].
  - exact (conj Hw (conj Hh (conj long_black_row_well_formed long_row_white_end_well_formed))).
  - split; [apply last_pixel_black|]. split; [apply last_pixel_white|].
    split; [exact Hmax|].
    unfold differing. apply list_elem_of_filter. split.
    + rewrite Hmax. reflexivity.
    + apply elem_of_positions. unfold long_black_row. cbn [width height]. lia.
  - rewrite (diffPixels_compareScreenshots _ _ _ None Hw Hh).
    rewrite counted_compare_pixels. cbn [counted].
    rewrite filter_none; [reflexivity|].
    intros [x y] Hin. apply elem_of_positions in Hin.
    cbn [width height long_black_row] in Hin.
    unfold counted_by_code. cbn [fst snd width long_black_row new pixelThreshold].
    assert (y = 0%nat) as -> by lia.
    destruct (Z.eq_dec (Z.of_nat x) 536870912%Z) as [Hx|Hx].
    + replace (536870913 * Z.of_nat 0 + Z.of_nat x)%Z with (2 ^ 29)%Z by lia.
      rewrite shl2_wraps. intros H. discriminate H.
    + rewrite shl2_small by lia.
      unfold pixelDiff_at. rewrite <- (Z.add_0_r (4 * _)) at 1.
      rewrite !black_channels by lia. intros H. discriminate H.
Qed.


End PixelComparator.

(** ** Text similarity *)

Section TextSimilarity.

Import Analyzer.

(** The value the double loop of [levenshteinDistance] gives to
    [matrix[i][j]], by recursion on [i] and [j]. *)
Fixpoint distance (str1 str2 : string) (i : nat) : nat -> nat :=
  match i with
  | O => fun j => j
  | S i' =>
      fix row (j : nat) : nat :=
        match j with
        | O => S i'
        | S j' =>
            if decide (JS.charAt str2 i' = JS.charAt str1 j')
            then distance str1 str2 i' j'
            else Nat.min (distance str1 str2 i' j' + 1)
                   (Nat.min (row j' + 1) (distance str1 str2 i' (S j') + 1))
        end
  end.

Lemma distance_first_column str1 str2 i : distance str1 str2 i 0 = i.
Proof. destruct i; reflexivity. Qed.

Lemma distance_step str1 str2 i j :
  distance str1 str2 (S i) (S j) =
  if decide (JS.charAt str2 i = JS.charAt str1 j)
  then distance str1 str2 i j
  else Nat.min (distance str1 str2 i j + 1)
         (Nat.min (distance str1 str2 (S i) j + 1) (distance str1 str2 i (S j) + 1)).
Proof. reflexivity. Qed.

(** Exchanging the two strings transposes the table. *)
Lemma distance_transpose str1 str2 i j :
  distance str1 str2 i j = distance str2 str1 j i.
Proof.
  revert j. induction i as [|i IHi]; intros j.
  - now rewrite distance_first_column.
  - induction j as [|j IHj].
    + now rewrite distance_first_column.
    + rewrite !distance_step, IHj, !IHi.
      destruct (decide (JS.charAt str2 i = JS.charAt str1 j)) as [E|E];
        destruct (decide (JS.charAt str1 j = JS.charAt str2 i)) as [E'|E'];
        try congruence.
      lia.
Qed.

Section Table.

Variables str1 str2 : string.

Let len1 := String.length str1.

(** A finished row, the rows finished before row [i], and the rows the
    first loop created that the double loop has not reached. *)
Definition full_row (k : nat) : list nat := distance str1 str2 k <$> seq 0 (S len1).

Definition rows_done (i : nat) : Matrix := full_row <$> seq 0 i.

Definition rows_todo (i n : nat) : Matrix := (fun k => [k]) <$> seq i n.

Lemma rows_done_S i : rows_done (S i) = rows_done i ++ [full_row i].
Proof. unfold rows_done. now rewrite seq_S, fmap_app. Qed.

Lemma create_rows n k :
  JS.for_each (seq k n) (fun i m => JS.array_set m i [i]) (rows_todo 0 k) =
  Some (rows_todo 0 (k + n)).
Proof.
  revert k. induction n as [|n IH]; intros k.
  - simpl. now rewrite Nat.add_0_r.
  - cbn [seq JS.for_each]. unfold JS.array_set at 1.
    assert (Hlen : length (rows_todo 0 k) = k)
      by (unfold rows_todo; now rewrite length_fmap, length_seq).
    rewrite Hlen.
    destruct (decide (k < k)) as [Hlt|_]; [lia|].
    destruct (decide (k = k)) as [_|Hne]; [|congruence].
    replace (rows_todo 0 k ++ [[k]]) with (rows_todo 0 (S k))
      by (unfold rows_todo; now rewrite seq_S, fmap_app).
    rewrite IH. f_equal. f_equal. lia.
Qed.

Lemma matrix_get_current (A : Matrix) (row : list nat) (C : Matrix) (i j : nat) :
  i = length A -> matrix_get (A ++ row :: C) i j = row !! j.
Proof. intros ->. unfold matrix_get. now rewrite (list_lookup_middle A C row (length A) eq_refl). Qed.

Lemma matrix_get_previous (A : Matrix) (prev row : list nat) (C : Matrix) (i j : nat) :
  i = length A -> matrix_get ((A ++ [prev]) ++ row :: C) i j = prev !! j.
Proof.
  intros ->. unfold matrix_get. rewrite <- app_assoc. cbn [app].
  now rewrite (list_lookup_middle A (row :: C) prev (length A) eq_refl).
Qed.

Lemma matrix_set_current (A : Matrix) (row : list nat) (C : Matrix) (i j v : nat) :
  i = length A -> j = length row ->
  matrix_set (A ++ row :: C) i j v = Some (A ++ (row ++ [v]) :: C).
Proof.
  intros -> ->. unfold matrix_set. rewrite (list_lookup_middle A C row (length A) eq_refl).
  unfold JS.array_set.
  destruct (decide (length row < length row)) as [Hlt|_]; [lia|].
  destruct (decide (length row = length row)) as [_|Hne]; [|congruence].
  f_equal. rewrite insert_app_r_alt by lia.
  now rewrite Nat.sub_diag.
Qed.

Lemma matrix_set_overwrite (A : Matrix) (row : list nat) (C : Matrix) (i j v : nat) :
  i = length A -> row !! j = Some v ->
  matrix_set (A ++ row :: C) i j v = Some (A ++ row :: C).
Proof.
  intros -> Hj. unfold matrix_set. rewrite (list_lookup_middle A C row (length A) eq_refl).
  unfold JS.array_set.
  destruct (decide (j < length row)) as [_|Hge].
  - rewrite (list_insert_id row j v Hj).
    rewrite insert_app_r_alt by lia. now rewrite Nat.sub_diag.
  - apply lookup_lt_Some in Hj. lia.
Qed.

(** The second loop: row 0 receives [0, 1, ..., len1]. *)
Lemma fill_first_row n k (C : Matrix) :
  JS.for_each (seq k n) (fun j m => matrix_set m 0 j j) (seq 0 k :: C) =
  Some (seq 0 (k + n) :: C).
Proof.
  revert k. induction n as [|n IH]; intros k.
  - simpl. now rewrite Nat.add_0_r.
  - cbn [seq JS.for_each].
    pose proof (matrix_set_current [] (seq 0 k) C 0 k k eq_refl) as Hset.
    rewrite length_seq in Hset. cbn [app] in Hset. rewrite (Hset eq_refl).
    replace (seq 0 k ++ [k]) with (seq 0 (S k)) by (rewrite seq_S; reflexivity).
    rewrite IH. do 3 f_equal. lia.
Qed.

Lemma full_row_lookup k j : j <= len1 -> full_row k !! j = Some (distance str1 str2 k j).
Proof.
  intros Hj. unfold full_row. rewrite list_lookup_fmap, lookup_seq_lt by lia. reflexivity.
Qed.

Lemma partial_row_lookup k n j :
  j < n -> (distance str1 str2 k <$> seq 0 n) !! j = Some (distance str1 str2 k j).
Proof.
  intros Hj. rewrite list_lookup_fmap, lookup_seq_lt by lia. reflexivity.
Qed.

(** One pass of the inner loop over the cells [j .. j + n - 1] of row
    [S i], the row [i] above being finished. *)
Lemma fill_row (A : Matrix) (C : Matrix) (i n j : nat) :
  length A = i -> 1 <= j -> j + n <= S len1 ->
  JS.for_each (seq j n) (levenshtein_cell str1 str2 (S i))
    ((A ++ [full_row i]) ++ (distance str1 str2 (S i) <$> seq 0 j) :: C) =
  Some ((A ++ [full_row i]) ++ (distance str1 str2 (S i) <$> seq 0 (j + n)) :: C).
Proof.
  intros HA. revert j. induction n as [|n IH]; intros j Hj Hjn.
  - simpl. now rewrite Nat.add_0_r.
  - cbn [seq JS.for_each].
    assert (Hlen : length (A ++ [full_row i]) = S i) by (rewrite length_app; simpl; lia).
    destruct j as [|j']; [lia|].
    assert (Hcell : levenshtein_cell str1 str2 (S i) (S j')
              ((A ++ [full_row i]) ++ (distance str1 str2 (S i) <$> seq 0 (S j')) :: C) =
            Some ((A ++ [full_row i]) ++ (distance str1 str2 (S i) <$> seq 0 (S (S j'))) :: C)).
    { unfold levenshtein_cell.
      replace (S i - 1) with i by lia. replace (S j' - 1) with j' by lia.
      rewrite !(matrix_get_previous A (full_row i) _ C i) by (symmetry; exact HA).
      rewrite (matrix_get_current (A ++ [full_row i]) _ C (S i)) by (symmetry; exact Hlen).
      rewrite !full_row_lookup by lia.
      rewrite partial_row_lookup by lia.
      assert (Hset : forall v,
                matrix_set ((A ++ [full_row i]) ++ (distance str1 str2 (S i) <$> seq 0 (S j')) :: C)
                  (S i) (S j') v =
                Some ((A ++ [full_row i]) ++
                      ((distance str1 str2 (S i) <$> seq 0 (S j')) ++ [v]) :: C)).
      { intros v. apply matrix_set_current; [symmetry; exact Hlen|].
        now rewrite length_fmap, length_seq. }
      rewrite (seq_S (S j') 0), fmap_app. cbn [fmap list_fmap Nat.add].
      rewrite distance_step.
      destruct (decide (JS.charAt str2 i = JS.charAt str1 j')); apply Hset. }
    rewrite Hcell. rewrite (IH (S (S j'))) by lia.
    now replace (S j' + S n) with (S (S j') + n) by lia.
Qed.

(** The double loop, from row [i] on: each pass finishes one row. *)
Lemma fill_rows (n i r : nat) :
  1 <= i ->
  JS.for_each (seq i n)
    (fun i m => JS.for_each (seq 1 len1) (levenshtein_cell str1 str2 i) m)
    (rows_done i ++ rows_todo i (n + r)) =
  Some (rows_done (i + n) ++ rows_todo (i + n) r).
Proof.
  revert i. induction n as [|n IH]; intros i Hi.
  - simpl. now rewrite Nat.add_0_r.
  - cbn [seq JS.for_each].
    destruct i as [|i']; [lia|].
    assert (Hpass : JS.for_each (seq 1 len1) (levenshtein_cell str1 str2 (S i'))
                      (rows_done (S i') ++ rows_todo (S i') (S n + r)) =
                    Some (rows_done (S (S i')) ++ rows_todo (S (S i')) (n + r))).
    { rewrite (rows_done_S i').
      unfold rows_todo at 1. cbn [seq Nat.add fmap list_fmap].
      pose proof (fill_row (rows_done i') (rows_todo (S (S i')) (n + r)) i' len1 1) as Hrow.
      unfold rows_done at 1 in Hrow. rewrite length_fmap, length_seq in Hrow.
      specialize (Hrow eq_refl (le_n 1) (le_n (S len1))).
      cbn [seq fmap list_fmap] in Hrow.
      rewrite distance_first_column in Hrow.
      fold (rows_todo (S (S i')) (n + r)). rewrite Hrow. f_equal.
      rewrite (rows_done_S (S i')), (rows_done_S i'), <- !app_assoc. reflexivity. }
    rewrite Hpass. rewrite (IH (S (S i'))) by lia.
    now replace (S i' + S n) with (S (S i') + n) by lia.
Qed.

(** [levenshteinDistance] returns the last cell of the table. *)
Lemma levenshteinDistance_is_distance :
  levenshteinDistance str1 str2 =
  Some (distance str1 str2 (String.length str2) (String.length str1)).
Proof.
  unfold levenshteinDistance. fold len1.
  pose proof (create_rows (S (String.length str2)) 0) as H0.
  change (rows_todo 0 0) with (@nil (list nat)) in H0.
  rewrite H0. clear H0.
  cbn [Nat.add]. unfold rows_todo at 1. cbn [seq fmap list_fmap JS.for_each].
  pose proof (matrix_set_overwrite [] [0] ((fun k => [k]) <$> seq 1 (String.length str2)) 0 0 0
                eq_refl eq_refl) as Hfirst.
  cbn [length app] in Hfirst. rewrite Hfirst. clear Hfirst.
  pose proof (fill_first_row len1 1 ((fun k => [k]) <$> seq 1 (String.length str2))) as Hrow0.
  cbn [seq] in Hrow0. rewrite Hrow0. clear Hrow0.
  pose proof (fill_rows (String.length str2) 1 0 (le_n 1)) as Hrows.
  rewrite (rows_done_S 0) in Hrows. cbn [rows_done seq fmap list_fmap app] in Hrows.
  unfold full_row at 1 in Hrows.
  assert (Hid : forall n, distance str1 str2 0 <$> seq 0 n = seq 0 n).
  { intros n. apply list_fmap_id. }
  rewrite Hid, Nat.add_0_r in Hrows.
  unfold rows_todo at 1 in Hrows. cbn [Nat.add]. rewrite Hrows. clear Hrows.
  unfold rows_todo. cbn [seq fmap list_fmap]. rewrite app_nil_r.
  unfold matrix_get, rows_done.
  rewrite list_lookup_fmap, lookup_seq_lt by lia. cbn [fmap option_fmap option_map Nat.add].
  apply full_row_lookup. unfold len1. lia.
Qed.

End Table.

(** The similarity of two different non-empty strings, from the longer
    one (the second one when the lengths are equal). *)
Lemma calculateTextSimilarity_distinct (text1 text2 : string) :
  text1 <> text2 -> text1 <> "" -> text2 <> "" ->
  calculateTextSimilarity text1 text2 =
  let longer := if decide (String.length text2 < String.length text1) then text1 else text2 in
  let shorter := if decide (String.length text2 < String.length text1) then text2 else text1 in
  JS.Num (((Z.of_nat (String.length longer)
            - Z.of_nat (distance longer shorter (String.length shorter) (String.length longer)))
           # Pos.of_nat (String.length longer)) * 100).
Proof.
  intros Hne H1 H2. unfold calculateTextSimilarity.
  destruct (decide (text1 = text2)) as [E|_]; [contradiction|].
  destruct (decide (text1 = "" \/ text2 = "")) as [[E|E]|_]; [contradiction..|].
  cbv zeta.
  assert (Hlen : forall s : string, s <> "" -> String.length s <> 0)
    by (intros [|c s] Hs; [congruence|simpl; lia]).
  destruct (decide (String.length text2 < String.length text1)) as [Hlt|Hge].
  - destruct (decide (String.length text1 = 0)) as [E|_]; [now apply Hlen in H1|].
    now rewrite levenshteinDistance_is_distance.
  - destruct (decide (String.length text2 = 0)) as [E|_]; [now apply Hlen in H2|].
    now rewrite levenshteinDistance_is_distance.
Qed.

(** C9.  The text similarity is symmetric; a string is 100 percent
    similar to itself; and when exactly one of the two strings is empty
    the similarity is 0. *)
Theorem text_similarity_symmetric :
  (forall a b : string, calculateTextSimilarity a b = calculateTextSimilarity b a) /\
  (forall a : string, calculateTextSimilarity a a = JS.Num 100) /\
  (forall a : string, a <> "" ->
     calculateTextSimilarity a "" = JS.Num 0 /\ calculateTextSimilarity "" a = JS.Num 0).
Proof.
  split; [|split].
  - intros a b.
    destruct (decide (a = b)) as [->|Hne]; [reflexivity|].
    destruct (decide (a = "")) as [->|Ha].
    { unfold calculateTextSimilarity.
      destruct (decide ("" = b)) as [E|_]; [congruence|].
      destruct (decide (b = "")) as [E|_]; [congruence|].
      destruct (decide ("" = "" \/ b = "")) as [_|N]; [|tauto].
      destruct (decide (b = "" \/ "" = "")) as [_|N]; [|tauto].
      reflexivity. }
    destruct (decide (b = "")) as [->|Hb].
    { unfold calculateTextSimilarity.
      destruct (decide (a = "")) as [E|_]; [congruence|].
      destruct (decide ("" = a)) as [E|_]; [congruence|].
      destruct (decide (a = "" \/ "" = "")) as [_|N]; [|tauto].
      destruct (decide ("" = "" \/ a = "")) as [_|N]; [|tauto].
      reflexivity. }
    rewrite (calculateTextSimilarity_distinct a b) by congruence.
    rewrite (calculateTextSimilarity_distinct b a) by congruence.
    cbv zeta.
    destruct (decide (String.length b < String.length a)) as [Hba|Hba];
      destruct (decide (String.length a < String.length b)) as [Hab|Hab];
      try lia; try reflexivity.
    assert (Heq : String.length a = String.length b) by lia.
    rewrite (distance_transpose b a), Heq. reflexivity.
  - intros a. unfold calculateTextSimilarity.
    destruct (decide (a = a)) as [_|N]; [reflexivity|congruence].
  - intros a Ha. unfold calculateTextSimilarity.
    destruct (decide (a = "")) as [E|_]; [congruence|].
    destruct (decide ("" = a)) as [E|_]; [congruence|].
    destruct (decide (a = "" \/ "" = "")) as [_|N]; [|tauto].
    destruct (decide ("" = "" \/ a = "")) as [_|N]; [|tauto].
    split; reflexivity.
Qed.

Lemma text_similarity_witness :
  calculateTextSimilarity "abc" "abd" = calculateTextSimilarity "abd" "abc" /\
  calculateTextSimilarity "abc" "" = JS.Num 0.
Proof.
  destruct text_similarity_symmetric as (Hsym & _ & Hempty).
  split; [apply Hsym|]. apply (Hempty "abc"). discriminate.
Defined.

End TextSimilarity.

(** ** The capture orchestrator *)

Section Capture.

Import Capturer.

Context (compareAnalyses : Analyzer.VisualAnalysis -> Analyzer.VisualAnalysis -> Analyzer.VisualDiff).
Context {PerformanceMetrics : Type}.
Context (analyzePerformance : PerformanceMetrics -> list string).
Context (requestCount totalResourceSize : PerformanceMetrics -> Z).

Local Abbreviation exec := (Capturer.exec compareAnalyses (PerformanceMetrics := PerformanceMetrics)).
Local Abbreviation run := (Capturer.run compareAnalyses (PerformanceMetrics := PerformanceMetrics)).
Local Abbreviation generateManifest :=
  (Capturer.generateManifest analyzePerformance requestCount totalResourceSize).
Local Abbreviation captureSequence :=
  (Capturer.captureSequence compareAnalyses analyzePerformance requestCount totalResourceSize).
Local Abbreviation captureSequence_try :=
  (Capturer.captureSequence_try compareAnalyses analyzePerformance requestCount totalResourceSize).

Implicit Types (r : Run (PerformanceMetrics := PerformanceMetrics)).
Implicit Types (st : State (PerformanceMetrics := PerformanceMetrics)).
Implicit Types (e : Event (PerformanceMetrics := PerformanceMetrics)).
Implicit Types (es : list (Event (PerformanceMetrics := PerformanceMetrics))).
Implicit Types (w : World (PerformanceMetrics := PerformanceMetrics)).

(** Case analysis on the segment an event runs. *)
Ltac segments e :=
  destruct e;
  unfold Capturer.exec, begin_take, update, suspend, finish, takeScreenshot_begin,
    captureErrorScreenshot_begin, set_startTime, takeScreenshot_metrics,
    detectLoading_resume, takeScreenshot_resume, captureErrorScreenshot_resume;
  cbn [self handles suspended fst snd];
  repeat match goal with
         | |- context [match ?x with _ => _ end] => destruct x eqn:?
         end;
  cbn [self handles suspended config browser screenshots captureDir startTime
       loadingComplete loadingCompleteTime previousAnalysis keyFrameIndices
       performanceMetrics].

Lemma run_app es1 es2 r : run (es1 ++ es2) r = run es2 (run es1 r).
Proof. apply fold_left_app. Qed.

Lemma run_cons e es r : run (e :: es) r = run es (exec r e).
Proof. reflexivity. Qed.

(** *** What the segments leave unchanged *)

Lemma exec_config r e : config (self (exec r e)) = config (self r).
Proof. segments e; reflexivity. Qed.

Lemma run_config es r : config (self (run es r)) = config (self r).
Proof.
  revert r. induction es as [|e es IH]; intros r; [reflexivity|].
  rewrite run_cons, IH. apply exec_config.
Qed.

Lemma exec_handles r e : handles (exec r e) = handles r.
Proof. segments e; reflexivity. Qed.

Lemma run_handles es r : handles (run es r) = handles r.
Proof.
  revert r. induction es as [|e es IH]; intros r; [reflexivity|].
  rewrite run_cons, IH. apply exec_handles.
Qed.

(** Samples are only ever appended. *)
Lemma exec_appends_only r e :
  exists added, screenshots (self (exec r e)) = screenshots (self r) ++ added.
Proof.
  segments e; try (exists []; now rewrite app_nil_r); eexists; reflexivity.
Qed.

Lemma run_appends_only es r :
  exists added, screenshots (self (run es r)) = screenshots (self r) ++ added.
Proof.
  revert r. induction es as [|e es IH]; intros r.
  - exists []. now rewrite app_nil_r.
  - rewrite run_cons. destruct (IH (exec r e)) as [l2 H2].
    destruct (exec_appends_only r e) as [l1 H1].
    exists (l1 ++ l2). now rewrite H2, H1, app_assoc.
Qed.

(** *** A completed run of [captureSequence] *)

(** The segments run during a capture, in order: what happens while the
    navigation is awaited, the start of the clock and of the initial
    sample, what happens until the initial sample settles, during the
    race, and from the start of the final sample until it settles. *)
Definition schedule w : list (Event (PerformanceMetrics := PerformanceMetrics)) :=
  navigation_events w ++ [navigated (navigated_at w); initial_begin] ++
  initial_events w ++ race_events w ++ [final_begin (final_at w)] ++ final_events w.

(** The run when [page.goto] is called: the browser is launched and the
    capture directory created. *)
Definition navigating (c : CaptureConfig) w (dir : string)
  : Run (PerformanceMetrics := PerformanceMetrics) :=
  mkRun (log_call (Browser.navigate (url (withDefaults c)))
           (set_captureDir (log_call Browser.launch (new c)) dir))
        (launch_handles w) [].

(** When [captureSequence] returns, its manifest is the one generated
    after the schedule of the world, and the browser is closed last. *)
Lemma captureSequence_returned (c : CaptureConfig) w r (m : CaptureResult) :
  captureSequence w (start c) = (r, Returned m) ->
  exists dir,
    createCaptureDirectory_result w = Returned dir /\
    m = generateManifest (self (run (schedule w) (navigating c w dir))) (manifest_timestamp w) /\
    self r = log_call Browser.close (self (run (schedule w) (navigating c w dir))).
Proof.
  unfold Capturer.captureSequence, try_catch, Capturer.captureSequence_try, mbind,
    Action_bind, bind, browser_launch, await_result, await, browser_getPage,
    browser_navigate, meanwhile, browser_close, ret, throw, mbind, Action_bind, bind,
    meanwhile, await, ret, throw.
  cbn [self handles suspended start].
  destruct (launch_fault w); [discriminate|].
  destruct (createCaptureDirectory_result w) as [dir|]; [|discriminate].
  cbn [update self handles suspended].
  destruct (Browser.page (launch_handles w)) eqn:Hpage; [|discriminate].
  destruct (setupMetricsCollection_fault w); [discriminate|].
  cbn [update self handles suspended]. rewrite Hpage.
  destruct (navigate_fault w); [discriminate|].
  destruct (initial_fault w); [discriminate|].
  destruct (race_fault w); [discriminate|].
  destruct (final_fault w); [discriminate|].
  destruct (saveManifest_fault w); [discriminate|].
  intros H. inversion H; subst. exists dir. split; [reflexivity|].
  unfold schedule, navigating. rewrite !run_app. split; reflexivity.
Qed.

(** *** The calls received by the browser controller *)

Definition is_close (call : Browser.Call) : bool :=
  match call with
  | Browser.close => true
  | _ => false
  end.

(** How many times [close()] was invoked. *)
Definition closes (calls : list Browser.Call) : nat :=
  length (filter (fun call => is_close call = true) calls).

(** A viewport-only screenshot request. *)
Definition viewport_screenshot (call : Browser.Call) : Prop :=
  exists path, call = Browser.screenshot path false.

(** The segments of the event loop only ever ask the controller for
    screenshots, and never pass the full-page argument. *)
Lemma exec_browser r e :
  exists added,
    browser (self (exec r e)) = browser (self r) ++ added /\
    Forall viewport_screenshot added.
Proof.
  segments e;
    try (exists []; split; [now rewrite app_nil_r|constructor]);
    eexists; (split; [reflexivity|]); repeat constructor; eexists; reflexivity.
Qed.

Lemma run_browser es r :
  exists added,
    browser (self (run es r)) = browser (self r) ++ added /\
    Forall viewport_screenshot added.
Proof.
  revert r. induction es as [|e es IH]; intros r.
  - exists []. split; [now rewrite app_nil_r|constructor].
  - rewrite run_cons. destruct (IH (exec r e)) as (l2 & H2 & F2).
    destruct (exec_browser r e) as (l1 & H1 & F1).
    exists (l1 ++ l2). split; [now rewrite H2, H1, app_assoc|].
    now apply Forall_app.
Qed.

Lemma closes_app l1 l2 : closes (l1 ++ l2) = closes l1 + closes l2.
Proof. unfold closes. now rewrite filter_app, length_app. Qed.

Lemma closes_viewport_screenshots l : Forall viewport_screenshot l -> closes l = 0.
Proof.
  induction 1 as [|call l [path ->] _ IH]; [reflexivity|].
  unfold closes in *. rewrite filter_cons_False by (simpl; congruence). exact IH.
Qed.

Lemma run_closes es r : closes (browser (self (run es r))) = closes (browser (self r)).
Proof.
  destruct (run_browser es r) as (added & -> & Hadded).
  rewrite closes_app, (closes_viewport_screenshots added Hadded). lia.
Qed.

Lemma closes_log_call call st :
  closes (browser (log_call call st)) = closes (browser st) + (if is_close call then 1 else 0).
Proof.
  unfold log_call. cbn [browser]. rewrite closes_app. f_equal.
  unfold closes. rewrite filter_cons, filter_nil.
  destruct (is_close call); reflexivity.
Qed.

Lemma last_log_call call st : last (browser (log_call call st)) = Some call.
Proof. unfold log_call. cbn [browser]. apply last_snoc. Qed.

(** The [catch] of [captureSequence] rethrows the fault it caught. *)
Lemma captureSequence_outcome w r :
  (captureSequence w r).2 = (captureSequence_try w r).2.
Proof.
  unfold Capturer.captureSequence, try_catch.
  destruct (captureSequence_try w r) as [r' [m|error]]; reflexivity.
Qed.

(** C2.  Whatever the collaborators do -- each awaited call returning or
    throwing, any segments of other calls running meanwhile, the closing
    of the page, context or browser throwing or not --, when
    [captureSequence] returns or rethrows, [close()] has been invoked on
    the browser controller exactly once, and it is the last call the
    controller received; what is returned or rethrown is what the [try]
    block returned or threw. *)
Theorem browser_closed_exactly_once (c : CaptureConfig) w :
  let r := (captureSequence w (start c)).1 in
  (closes (browser (self r)) = 1 /\ last (browser (self r)) = Some Browser.close) /\
  (captureSequence w (start c)).2 = (captureSequence_try w (start c)).2.
Proof.
  cbv zeta. split; [|apply captureSequence_outcome].
  unfold Capturer.captureSequence, try_catch, Capturer.captureSequence_try, mbind,
    Action_bind, bind, browser_launch, await_result, await, browser_getPage,
    browser_navigate, meanwhile, browser_close, ret, throw, mbind, Action_bind, bind,
    meanwhile, await, ret, throw.
  cbn [self handles suspended start].
  assert (Hclose : forall st, closes (browser st) = 0 ->
            closes (browser (log_call Browser.close st)) = 1 /\
            last (browser (log_call Browser.close st)) = Some Browser.close).
  { intros st Hst. rewrite closes_log_call, last_log_call, Hst. split; reflexivity. }
  destruct (launch_fault w); cbn [fst self]; [apply Hclose; reflexivity|].
  destruct (createCaptureDirectory_result w) as [dir|]; cbn [fst self];
    [|apply Hclose; reflexivity].
  cbn [update self handles suspended].
  destruct (Browser.page (launch_handles w)) eqn:Hpage; cbn [fst self];
    [|apply Hclose; reflexivity].
  destruct (setupMetricsCollection_fault w); cbn [fst self update];
    [apply Hclose; reflexivity|].
  cbn [update self handles suspended]. rewrite Hpage.
  destruct (navigate_fault w); cbn [fst self];
    [apply Hclose; now rewrite ?run_closes|].
  destruct (initial_fault w); cbn [fst self];
    [apply Hclose; now rewrite ?run_closes|].
  destruct (race_fault w); cbn [fst self];
    [apply Hclose; now rewrite ?run_closes|].
  destruct (final_fault w); cbn [fst self];
    [apply Hclose; now rewrite ?run_closes|].
  destruct (saveManifest_fault w); cbn [fst self];
    apply Hclose; now rewrite ?run_closes.
Qed.

(** *** Loading duration and the timeout issue *)

(** Does the event record that the detector reported completion? *)
Definition reports_completion e : bool :=
  match e with
  | detect_resume true _ => true
  | _ => false
  end.

Lemma exec_without_completion r e :
  reports_completion e = false ->
  loadingComplete (self (exec r e)) = loadingComplete (self r) /\
  loadingCompleteTime (self (exec r e)) = loadingCompleteTime (self r).
Proof. intros He. segments e; try discriminate He; split; congruence. Qed.

Lemma run_without_completion es r :
  Forall (fun e => reports_completion e = false) es ->
  loadingComplete (self (run es r)) = loadingComplete (self r) /\
  loadingCompleteTime (self (run es r)) = loadingCompleteTime (self r).
Proof.
  revert r. induction es as [|e es IH]; intros r Hes; [split; reflexivity|].
  inversion Hes as [|? ? He Hes']; subst. rewrite run_cons.
  destruct (IH (exec r e) Hes') as [H1 H2].
  destruct (exec_without_completion r e He) as [H1' H2'].
  split; congruence.
Qed.

Lemma config_duration_withDefaults (c : CaptureConfig) :
  config_duration (withDefaults c) = default 10000%Z (duration c).
Proof. reflexivity. Qed.

(** C5 (amended).  In every capture that completes without the detector
    having reported completion by the time the manifest is generated,
    the issues of the manifest contain the loading-timeout message and
    the loading duration is the configured maximum duration (10000 ms
    when the configuration gives none). *)
Theorem undetected_loading_is_reported (c : CaptureConfig) w r (m : CaptureResult) :
  captureSequence w (start c) = (r, Returned m) ->
  Forall (fun e => reports_completion e = false) (schedule w) ->
  In "Loading did not complete within timeout" (issues (analysis m)) /\
  loadingDuration (analysis m) = default 10000%Z (duration c).
Proof.
  intros Hrun Hquiet.
  destruct (captureSequence_returned c w r m Hrun) as (dir & _ & -> & _).
  destruct (run_without_completion (schedule w) (navigating c w dir) Hquiet) as [Hc Ht].
  unfold Capturer.generateManifest. cbn [analysis issues loadingDuration].
  split.
  - apply in_or_app. left. unfold detectIssues. rewrite Hc.
    cbn [navigating self log_call set_captureDir new loadingComplete negb].
    apply in_or_app. right. apply in_or_app. left. now left.
  - rewrite Ht, run_config.
    cbn [navigating self log_call set_captureDir new loadingCompleteTime config].
    reflexivity.
Qed.

(** The issue that counts the samples with errors is not the timeout
    issue. *)
Lemma errors_issue_is_not_timeout (n : nat) :
  JS.string_of_nat n +:+ " screenshots contain errors" <>
  "Loading did not complete within timeout".
Proof.
  unfold JS.string_of_nat.
  destruct (Nat.to_uint n); cbv [NilEmpty.string_of_uint String.append]; discriminate.
Qed.

(** Once completion is recorded, the capturer does not report the
    timeout. *)
Lemma no_timeout_issue_when_complete st :
  loadingComplete st = true ->
  ~ In "Loading did not complete within timeout" (detectIssues st).
Proof.
  intros Hc Hin. unfold detectIssues in Hin. rewrite Hc in Hin. cbn [negb] in Hin.
  apply in_app_or in Hin as [Hin|Hin].
  - destruct (last (screenshots st)) as [s|]; [|exact Hin].
    destruct (truthy (blankScreen (annotations s))); [|exact Hin].
    destruct Hin as [Hin|[]]. discriminate Hin.
  - cbn [app] in Hin.
    destruct (decide (0 < length (filter (fun s => truthy (hasErrors (annotations s)) = true)
                                         (screenshots st)))); [|exact Hin].
    destruct Hin as [Hin|[]]. exact (errors_issue_is_not_timeout _ Hin).
Qed.

(** C10 (amended).  [loadingCompleteTime || duration]: when the detector
    reports completion at elapsed time 0 the capturer records completion
    and the time 0, and whatever else happens before the manifest is
    generated, the manifest gives the configured maximum duration as
    loading duration, as it does for every capturer whose completion time
    is 0, completed or not; the timeout issue, however, is not among the
    issues the capturer detects -- it is detected exactly when no
    completion is recorded --, so that the issues still tell a
    completion at 0 from no completion.  The loading duration of a
    manifest is 0 exactly when the completion time is 0 and the
    configured maximum duration is 0. *)
Theorem zero_completion_time_reads_as_duration r (now : Z) es (isoNow : string) :
  now = startTime (self r) ->
  Forall (fun e => reports_completion e = false) es ->
  let detected := exec r (detect_resume true now) in
  (loadingComplete (self detected) = true /\ loadingCompleteTime (self detected) = 0%Z) /\
  loadingDuration (analysis (generateManifest (self (run es detected)) isoNow))
    = config_duration (config (self r)) /\
  ~ In "Loading did not complete within timeout" (detectIssues (self (run es detected))) /\
  (forall st', In "Loading did not complete within timeout" (detectIssues st') <->
               loadingComplete st' = false) /\
  (forall st' iso', loadingCompleteTime st' = 0%Z ->
     loadingDuration (analysis (generateManifest st' iso')) = config_duration (config st')) /\
  (forall st' iso',
     loadingDuration (analysis (generateManifest st' iso')) = 0%Z <->
     loadingCompleteTime st' = 0%Z /\ config_duration (config st') = 0%Z).
Proof.
  intros -> Hes. cbv zeta.
  assert (Hzero : forall st' iso', loadingCompleteTime st' = 0%Z ->
            loadingDuration (analysis (generateManifest st' iso')) = config_duration (config st')).
  { intros st' iso' Ht. unfold Capturer.generateManifest.
    cbn [analysis loadingDuration]. now rewrite Ht. }
  assert (Hdetected : loadingComplete (self (exec r (detect_resume true (startTime (self r))))) = true /\
                      loadingCompleteTime (self (exec r (detect_resume true (startTime (self r))))) = 0%Z).
  { unfold Capturer.exec, update, detectLoading_resume.
    cbn [self loadingComplete loadingCompleteTime]. split; [reflexivity|lia]. }
  destruct (run_without_completion es (exec r (detect_resume true (startTime (self r)))) Hes)
    as [Hc Ht].
  split; [exact Hdetected|]. split; [|split; [|split; [|split; [exact Hzero|]]]].
  - rewrite Hzero.
    + now rewrite run_config, exec_config.
    + rewrite Ht. apply Hdetected.
  - apply no_timeout_issue_when_complete. rewrite Hc. apply Hdetected.
  - intros st'. split.
    + intros Hin. destruct (loadingComplete st') eqn:E; [|reflexivity].
      destruct (no_timeout_issue_when_complete st' E Hin).
    + intros E. unfold detectIssues. rewrite E. cbn [negb].
      apply in_or_app. right. apply in_or_app. left. now left.
  - intros st' iso'. unfold Capturer.generateManifest, JS.or_int.
    cbn [analysis loadingDuration].
    destruct (Z.eqb_spec (loadingCompleteTime st') 0) as [Hz|Hnz]; split.
    + intros H. split; assumption.
    + intros [_ H]. exact H.
    + intros H. contradiction.
    + intros [H _]. contradiction.
Qed.

(** *** Appending a sample *)

Lemma set_has_add (i : nat) (keys : list nat) : JS.set_has i (JS.set_add i keys) = true.
Proof.
  unfold JS.set_add. destruct (JS.set_has i keys) eqn:E; [exact E|].
  unfold JS.set_has. rewrite existsb_app. simpl.
  rewrite Nat.eqb_refl. now rewrite orb_true_r.
Qed.

(** Resuming a suspended [takeScreenshot] appends its sample. *)
Lemma exec_take_resume r (id : nat) (t : TakeTask) (a : Analyzer.VisualAnalysis) :
  suspended r !! id = Some (Some (Take t)) ->
  exists s,
    screenshots (self (exec r (take_resume id a))) = screenshots (self r) ++ [s] /\
    phase s = take_phase t /\ filename s = take_filename t /\
    timestamp s = take_timestamp t /\
    (previousAnalysis (self r) = None -> isKeyFrame (annotations s) = Some true).
Proof.
  intros Hid. unfold Capturer.exec. rewrite Hid.
  unfold finish, takeScreenshot_resume. cbn [self screenshots].
  eexists. split; [reflexivity|]. cbn [phase filename timestamp annotations isKeyFrame].
  repeat split. intros ->. now rewrite set_has_add.
Qed.

(** *** The key-frame list *)

Lemma set_has_In (i : nat) (keys : list nat) : JS.set_has i keys = true <-> In i keys.
Proof.
  unfold JS.set_has. rewrite existsb_exists. split.
  - intros (j & Hj & E). apply Nat.eqb_eq in E. now subst.
  - intros Hi. exists i. split; [exact Hi|apply Nat.eqb_refl].
Qed.

(** The key-frame list is in ascending order and contains the file name
    of the last sample, whatever the state of the capturer. *)
Lemma keyFrames_sorted_with_last st :
  Sorted (fun x y => String.leb x y = true) (identifyKeyFrames st) /\
  (forall s, last (screenshots st) = Some s -> In (filename s) (identifyKeyFrames st)).
Proof.
  split.
  - unfold identifyKeyFrames, JS.sort. apply JS.StringSort.Sorted_sort.
  - intros s Hlast. unfold identifyKeyFrames, JS.sort.
    eapply Permutation_in; [apply JS.StringSort.Permuted_sort|].
    rewrite last_lookup in Hlast.
    assert (Hlen : 0 < length (screenshots st)) by (apply lookup_lt_Some in Hlast; lia).
    replace (Z.to_nat (Z.of_nat (length (screenshots st)) - 1))
      with (Init.Nat.pred (length (screenshots st))) by lia.
    destruct (Z.leb_spec 0 (Z.of_nat (length (screenshots st)) - 1)) as [_|Hneg]; [|lia].
    destruct (JS.set_has (Init.Nat.pred (length (screenshots st))) (keyFrameIndices st)) eqn:Hhas;
      cbn [negb andb].
    + apply in_or_app. left. apply set_has_In in Hhas.
      apply list_elem_of_In, list_elem_of_omap.
      exists (Init.Nat.pred (length (screenshots st))).
      split; [now apply list_elem_of_In|]. now rewrite Hlast.
    + apply in_or_app. right. rewrite Hlast. now left.
Qed.

(** The index set holds each index once, in every state a run reaches. *)
Lemma set_add_NoDup (i : nat) (keys : list nat) : NoDup keys -> NoDup (JS.set_add i keys).
Proof.
  intros Hkeys. unfold JS.set_add. destruct (JS.set_has i keys) eqn:Hhas; [exact Hkeys|].
  apply NoDup_app. split; [exact Hkeys|]. split; [|apply NoDup_singleton].
  intros j Hj Hi. apply list_elem_of_singleton in Hi. subst j.
  apply list_elem_of_In, set_has_In in Hj. congruence.
Qed.

Lemma exec_keyFrameIndices_NoDup r e :
  NoDup (keyFrameIndices (self r)) -> NoDup (keyFrameIndices (self (exec r e))).
Proof. intros Hkeys. segments e; try exact Hkeys; now apply set_add_NoDup. Qed.

Lemma run_keyFrameIndices_NoDup es r :
  NoDup (keyFrameIndices (self r)) -> NoDup (keyFrameIndices (self (run es r))).
Proof.
  revert r. induction es as [|e es IH]; intros r Hkeys; [exact Hkeys|].
  rewrite run_cons. apply IH. now apply exec_keyFrameIndices_NoDup.
Qed.

(** Where the file names of the samples are pairwise distinct, so are
    the entries of the key-frame list: the set holds each index once and
    the last sample is added only when its index is not in the set. *)
Lemma keyFrames_distinct_of_distinct_filenames st :
  NoDup (keyFrameIndices st) ->
  NoDup (filename <$> screenshots st) ->
  NoDup (identifyKeyFrames st).
Proof.
  intros Hkeys Hnames. unfold identifyKeyFrames, JS.sort.
  rewrite <- (JS.StringSort.Permuted_sort _).
  assert (Hpos : forall i j s s', screenshots st !! i = Some s ->
                   screenshots st !! j = Some s' -> filename s = filename s' -> i = j).
  { intros i j s s' Hi Hj E. apply (NoDup_lookup _ i j (filename s) Hnames).
    - now rewrite list_lookup_fmap, Hi.
    - now rewrite list_lookup_fmap, Hj, E. }
  apply NoDup_app. split; [|split].
  - induction Hkeys as [|i keys Hi _ IH]; [constructor|].
    cbn [omap list_omap].
    destruct (screenshots st !! i) as [s|] eqn:Hs; cbn [fmap option_fmap option_map]; [|exact IH].
    constructor; [|exact IH].
    intros Hin. apply list_elem_of_omap in Hin as (j & Hj & E).
    destruct (screenshots st !! j) as [s'|] eqn:Hs'; [|discriminate].
    injection E as E. now rewrite (Hpos i j s s' Hs Hs' (eq_sym E)) in Hi.
  - intros name Hin Hlast. apply list_elem_of_omap in Hin as (j & Hj & E).
    destruct (screenshots st !! j) as [s'|] eqn:Hs'; [|discriminate].
    injection E as E.
    destruct (0 <=? Z.of_nat (length (screenshots st)) - 1)%Z; cbn [andb] in Hlast;
      [|now apply not_elem_of_nil in Hlast].
    destruct (JS.set_has _ (keyFrameIndices st)) eqn:Hhas; cbn [negb] in Hlast;
      [now apply not_elem_of_nil in Hlast|].
    destruct (screenshots st !! Z.to_nat _) as [s|] eqn:Hs;
      [|now apply not_elem_of_nil in Hlast].
    apply list_elem_of_singleton in Hlast. rewrite Hlast in E.
    assert (Hin : JS.set_has (Z.to_nat (Z.of_nat (length (screenshots st)) - 1))
                    (keyFrameIndices st) = true).
    { apply set_has_In, list_elem_of_In.
      now rewrite <- (Hpos j _ s' s Hs' Hs E). }
    congruence.
  - destruct (_ && _); [|constructor].
    destruct (screenshots st !! _); [apply NoDup_singleton|constructor].
Qed.

(** *** The indices read by suspended calls *)

(** The index a suspended call has read from [this.screenshots.length]. *)
Definition task_index (t : Task) : nat :=
  match t with
  | Take t => take_index t
  | Error e => error_index e
  end.

(** Every recorded key-frame index is the position of a sample, and no
    suspended call has read an index beyond the end of the samples. *)
Definition indices_in_range r : Prop :=
  Forall (fun i => i < length (screenshots (self r))) (keyFrameIndices (self r)) /\
  (forall id t, suspended r !! id = Some (Some t) ->
                task_index t <= length (screenshots (self r))).

Lemma Forall_set_add (P : nat -> Prop) (i : nat) (keys : list nat) :
  Forall P keys -> P i -> Forall P (JS.set_add i keys).
Proof.
  intros Hkeys Hi. unfold JS.set_add. destruct (JS.set_has i keys); [exact Hkeys|].
  apply Forall_app. split; [exact Hkeys|]. now constructor.
Qed.

Lemma suspended_after_finish (l : list (option Task)) (id id' : nat) (t : Task) :
  <[id:=None]> l !! id' = Some (Some t) -> l !! id' = Some (Some t) /\ id <> id'.
Proof.
  intros H. destruct (decide (id = id')) as [->|Hne].
  - destruct (decide (id' < length l)) as [Hlt|Hge].
    + rewrite list_lookup_insert_eq in H by exact Hlt. discriminate.
    + rewrite list_insert_ge in H by lia. apply lookup_lt_Some in H. lia.
  - rewrite list_lookup_insert_ne in H by exact Hne. now split.
Qed.

Lemma suspended_after_suspend (l : list (option Task)) (id : nat) (t new : Task) :
  (l ++ [Some new]) !! id = Some (Some t) ->
  l !! id = Some (Some t) \/ (id = length l /\ t = new).
Proof.
  intros H. apply lookup_app_Some in H as [H|[Hge H]]; [now left|right].
  destruct (id - length l) as [|k] eqn:E; [|destruct k; discriminate].
  injection H as <-. split; [lia|reflexivity].
Qed.

Lemma exec_indices_in_range r e : indices_in_range r -> indices_in_range (exec r e).
Proof.
  intros [Hkeys Htasks]. destruct e; unfold Capturer.exec.
  - split; [exact Hkeys|exact Htasks].
  - split; [exact Hkeys|]. intros id t H. cbn in H.
    apply suspended_after_suspend in H as [H|[_ ->]]; [now apply (Htasks id)|].
    cbn. lia.
  - destruct (loadingComplete (self r)); [now split|].
    split; [exact Hkeys|]. intros id t H. cbn in H.
    apply suspended_after_suspend in H as [H|[_ ->]]; [now apply (Htasks id)|].
    cbn. lia.
  - split; [exact Hkeys|]. intros id t H. cbn in H.
    apply suspended_after_suspend in H as [H|[_ ->]]; [now apply (Htasks id)|].
    cbn. lia.
  - destruct (suspended r !! id) as [[[t|t]|]|] eqn:Hid; try (now split).
    pose proof (Htasks id (Take t) Hid) as Hle. cbn [task_index] in Hle.
    assert (Hwider : Forall (fun i => i < length (screenshots (self r)) + 1)
                       (keyFrameIndices (self r))).
    { eapply Forall_impl; [exact Hkeys|]. intros i Hi. cbn beta in Hi |- *. lia. }
    split.
    + unfold finish, takeScreenshot_resume. cbn [self screenshots keyFrameIndices].
      rewrite length_app. cbn [length].
      destruct (previousAnalysis (self r)) as [previous|];
        [destruct (Analyzer.hasSignificantChange _)|];
        try (apply Forall_set_add; [|lia]); exact Hwider.
    + intros id' t' H. unfold finish in H. cbn [suspended] in H.
      apply suspended_after_finish in H as [H _]. apply Htasks in H.
      unfold finish, takeScreenshot_resume. cbn [self screenshots].
      rewrite length_app. lia.
  - unfold update, takeScreenshot_metrics. destruct reading; now split.
  - split; [exact Hkeys|]. intros id t H. cbn in H.
    apply suspended_after_suspend in H as [H|[_ ->]]; [now apply (Htasks id)|].
    cbn. lia.
  - destruct (suspended r !! id) as [[[t|t]|]|] eqn:Hid; try (now split).
    pose proof (Htasks id (Error t) Hid) as Hle. cbn [task_index] in Hle.
    unfold finish, captureErrorScreenshot_resume. destruct ok.
    + split.
      * cbn [self screenshots keyFrameIndices]. rewrite length_app. cbn [length].
        apply Forall_set_add; [|lia].
        eapply Forall_impl; [exact Hkeys|]. intros i Hi. cbn beta in Hi |- *. lia.
      * intros id' t' H. cbn [suspended] in H.
        apply suspended_after_finish in H as [H _]. apply Htasks in H.
        cbn [self screenshots]. rewrite length_app. lia.
    + split; [exact Hkeys|]. intros id' t' H. cbn [suspended] in H.
      apply suspended_after_finish in H as [H _]. now apply Htasks in H.
  - unfold update, detectLoading_resume. destruct isComplete; now split.
Qed.

Lemma run_indices_in_range es r : indices_in_range r -> indices_in_range (run es r).
Proof.
  revert r. induction es as [|e es IH]; intros r Hr; [exact Hr|].
  rewrite run_cons. apply IH. now apply exec_indices_in_range.
Qed.

Lemma length_omap_defined {A B : Type} (f : A -> option B) (l : list A) :
  Forall (fun x => is_Some (f x)) l -> length (omap f l) = length l.
Proof.
  induction 1 as [|x l [y Hy] _ IH]; [reflexivity|].
  cbn [omap list_omap]. rewrite Hy. cbn [length]. now rewrite IH.
Qed.

(** X1.  Whatever happens during a capture, every index recorded in
    [keyFrameIndices] is the position of a sample in [screenshots]: the
    guard [if (this.screenshots[index])] of [identifyKeyFrames] never
    skips an index, and the key-frame list has at least as many entries
    as there are recorded indices. *)
Theorem keyFrame_indices_name_samples (c : CaptureConfig) w (dir : string) es :
  let st := self (run es (navigating c w dir)) in
  Forall (fun i => is_Some (screenshots st !! i)) (keyFrameIndices st) /\
  length (keyFrameIndices st) <= length (identifyKeyFrames st).
Proof.
  cbv zeta.
  assert (Hstart : indices_in_range (navigating c w dir)).
  { split; [constructor|]. intros id t H. discriminate H. }
  destruct (run_indices_in_range es _ Hstart) as [Hkeys _].
  set (st := self (run es (navigating c w dir))) in *.
  assert (Hsome : Forall (fun i => is_Some (screenshots st !! i)) (keyFrameIndices st)).
  { eapply Forall_impl; [exact Hkeys|]. intros i Hi. now apply lookup_lt_is_Some. }
  split; [exact Hsome|].
  unfold identifyKeyFrames, JS.sort.
  rewrite <- (Permutation_length (JS.StringSort.Permuted_sort _)), length_app.
  rewrite (length_omap_defined (fun index => filename <$> screenshots st !! index)).
  - lia.
  - eapply Forall_impl; [exact Hsome|]. intros i [s Hs]. cbn beta. rewrite Hs. now eexists.
Qed.

(** *** File names and positions *)

(** The number a string of decimal digits denotes; [None] when a code
    unit is not a digit. *)
Definition decimal_value (s : string) : option nat :=
  Nat.of_uint <$> NilEmpty.uint_of_string s.

Lemma decimal_value_string_of_nat (n : nat) : decimal_value (JS.string_of_nat n) = Some n.
Proof.
  unfold decimal_value, JS.string_of_nat. rewrite NilEmpty.usu. cbn.
  now rewrite Unsigned.of_to.
Qed.

Lemma decimal_value_zero (s : string) : decimal_value (String "0" s) = decimal_value s.
Proof.
  unfold decimal_value. cbn [NilEmpty.uint_of_string].
  destruct (NilEmpty.uint_of_string s) as [d|]; reflexivity.
Qed.

Lemma append_nil_l (s : string) : "" +:+ s = s.
Proof. reflexivity. Qed.

Lemma append_cons (c : ascii) (a b : string) : String c a +:+ b = String c (a +:+ b).
Proof. reflexivity. Qed.

Lemma decimal_value_padStart (n : nat) (s : string) :
  decimal_value (JS.padStart n "0" s) = decimal_value s.
Proof.
  unfold JS.padStart. induction (n - String.length s) as [|k IH]; [reflexivity|].
  cbn [JS.replicate_char]. rewrite append_cons. now rewrite decimal_value_zero.
Qed.

Lemma decimal_value_tail (c : ascii) (s : string) :
  is_Some (decimal_value (String c s)) -> is_Some (decimal_value s) /\ c <> "-"%char.
Proof.
  unfold decimal_value. cbn [NilEmpty.uint_of_string].
  destruct (NilEmpty.uint_of_string s) as [d|]; cbn.
  - intros H. split; [now eexists|]. intros ->. cbn in H. now destruct H.
  - intros [x H]. discriminate.
Qed.

(** Two digit strings followed by a dash: the digits are determined. *)
Lemma digits_before_dash (a b r r' : string) :
  is_Some (decimal_value a) -> is_Some (decimal_value b) ->
  a +:+ "-" +:+ r = b +:+ "-" +:+ r' -> a = b.
Proof.
  revert b. induction a as [|c a IH]; intros [|c' b] Ha Hb E.
  - reflexivity.
  - apply decimal_value_tail in Hb as [_ Hc].
    rewrite append_nil_l, !append_cons in E. congruence.
  - apply decimal_value_tail in Ha as [_ Hc].
    rewrite append_nil_l, !append_cons in E. congruence.
  - apply decimal_value_tail in Ha as [Ha _]. apply decimal_value_tail in Hb as [Hb _].
    rewrite !append_cons in E. injection E as -> E. f_equal. now apply IH.
Qed.

Lemma padded_index_inj (i j : nat) (r r' : string) :
  JS.padStart 3 "0" (JS.string_of_nat i) +:+ "-" +:+ r =
  JS.padStart 3 "0" (JS.string_of_nat j) +:+ "-" +:+ r' -> i = j.
Proof.
  intros E.
  assert (Hi : decimal_value (JS.padStart 3 "0" (JS.string_of_nat i)) = Some i)
    by now rewrite decimal_value_padStart, decimal_value_string_of_nat.
  assert (Hj : decimal_value (JS.padStart 3 "0" (JS.string_of_nat j)) = Some j)
    by now rewrite decimal_value_padStart, decimal_value_string_of_nat.
  apply digits_before_dash in E; [|rewrite Hi; now eexists|rewrite Hj; now eexists].
  rewrite E in Hi. congruence.
Qed.

(** *** Sessions in which samples do not overlap *)

(** No call is suspended at an [await]. *)
Definition idle r : bool :=
  forallb (fun t => match t with None => true | Some _ => false end) (suspended r).

(** The events that start a sample. *)
Definition begins_sample e : bool :=
  match e with
  | initial_begin | interval_tick _ | final_begin _ | error_begin _ _ _ => true
  | _ => false
  end.

(** A sequence of events in which a sample is started only when every
    sample started before has been appended or given up. *)
Fixpoint sequential r es : bool :=
  match es with
  | [] => true
  | e :: es' => (negb (begins_sample e) || idle r) && sequential (exec r e) es'
  end.

(** The file name a suspended call has built. *)
Definition task_filename (t : Task) : string :=
  match t with
  | Take t => take_filename t
  | Error e => error_filename e
  end.

Definition indexed (p : nat) (name : string) : Prop :=
  exists rest, name = JS.padStart 3 "0" (JS.string_of_nat p) +:+ "-" +:+ rest.

(** Every sample is named after its position, and the only suspended
    call, if any, has read the current number of samples. *)
Definition named_by_position r : Prop :=
  (forall p s, screenshots (self r) !! p = Some s -> indexed p (filename s)) /\
  (forall id t, suspended r !! id = Some (Some t) ->
     task_index t = length (screenshots (self r)) /\ indexed (task_index t) (task_filename t)) /\
  (forall id id' t t', suspended r !! id = Some (Some t) ->
     suspended r !! id' = Some (Some t') -> id = id').

Lemma idle_no_task r id t : idle r = true -> suspended r !! id = Some (Some t) -> False.
Proof.
  unfold idle. rewrite forallb_forall. intros Hidle Hid.
  apply list_elem_of_lookup_2, list_elem_of_In, Hidle in Hid. discriminate.
Qed.

Lemma named_after_begin r st (t : Task) :
  idle r = true ->
  screenshots st = screenshots (self r) ->
  task_index t = length (screenshots (self r)) ->
  indexed (task_index t) (task_filename t) ->
  named_by_position r -> named_by_position (suspend r st t).
Proof.
  intros Hidle Hshots Hindex Hname (Hnames & _ & _). unfold suspend.
  split; [|split]; cbn [self suspended].
  - now rewrite Hshots.
  - intros id t' H. apply suspended_after_suspend in H as [H|[_ ->]].
    + destruct (idle_no_task r id t' Hidle H).
    + now rewrite Hshots.
  - intros id id' t1 t2 H1 H2.
    apply suspended_after_suspend in H1 as [H1|[-> _]];
      [destruct (idle_no_task r id t1 Hidle H1)|].
    apply suspended_after_suspend in H2 as [H2|[-> _]];
      [destruct (idle_no_task r id' t2 Hidle H2)|].
    reflexivity.
Qed.

Lemma named_after_finish r (id : nat) (t : Task) st (added : list Screenshot) :
  suspended r !! id = Some (Some t) ->
  screenshots st = screenshots (self r) ++ added ->
  (forall s, In s added -> added = [s] /\ filename s = task_filename t) ->
  named_by_position r -> named_by_position (finish r id st).
Proof.
  intros Hid Hshots Hadded (Hnames & Htasks & Hone). unfold finish.
  assert (Hnone : forall id' t', <[id:=None]> (suspended r) !! id' = Some (Some t') -> False).
  { intros id' t' H. apply suspended_after_finish in H as [H Hne].
    apply Hne. exact (Hone id id' t t' Hid H). }
  split; [|split]; cbn [self suspended].
  - intros p s Hp. rewrite Hshots in Hp.
    apply lookup_app_Some in Hp as [Hp|[Hge Hp]]; [now apply Hnames|].
    destruct (Hadded s) as [-> Hs]; [apply list_elem_of_In; eapply list_elem_of_lookup_2; exact Hp|].
    destruct (Htasks id t Hid) as [Hindex Hname].
    destruct (p - length (screenshots (self r))) as [|k] eqn:E; [|destruct k; discriminate].
    replace p with (task_index t) by lia. now rewrite Hs.
  - intros id' t' H. destruct (Hnone id' t' H).
  - intros id1 id2 t1 t2 H1 _. destruct (Hnone id1 t1 H1).
Qed.

Lemma exec_named_by_position r e :
  (begins_sample e = true -> idle r = true) ->
  named_by_position r -> named_by_position (exec r e).
Proof.
  intros Hidle Hr. destruct e; unfold Capturer.exec; cbn [begins_sample] in Hidle.
  - exact Hr.
  - apply named_after_begin; auto. now eexists.
  - destruct (loadingComplete (self r)); [exact Hr|].
    apply named_after_begin; auto. now eexists.
  - apply named_after_begin; auto. now eexists.
  - destruct (suspended r !! id) as [[[t|t]|]|] eqn:Hid; try exact Hr.
    eapply (named_after_finish r id (Take t)); [exact Hid|reflexivity| |exact Hr].
    intros s [<-|[]]. split; reflexivity.
  - unfold update, takeScreenshot_metrics. destruct reading; exact Hr.
  - apply named_after_begin; auto. now eexists.
  - destruct (suspended r !! id) as [[[t|t]|]|] eqn:Hid; try exact Hr.
    unfold captureErrorScreenshot_resume. destruct ok.
    + eapply (named_after_finish r id (Error t)); [exact Hid|reflexivity| |exact Hr].
      intros s [<-|[]]. split; reflexivity.
    + eapply (named_after_finish r id (Error t) _ []); [exact Hid| |intros s []|exact Hr].
      now rewrite app_nil_r.
  - unfold update, detectLoading_resume. destruct isComplete; exact Hr.
Qed.

Lemma run_named_by_position es r :
  sequential r es = true -> named_by_position r -> named_by_position (run es r).
Proof.
  revert r. induction es as [|e es IH]; intros r Hseq Hr; [exact Hr|].
  cbn [sequential] in Hseq. apply andb_true_iff in Hseq as [Hbegin Hseq].
  rewrite run_cons. apply IH; [exact Hseq|]. apply exec_named_by_position; [|exact Hr].
  intros He. rewrite He in Hbegin. exact Hbegin.
Qed.

(** X2.  In a capture whose samples do not overlap -- each one is
    appended before the next one starts --, no two samples share a file
    name, and the key-frame list of the manifest has no duplicates. *)
Theorem sequential_session_keyFrames_distinct (c : CaptureConfig) w (dir : string) es :
  sequential (navigating c w dir) es = true ->
  let st := self (run es (navigating c w dir)) in
  NoDup (filename <$> screenshots st) /\ NoDup (identifyKeyFrames st).
Proof.
  intros Hseq. cbv zeta.
  assert (Hstart : named_by_position (navigating c w dir)).
  { split; [|split]; intros; discriminate. }
  destruct (run_named_by_position es _ Hseq Hstart) as (Hnames & _ & _).
  assert (Hdistinct : NoDup (filename <$> screenshots (self (run es (navigating c w dir))))).
  { apply NoDup_alt. intros i j name Hi Hj.
    rewrite list_lookup_fmap in Hi, Hj.
    destruct (screenshots _ !! i) as [s|] eqn:Hs; [|discriminate].
    destruct (screenshots _ !! j) as [s'|] eqn:Hs'; [|discriminate].
    injection Hi as Hi. injection Hj as Hj.
    destruct (Hnames i s Hs) as [rest E]. destruct (Hnames j s' Hs') as [rest' E'].
    apply (padded_index_inj i j rest rest'). congruence. }
  split; [exact Hdistinct|].
  apply keyFrames_distinct_of_distinct_filenames; [|exact Hdistinct].
  apply run_keyFrameIndices_NoDup. constructor.
Qed.

(** *** Completion, once recorded *)

Lemma exec_loadingComplete r e :
  loadingComplete (self r) = true -> loadingComplete (self (exec r e)) = true.
Proof. intros H. segments e; try reflexivity; assumption. Qed.

Lemma run_loadingComplete es r :
  loadingComplete (self r) = true -> loadingComplete (self (run es r)) = true.
Proof.
  revert r. induction es as [|e es IH]; intros r H; [exact H|].
  rewrite run_cons. apply IH. now apply exec_loadingComplete.
Qed.

(** X3.  Once [detectLoading] has recorded completion, it stays
    recorded whatever runs afterwards, and a later tick of the interval
    timer starts no sample: it leaves the capturer, its browser and the
    suspended calls as they are. *)
Theorem no_interval_sample_after_completion r es (now : Z) :
  loadingComplete (self r) = true ->
  loadingComplete (self (run es r)) = true /\
  exec (run es r) (interval_tick now) = run es r.
Proof.
  intros H. pose proof (run_loadingComplete es r H) as Hdone.
  split; [exact Hdone|]. unfold Capturer.exec. now rewrite Hdone.
Qed.

(** *** Failures before the navigation *)

(** X4.  When launching the browser or creating the capture directory
    fails, [captureSequence] rethrows that very error after closing the
    browser: the controller has received [launch] and [close] and
    nothing else -- no navigation, no screenshot --, and no sample has
    been recorded. *)
Theorem setup_failure_closes_without_navigating (c : CaptureConfig) w (error : string) :
  launch_fault w = Some error \/
  (launch_fault w = None /\ createCaptureDirectory_result w = Thrown error) ->
  (captureSequence w (start c)).2 = Thrown error /\
  browser (self (captureSequence w (start c)).1) = [Browser.launch; Browser.close] /\
  screenshots (self (captureSequence w (start c)).1) = [].
Proof.
  unfold Capturer.captureSequence, try_catch, Capturer.captureSequence_try, mbind,
    Action_bind, bind, browser_launch, await_result, browser_close, throw.
  cbn [self handles suspended start].
  intros [Hlaunch|[Hlaunch Hdir]]; rewrite Hlaunch; [|rewrite Hdir]; repeat split.
Qed.

(** *** Key frames and annotations *)

(** Every sample is annotated as a key frame exactly when its position
    is recorded. *)
Definition annotated r : Prop :=
  forall p s, screenshots (self r) !! p = Some s ->
    isKeyFrame (annotations s) = Some (JS.set_has p (keyFrameIndices (self r))).

Lemma set_has_add_ne (p i : nat) (keys : list nat) :
  p <> i -> JS.set_has p (JS.set_add i keys) = JS.set_has p keys.
Proof.
  intros Hne. unfold JS.set_add. destruct (JS.set_has i keys); [reflexivity|].
  unfold JS.set_has. rewrite existsb_app. cbn [existsb].
  apply Nat.eqb_neq in Hne. rewrite Hne. now rewrite !orb_false_r.
Qed.

Lemma annotated_after_append st st' (index : nat) (s : Screenshot) :
  (forall p s, screenshots st !! p = Some s ->
     isKeyFrame (annotations s) = Some (JS.set_has p (keyFrameIndices st))) ->
  index = length (screenshots st) ->
  screenshots st' = screenshots st ++ [s] ->
  (forall p, p <> index -> JS.set_has p (keyFrameIndices st') = JS.set_has p (keyFrameIndices st)) ->
  isKeyFrame (annotations s) = Some (JS.set_has index (keyFrameIndices st')) ->
  forall p s, screenshots st' !! p = Some s ->
    isKeyFrame (annotations s) = Some (JS.set_has p (keyFrameIndices st')).
Proof.
  intros Hold Hindex Hshots Hkeys Hnew p s' Hp. rewrite Hshots in Hp.
  apply lookup_app_Some in Hp as [Hp|[Hge Hp]].
  - rewrite Hkeys by (apply lookup_lt_Some in Hp; lia). now apply Hold.
  - destruct (p - length (screenshots st)) as [|k] eqn:E; [|destruct k; discriminate].
    injection Hp as <-. replace p with index by lia. exact Hnew.
Qed.

Lemma exec_annotated r e :
  (begins_sample e = true -> idle r = true) ->
  named_by_position r -> annotated r -> annotated (exec r e).
Proof.
  intros Hidle (_ & Htasks & _) Hr. destruct e; unfold Capturer.exec.
  - exact Hr.
  - exact Hr.
  - destruct (loadingComplete (self r)); exact Hr.
  - exact Hr.
  - destruct (suspended r !! id) as [[[t|t]|]|] eqn:Hid; try exact Hr.
    destruct (Htasks id (Take t) Hid) as [Hindex _]. cbn [task_index] in Hindex.
    unfold annotated, finish. cbn [self].
    eapply (annotated_after_append (self r) _ (take_index t)); [exact Hr|exact Hindex|reflexivity| |].
    + intros p Hp. unfold takeScreenshot_resume. cbn [keyFrameIndices].
      destruct (previousAnalysis (self r)) as [previous|];
        [destruct (Analyzer.hasSignificantChange _)|];
        try reflexivity; now apply set_has_add_ne.
    + reflexivity.
  - unfold update, takeScreenshot_metrics. destruct reading; exact Hr.
  - exact Hr.
  - destruct (suspended r !! id) as [[[t|t]|]|] eqn:Hid; try exact Hr.
    destruct (Htasks id (Error t) Hid) as [Hindex _]. cbn [task_index] in Hindex.
    unfold captureErrorScreenshot_resume. destruct ok; [|exact Hr].
    unfold annotated, finish. cbn [self].
    eapply (annotated_after_append (self r) _ (error_index t)); [exact Hr|exact Hindex|reflexivity| |].
    + intros p Hp. cbn [keyFrameIndices]. now apply set_has_add_ne.
    + cbn [annotations isKeyFrame keyFrameIndices]. now rewrite set_has_add.
  - unfold update, detectLoading_resume. destruct isComplete; exact Hr.
Qed.

Lemma run_annotated es r :
  sequential r es = true -> named_by_position r -> annotated r ->
  annotated (run es r).
Proof.
  revert r. induction es as [|e es IH]; intros r Hseq Hnamed Hr; [exact Hr|].
  cbn [sequential] in Hseq. apply andb_true_iff in Hseq as [Hbegin Hseq].
  assert (Hidle : begins_sample e = true -> idle r = true).
  { intros He. rewrite He in Hbegin. exact Hbegin. }
  rewrite run_cons. apply IH; [exact Hseq| |].
  - now apply exec_named_by_position.
  - now apply exec_annotated.
Qed.

(** X24.  In a capture whose samples do not overlap, the key-frame
    list of the manifest holds exactly the file names of the samples
    that are annotated as key frames, and the file name of the last
    sample. *)
Theorem keyFrames_are_the_annotated_samples (c : CaptureConfig) w (dir : string) es :
  sequential (navigating c w dir) es = true ->
  let st := self (run es (navigating c w dir)) in
  forall name,
    name ∈ identifyKeyFrames st <->
    exists p s, screenshots st !! p = Some s /\ filename s = name /\
                (isKeyFrame (annotations s) = Some true \/ S p = length (screenshots st)).
Proof.
  intros Hseq. cbv zeta.
  assert (Hstart : named_by_position (navigating c w dir)).
  { split; [|split]; intros; discriminate. }
  assert (Hann : annotated (run es (navigating c w dir))).
  { apply run_annotated; [exact Hseq|exact Hstart|]. intros p s H. discriminate H. }
  set (st := self (run es (navigating c w dir))) in *. unfold annotated in Hann. fold st in Hann.
  intros name. unfold identifyKeyFrames, JS.sort.
  rewrite <- (JS.StringSort.Permuted_sort _), elem_of_app, list_elem_of_omap.
  replace (Z.to_nat (Z.of_nat (length (screenshots st)) - 1))
    with (Init.Nat.pred (length (screenshots st))) by lia.
  split.
  - intros [(p & Hp & Hname)|Hlast].
    + destruct (screenshots st !! p) as [s|] eqn:Hs; [|discriminate].
      injection Hname as Hname. exists p, s. split; [exact Hs|]. split; [exact Hname|].
      left. rewrite (Hann p s Hs). f_equal. now apply set_has_In, list_elem_of_In.
    + destruct (Z.leb_spec 0 (Z.of_nat (length (screenshots st)) - 1)) as [Hpos|_];
        [|now apply not_elem_of_nil in Hlast].
      destruct (JS.set_has _ _); cbn [negb andb] in Hlast; [now apply not_elem_of_nil in Hlast|].
      destruct (screenshots st !! _) as [s|] eqn:Hs; [|now apply not_elem_of_nil in Hlast].
      apply list_elem_of_singleton in Hlast.
      exists (Init.Nat.pred (length (screenshots st))), s.
      split; [exact Hs|]. split; [now symmetry|]. right. lia.
  - intros (p & s & Hs & Hname & Hkey).
    assert (Hlt : p < length (screenshots st)) by (now apply lookup_lt_Some in Hs).
    destruct (JS.set_has p (keyFrameIndices st)) eqn:Hhas.
    + left. exists p. split; [now apply list_elem_of_In, set_has_In|].
      rewrite Hs. cbn. now rewrite Hname.
    + right. destruct Hkey as [Hkey|Hlast];
        [rewrite (Hann p s Hs), Hhas in Hkey; discriminate|].
      assert (Init.Nat.pred (length (screenshots st)) = p) as -> by lia.
      destruct (Z.leb_spec 0 (Z.of_nat (length (screenshots st)) - 1)) as [_|Hneg]; [|lia].
      rewrite Hhas. cbn [negb andb]. rewrite Hs. apply list_elem_of_singleton. now symmetry.
Qed.

(** *** The first sample *)

(** Does the event push a sample?  The continuation of a
    [takeScreenshot] does; the continuation of an error screenshot does
    when the screenshot succeeded. *)
Definition pushes e : bool :=
  match e with
  | take_resume _ _ => true
  | error_resume _ ok => ok
  | _ => false
  end.

(** An event that pushes no sample leaves the samples and the previous
    analysis as they are, and every suspended [takeScreenshot]
    suspended. *)
Lemma exec_not_pushing r e :
  pushes e = false ->
  screenshots (self (exec r e)) = screenshots (self r) /\
  previousAnalysis (self (exec r e)) = previousAnalysis (self r) /\
  (forall id t, suspended r !! id = Some (Some (Take t)) ->
     suspended (exec r e) !! id = Some (Some (Take t))).
Proof.
  intros He. destruct e; try discriminate He; unfold Capturer.exec.
  - repeat split; auto.
  - unfold begin_take, takeScreenshot_begin, suspend. cbn [self suspended screenshots previousAnalysis].
    repeat split; auto. intros id t H. now apply lookup_app_l_Some.
  - destruct (loadingComplete (self r)); [repeat split; auto|].
    unfold begin_take, takeScreenshot_begin, suspend. cbn [self suspended screenshots previousAnalysis].
    repeat split; auto. intros id t H. now apply lookup_app_l_Some.
  - unfold begin_take, takeScreenshot_begin, suspend. cbn [self suspended screenshots previousAnalysis].
    repeat split; auto. intros id t H. now apply lookup_app_l_Some.
  - unfold update, takeScreenshot_metrics. destruct reading; repeat split; auto.
  - unfold captureErrorScreenshot_begin, suspend.
    cbn [self suspended screenshots previousAnalysis].
    repeat split; auto. intros id t H. now apply lookup_app_l_Some.
  - cbn [pushes] in He. subst ok.
    destruct (suspended r !! id) as [[[t|t]|]|] eqn:Hid; try (repeat split; auto; fail).
    unfold finish, captureErrorScreenshot_resume. cbn [self suspended].
    repeat split; auto. intros id' t' H.
    rewrite list_lookup_insert_ne; [exact H|]. intros ->. congruence.
  - unfold update, detectLoading_resume. destruct isComplete; repeat split; auto.
Qed.

Lemma run_not_pushing es r :
  Forall (fun e => pushes e = false) es ->
  screenshots (self (run es r)) = screenshots (self r) /\
  previousAnalysis (self (run es r)) = previousAnalysis (self r) /\
  (forall id t, suspended r !! id = Some (Some (Take t)) ->
     suspended (run es r) !! id = Some (Some (Take t))).
Proof.
  revert r. induction es as [|e es IH]; intros r Hes; [repeat split; auto|].
  inversion Hes as [|? ? He Hes']; subst. rewrite run_cons.
  destruct (IH (exec r e) Hes') as (H1 & H2 & H3).
  destruct (exec_not_pushing r e He) as (H1' & H2' & H3').
  split; [congruence|]. split; [congruence|]. auto.
Qed.

(** X26.  In every capture that completes, when no sample has been
    pushed while the navigation was awaited and none is pushed before
    the initial sample -- no page error or crash whose screenshot
    succeeds comes first --, the first element of the screenshot
    sequence of the manifest is the initial sample: its phase is
    [initial], it is annotated as key frame, its time stamp is 0 and its
    file name [000-0ms.png].  The continuation of the initial sample is
    named by its position among the suspended calls: the number of calls
    suspended while the navigation was awaited. *)
Theorem first_sample_is_initial_key_frame
        (c : CaptureConfig) w r (m : CaptureResult) (dir : string)
        pre (a : Analyzer.VisualAnalysis) rest :
  captureSequence w (start c) = (r, Returned m) ->
  createCaptureDirectory_result w = Returned dir ->
  Forall (fun e => pushes e = false) (navigation_events w) ->
  initial_events w =
    pre ++ take_resume (length (suspended (run (navigation_events w) (navigating c w dir)))) a
        :: rest ->
  Forall (fun e => pushes e = false) pre ->
  exists s,
    head (result_screenshots m) = Some s /\
    phase s = initial /\ isKeyFrame (annotations s) = Some true /\
    filename s = "000-0ms.png" /\ timestamp s = 0%Z.
Proof.
  intros Hrun Hdir Hnav Hinitial Hpre.
  destruct (captureSequence_returned c w r m Hrun) as (dir' & Hdir' & -> & _).
  assert (dir' = dir) as -> by congruence.
  unfold Capturer.generateManifest. cbn [result_screenshots].
  unfold schedule. rewrite Hinitial.
  rewrite run_app.
  destruct (run_not_pushing (navigation_events w) (navigating c w dir) Hnav) as (Hs1 & Hp1 & _).
  set (r1 := run (navigation_events w) (navigating c w dir)) in *.
  cbn [navigating self log_call set_captureDir new screenshots previousAnalysis] in Hs1, Hp1.
  rewrite <- !app_assoc. cbn [app]. rewrite !run_cons.
  set (r3 := exec (exec r1 (navigated (navigated_at w))) initial_begin).
  assert (Hs3 : screenshots (self r3) = []) by exact Hs1.
  assert (Hp3 : previousAnalysis (self r3) = None) by exact Hp1.
  assert (Hid3 : suspended r3 !! length (suspended r1) =
                 Some (Some (Take (mkTake 0 (screenshot_filename 0 0) initial 0)))).
  { unfold r3, Capturer.exec, begin_take, takeScreenshot_begin, suspend, update, set_startTime.
    cbn [self suspended screenshots]. rewrite Hs1. cbn [length].
    apply list_lookup_middle. reflexivity. }
  rewrite run_app, run_cons.
  destruct (run_not_pushing pre r3 Hpre) as (Hs4 & Hp4 & Hid4).
  specialize (Hid4 _ _ Hid3). rewrite Hs3 in Hs4. rewrite Hp3 in Hp4.
  set (r4 := run pre r3) in *.
  destruct (exec_take_resume r4 _ _ a Hid4) as (s & Hs5 & Hphase & Hname & Htime & Hkey).
  rewrite Hs4 in Hs5. cbn [app] in Hs5.
  set (r5 := exec r4 (take_resume (length (suspended r1)) a)) in *.
  destruct (run_appends_only
              (rest ++ race_events w ++ final_begin (final_at w) :: final_events w) r5)
    as (added & Hs6).
  rewrite Hs6, Hs5. exists s. split; [reflexivity|].
  split; [exact Hphase|]. split; [now apply Hkey|].
  split; [rewrite Hname; reflexivity|exact Htime].
Qed.

End Capture.

(** ** Scenarios

    Concrete captures, with the analyzer of [Analyzer] and a metrics
    collector whose readings carry no information. *)

Section Scenarios.

Import Capturer.

Definition no_findings (reading : unit) : list string := [].

Definition no_count (reading : unit) : Z := 0%Z.

(** [captureSequence] with these collaborators. *)
Definition capture (c : CaptureConfig) (w : World (PerformanceMetrics := unit))
  : Run (PerformanceMetrics := unit) * Outcome (CaptureResult (PerformanceMetrics := unit)) :=
  captureSequence Analyzer.compareAnalyses no_findings no_count no_count w (start c).

Definition manifest_of (c : CaptureConfig) (w : World (PerformanceMetrics := unit))
  : option (CaptureResult (PerformanceMetrics := unit)) :=
  match (capture c w).2 with
  | Returned m => Some m
  | Thrown _ => None
  end.

(** A world without faults: the events of the four periods, the value
    of the clock when the navigation settles and when the final sample
    starts. *)
Definition faultless
           (during_navigation until_initial during_race until_final :
              list (Event (PerformanceMetrics := unit)))
           (navigated_at final_at : Z) : World (PerformanceMetrics := unit) :=
  mkWorld (Browser.mkHandles true true true) None (Returned "shots/capture") None
          during_navigation None navigated_at until_initial None during_race None
          final_at until_final None "2024-01-20T14:30:22.000Z" None
          (Browser.mkClosing false false false).

(** A page that shows a spinner, and the page once loaded. *)
Definition spinner_page : Analyzer.VisualAnalysis :=
  Analyzer.mkAnalysis false true "" 5 0 false [] [".spinner (1)"].

Definition loaded_page : Analyzer.VisualAnalysis :=
  Analyzer.mkAnalysis true false "Welcome" 50 3 false [] [].

Definition local_app (duration interval : Z) (fullPage : option bool) : CaptureConfig :=
  mkConfig "http://localhost:3000" (Some "app") (Some duration) (Some interval)
           None None None fullPage.

(** *** Interval and duration of 1000 ms

    The timer of the interval loop and the timer of the race are set in
    the same synchronous stretch with the same delay: the loop wakes
    first and starts a [loading] sample, the race then proceeds to the
    [final] sample in the same millisecond, before the [loading] sample
    is appended.  Both read the same [screenshots.length] and the same
    clock.  The page has rendered meanwhile; its network is still busy,
    so that the detector has not answered. *)
Definition same_tick : World (PerformanceMetrics := unit) :=
  faultless []
    [take_resume 0 spinner_page; metrics_collected None]
    [interval_tick 6100]
    [take_resume 1 loaded_page; metrics_collected None;
     take_resume 2 loaded_page; metrics_collected None]
    5000 6100.

(** C3.  The key-frame list can contain a file name twice.  In the
    capture [same_tick] the two samples started in the same millisecond
    carry the same file name; the key-frame list, sorted and containing
    the file name of the last sample, contains that name twice. *)
Theorem keyFrames_duplicate_on_same_tick :
  match manifest_of (local_app 1000 1000 None) same_tick with
  | Some m =>
      map filename (result_screenshots m) = ["000-0ms.png"; "001-1100ms.png"; "001-1100ms.png"] /\
      map phase (result_screenshots m) = [initial; loading; final] /\
      keyFrames (analysis m) = ["000-0ms.png"; "001-1100ms.png"; "001-1100ms.png"] /\
      ~ NoDup (keyFrames (analysis m))
  | None => False
  end.
Proof.
  vm_compute. repeat split.
  intros Hnodup. inversion Hnodup as [|? ? _ Hrest]; subst.
  inversion Hrest as [|? ? Hnotin _]; subst. apply Hnotin. now left.
Qed.

(** *** Errors thrown while the page loads and while the final sample is taken

    A script error during the navigation is captured before the initial
    sample; another one, thrown while the final sample is in flight, is
    appended after it. *)
Definition early_and_late_errors : World (PerformanceMetrics := unit) :=
  faultless
    [error_begin "js-error" "boom" 1700000000000; error_resume 0 true]
    [take_resume 1 loaded_page; metrics_collected None]
    []
    [error_begin "js-error" "late" 1700000003150; take_resume 2 loaded_page;
     error_resume 3 true; metrics_collected None]
    1700000000100 1700000003100.

(** C4.  The first element of the screenshot sequence need not be the
    initial sample, nor the last one the final sample.  In the capture
    [early_and_late_errors], which completes, the first and the last
    element are the error samples, of phase [loading]; the initial
    sample is the second element, named [001-0ms.png], and the error
    sample before it carries the value of the clock as time stamp, the
    clock of the session not being started yet. *)
Theorem error_samples_first_and_last :
  match manifest_of (local_app 3000 1000 None) early_and_late_errors with
  | Some m =>
      map phase (result_screenshots m) = [loading; initial; final; loading] /\
      map filename (result_screenshots m) =
        ["000-1700000000000ms-ERROR.png"; "001-0ms.png"; "002-3000ms.png";
         "002-3050ms-ERROR.png"] /\
      map timestamp (result_screenshots m) = [1700000000000; 0; 3000; 3050]%Z /\
      (phase <$> head (result_screenshots m)) <> Some initial /\
      (phase <$> last (result_screenshots m)) <> Some final
  | None => False
  end.
Proof. vm_compute. repeat split; discriminate. Qed.

(** *** A capture without incident *)

Definition uneventful : World (PerformanceMetrics := unit) :=
  faultless []
    [take_resume 0 spinner_page; metrics_collected None]
    [interval_tick 6100; take_resume 1 loaded_page; metrics_collected None;
     detect_resume true 7000]
    [take_resume 2 loaded_page; metrics_collected None]
    5000 8000.

(** The detector never answers during the capture [same_tick]. *)
Lemma undetected_loading_witness :
  match manifest_of (local_app 1000 1000 None) same_tick with
  | Some m =>
      In "Loading did not complete within timeout" (issues (analysis m)) /\
      loadingDuration (analysis m) = 1000%Z
  | None => False
  end.
Proof.
  unfold manifest_of.
  destruct (capture (local_app 1000 1000 None) same_tick) as [r [m|error]] eqn:Hcapture;
    cbn [snd].
  - apply (undetected_loading_is_reported Analyzer.compareAnalyses no_findings no_count no_count
             (local_app 1000 1000 None) same_tick r m Hcapture).
    repeat constructor.
  - vm_compute in Hcapture. discriminate Hcapture.
Defined.

(** The detector answers in the millisecond in which the clock started. *)
Lemma zero_completion_time_witness :
  loadingDuration
    (analysis (generateManifest no_findings no_count no_count
                 (self (run Analyzer.compareAnalyses
                          [detect_resume true 0; final_begin 0; take_resume 0 loaded_page;
                           metrics_collected None]
                          (start (local_app 3000 1000 None)))) ""))
  = 3000%Z.
Proof.
  pose proof (zero_completion_time_reads_as_duration Analyzer.compareAnalyses
                no_findings no_count no_count
                (start (local_app 3000 1000 None)) 0
                [final_begin 0; take_resume 0 loaded_page; metrics_collected None] ""
                eq_refl) as H.
  cbv zeta in H. destruct H as (_ & H & _); [repeat constructor|]. exact H.
Defined.

(** *** A maximum duration of 0, and a completion at 0

    With a maximum duration of 0 the race is over at once and the final
    sample follows the initial one; the detector has not answered.  In
    [completed_at_once] the detector answers in the millisecond in which
    the clock was started; in [never_completed] it does not answer. *)
Definition no_time : World (PerformanceMetrics := unit) :=
  faultless []
    [take_resume 0 loaded_page; metrics_collected None]
    []
    [take_resume 1 loaded_page; metrics_collected None]
    5000 5040.

Definition completed_at_once : World (PerformanceMetrics := unit) :=
  faultless []
    [take_resume 0 loaded_page; metrics_collected None]
    [detect_resume true 5000]
    [take_resume 1 loaded_page; metrics_collected None]
    5000 5000.

Definition never_completed : World (PerformanceMetrics := unit) :=
  faultless []
    [take_resume 0 loaded_page; metrics_collected None]
    []
    [take_resume 1 loaded_page; metrics_collected None]
    5000 8000.

(** C10, as stated, fails twice.  A capture configured with a maximum
    duration of 0 has loading duration 0.  And a completion at 0 is not
    indistinguishable from no completion: the loading durations of the
    two manifests agree, their issues do not. *)
Lemma zero_duration_reads_as_zero :
  match manifest_of (local_app 0 1000 None) no_time with
  | Some m => loadingDuration (analysis m) = 0%Z
  | None => False
  end /\
  match manifest_of (local_app 3000 1000 None) completed_at_once,
        manifest_of (local_app 3000 1000 None) never_completed with
  | Some m, Some m' =>
      loadingDuration (analysis m) = 3000%Z /\ loadingDuration (analysis m') = 3000%Z /\
      issues (analysis m) = [] /\
      issues (analysis m') = ["Loading did not complete within timeout"]
  | _, _ => False
  end.
Proof. vm_compute. repeat split. Qed.

(** *** The detector answers while the final sample is taken

    The deadline of 1000 ms passes without an answer of the detector and
    the final sample is started, 1100 ms after the navigation; the
    detector answers 150 ms later, before the final sample is appended
    and the manifest generated. *)
Definition late_answer : World (PerformanceMetrics := unit) :=
  faultless []
    [take_resume 0 spinner_page; metrics_collected None]
    [interval_tick 5600; take_resume 1 loaded_page; metrics_collected None]
    [detect_resume true 6250; take_resume 2 loaded_page; metrics_collected None]
    5000 6100.

(** C5, as stated, fails: no completion is reported before the deadline
    (the start of the final sample), yet the manifest has no timeout
    issue and its loading duration is the 1250 ms of the late answer,
    not the configured 1000 ms. *)
Lemma completion_reported_after_deadline :
  Forall (fun e => reports_completion e = false)
         (navigation_events late_answer ++ initial_events late_answer
          ++ race_events late_answer) /\
  match manifest_of (local_app 1000 500 None) late_answer with
  | Some m =>
      ~ In "Loading did not complete within timeout" (issues (analysis m)) /\
      loadingDuration (analysis m) = 1250%Z /\
      loadingDuration (analysis m) <> default 10000%Z (duration (local_app 1000 500 None))
  | None => False
  end.
Proof.
  split; [repeat constructor|].
  vm_compute. repeat split; [intros []|discriminate].
Qed.

(** *** A capture configured for full-page screenshots *)

Definition full_page_capture : World (PerformanceMetrics := unit) :=
  faultless []
    [take_resume 0 spinner_page; metrics_collected None]
    [interval_tick 6100; take_resume 1 loaded_page; metrics_collected None;
     error_begin "js-error" "boom" 6500; error_resume 2 true]
    [take_resume 3 loaded_page; metrics_collected None]
    5000 8000.

(** C8.  The full-page flag of the configuration does not reach the
    browser.  With the flag set, every screenshot the browser controller
    is asked for -- initial, interval, error and final sample -- is a
    viewport screenshot, the full-page argument being left to its
    default [false]. *)
Theorem fullPage_flag_is_not_passed :
  let r := (capture (local_app 3000 1000 (Some true)) full_page_capture).1 in
  fullPage (config (self r)) = Some true /\
  browser (self r) =
    [Browser.launch;
     Browser.navigate "http://localhost:3000";
     Browser.screenshot "shots/capture/000-0ms.png" false;
     Browser.screenshot "shots/capture/001-1100ms.png" false;
     Browser.screenshot "shots/capture/002-1500ms-ERROR.png" false;
     Browser.screenshot "shots/capture/003-3000ms.png" false;
     Browser.close].
Proof. vm_compute. split; reflexivity. Qed.

End Scenarios.

(** ** Paths *)

Section Paths.

Fixpoint has_slash (s : string) : bool :=
  match s with
  | EmptyString => false
  | String c rest => Ascii.eqb c "/" || has_slash rest
  end.

Lemma has_slash_app (a b : string) : has_slash (a +:+ b) = has_slash a || has_slash b.
Proof.
  induction a as [|c a IH]; [reflexivity|].
  rewrite append_cons. cbn [has_slash]. now rewrite IH, orb_assoc.
Qed.

Lemma basename_from_no_slash (acc p : string) :
  has_slash p = false -> Capturer.basename_from acc p = acc.
Proof.
  revert acc. induction p as [|c p IH]; intros acc H; [reflexivity|].
  cbn in H |- *. apply orb_false_iff in H as [Hc Hp]. rewrite Hc. now apply IH.
Qed.

Lemma append_nil_r (s : string) : s +:+ "" = s.
Proof. induction s as [|c s IH]; [reflexivity|]. now rewrite append_cons, IH. Qed.

Lemma append_assoc (a b c : string) : (a +:+ b) +:+ c = a +:+ (b +:+ c).
Proof. induction a as [|x a IH]; [reflexivity|]. now rewrite !append_cons, IH. Qed.

Lemma split_slash_cons (p : string) : exists segment segments, JS.split_slash p = segment :: segments.
Proof.
  induction p as [|c p (segment & segments & IH)]; [now eexists _, _|].
  cbn [JS.split_slash]. destruct (Ascii.eqb c "/"); [now eexists _, _|].
  rewrite IH. now eexists _, _.
Qed.

Lemma split_slash_no_slash (file : string) : has_slash file = false -> JS.split_slash file = [file].
Proof.
  induction file as [|c file IH]; [reflexivity|]. cbn [has_slash JS.split_slash].
  intros H. apply orb_false_iff in H as [Hc Hfile]. rewrite Hc, (IH Hfile). reflexivity.
Qed.

Lemma split_slash_app (p q : string) :
  JS.split_slash (p +:+ "/" +:+ q) = JS.split_slash p ++ JS.split_slash q.
Proof.
  induction p as [|c p IH].
  - rewrite append_nil_l, append_cons, append_nil_l. reflexivity.
  - rewrite append_cons. cbn [JS.split_slash]. rewrite IH.
    destruct (Ascii.eqb c "/"); [reflexivity|].
    destruct (split_slash_cons p) as (segment & segments & ->). reflexivity.
Qed.

(** A segment that names a file or a directory. *)
Definition plain (segment : string) : Prop :=
  has_slash segment = false /\ segment <> "" /\ segment <> "." /\ segment <> "..".

Lemma normalize_plain_segment (allowAboveRoot : bool) (res : list string) (segment : string) :
  plain segment -> JS.normalize_segment allowAboveRoot res segment = res ++ [segment].
Proof.
  intros (_ & H1 & H2 & H3). unfold JS.normalize_segment.
  apply String.eqb_neq in H1, H2, H3. now rewrite H1, H2, H3.
Qed.

Lemma concat_snoc (parts : list string) (file : string) :
  String.concat "/" (parts ++ [file]) =
  match parts with
  | [] => file
  | _ => String.concat "/" parts +:+ "/" +:+ file
  end.
Proof.
  induction parts as [|a parts IH]; [reflexivity|].
  destruct parts as [|b parts]; [reflexivity|].
  change (String.concat "/" ((a :: b :: parts) ++ [file]))
    with (a +:+ "/" +:+ String.concat "/" ((b :: parts) ++ [file])).
  rewrite IH.
  change (String.concat "/" (a :: b :: parts)) with (a +:+ "/" +:+ String.concat "/" (b :: parts)).
  now rewrite !append_assoc.
Qed.

Lemma ends_with_slash_app (p file : string) :
  file <> "" -> JS.ends_with_slash (p +:+ file) = JS.ends_with_slash file.
Proof.
  intros Hfile. induction p as [|c p IH]; [reflexivity|].
  rewrite append_cons. cbn [JS.ends_with_slash]. rewrite IH.
  destruct (p +:+ file) eqn:E; [|reflexivity].
  destruct p; [rewrite append_nil_l in E; contradiction|rewrite append_cons in E; discriminate].
Qed.

Lemma ends_with_slash_has_slash (file : string) :
  has_slash file = false -> JS.ends_with_slash file = false.
Proof.
  induction file as [|c file IH]; [reflexivity|]. cbn [has_slash JS.ends_with_slash].
  intros H. apply orb_false_iff in H as [Hc Hfile]. destruct file; [exact Hc|now apply IH].
Qed.

Lemma append_not_empty (p file : string) : file <> "" -> p +:+ file <> "".
Proof. destruct p; [now rewrite append_nil_l|rewrite append_cons; discriminate]. Qed.

Lemma basename_from_slash (acc dir file : string) :
  has_slash file = false -> Capturer.basename_from acc (dir +:+ "/" +:+ file) = file.
Proof.
  intros Hfile. revert acc. induction dir as [|c dir IH]; intros acc.
  - rewrite append_nil_l, append_cons, append_nil_l. cbn [Capturer.basename_from Ascii.eqb].
    change (Ascii.eqb "/" "/") with true. cbn iota. now apply basename_from_no_slash.
  - rewrite append_cons. cbn [Capturer.basename_from]. destruct (Ascii.eqb c "/"); apply IH.
Qed.


Lemma fold_normalize_plain (allowAboveRoot : bool) (segments : list string) (file : string) :
  plain file ->
  fold_left (JS.normalize_segment allowAboveRoot) (segments ++ [file]) [] =
  fold_left (JS.normalize_segment allowAboveRoot) segments [] ++ [file].
Proof. intros H. rewrite fold_left_app. cbn [fold_left]. now apply normalize_plain_segment. Qed.

(** Normalizing a path that ends in a plain segment after a slash, or
    consists of it, leaves that segment last. *)
Lemma normalize_plain_last (p file : string) :
  plain file -> (p = "" \/ exists dir, p = dir +:+ "/") ->
  JS.normalize (p +:+ file) = file \/ exists dir, JS.normalize (p +:+ file) = dir +:+ "/" +:+ file.
Proof.
  intros Hplain Hp. pose proof Hplain as (Hslash & Hne & _).
  unfold JS.normalize.
  destruct (String.eqb_spec (p +:+ file) "") as [E|_]; [now apply append_not_empty in E|].
  rewrite (ends_with_slash_app p file Hne), (ends_with_slash_has_slash file Hslash).
  cbv zeta. rewrite append_nil_r.
  set (allowAboveRoot := negb (JS.starts_with_slash (p +:+ file))).
  assert (Hsplit : exists segments, JS.split_slash (p +:+ file) = segments ++ [file]).
  { destruct Hp as [->|[dir ->]].
    - exists []. rewrite append_nil_l. now apply split_slash_no_slash.
    - exists (JS.split_slash dir). rewrite append_assoc, split_slash_app.
      now rewrite (split_slash_no_slash file Hslash). }
  destruct Hsplit as [segments Hsplit].
  unfold JS.normalizeString. rewrite Hsplit, (fold_normalize_plain _ _ _ Hplain), concat_snoc.
  destruct (fold_left (JS.normalize_segment allowAboveRoot) segments []) as [|a stack] eqn:Hstack.
  - apply String.eqb_neq in Hne. rewrite Hne.
    destruct (JS.starts_with_slash (p +:+ file)).
    + right. exists "". reflexivity.
    + left. apply append_nil_l.
  - destruct (String.eqb_spec (String.concat "/" (a :: stack) +:+ "/" +:+ file) "") as [E|_].
    + rewrite <- append_assoc in E. now apply append_not_empty in E.
    + right. eexists. rewrite <- append_assoc. reflexivity.
Qed.

(** The last segment of a joined path whose last argument is plain is
    that argument. *)
Lemma basename_join_plain (dirs : list string) (file : string) :
  plain file -> Capturer.basename (JS.join (dirs ++ [file])) = file.
Proof.
  intros Hplain. pose proof Hplain as (Hslash & Hne & _).
  unfold JS.join. rewrite filter_app, filter_cons_True, filter_nil by exact Hne.
  set (parts := filter (fun arg => arg <> "") dirs).
  destruct (parts ++ [file]) as [|a rest] eqn:E; [now destruct parts|]. rewrite <- E. clear E a rest.
  rewrite concat_snoc.
  assert (Hlast : forall p, (p = "" \/ exists dir, p = dir +:+ "/") ->
            Capturer.basename (JS.normalize (p +:+ file)) = file).
  { intros p Hp. destruct (normalize_plain_last p file Hplain Hp) as [->|[dir ->]];
      unfold Capturer.basename.
    - now apply basename_from_no_slash.
    - now apply basename_from_slash. }
  destruct parts as [|a parts'].
  - apply (Hlast ""). now left.
  - rewrite <- append_assoc. apply Hlast. right. now eexists.
Qed.

(** Joining a directory with two plain names gives two paths. *)
Lemma join_plain_inj (dir file file' : string) :
  plain file -> plain file' -> JS.join [dir; file] = JS.join [dir; file'] -> file = file'.
Proof.
  intros Hfile Hfile' E.
  rewrite <- (basename_join_plain [dir] file Hfile), <- (basename_join_plain [dir] file' Hfile').
  cbn [app]. now rewrite E.
Qed.

End Paths.

(** ** The analyzer *)

Section AnalyzerProperties.

Import Analyzer.

(** *** The edit distance *)

Lemma distance_bounds str1 str2 i j :
  distance str1 str2 i j <= Nat.max i j /\
  i <= distance str1 str2 i j + j /\ j <= distance str1 str2 i j + i.
Proof.
  revert j. induction i as [|i IHi]; intros j.
  - cbn. lia.
  - induction j as [|j IHj].
    + rewrite distance_first_column. lia.
    + rewrite distance_step.
      pose proof (IHi j). pose proof (IHi (S j)).
      destruct (decide (JS.charAt str2 i = JS.charAt str1 j)); lia.
Qed.

Lemma distance_same (s : string) (i : nat) : distance s s i i = 0.
Proof.
  induction i as [|i IH]; [reflexivity|].
  rewrite distance_step. now destruct (decide (JS.charAt s i = JS.charAt s i)).
Qed.

Lemma distance_zero str1 str2 i j :
  distance str1 str2 i j = 0 ->
  i = j /\ forall k, k < i -> JS.charAt str2 k = JS.charAt str1 k.
Proof.
  revert j. induction i as [|i IHi]; intros j.
  - cbn. intros ->. split; [reflexivity|]. lia.
  - destruct j as [|j]; [rewrite distance_first_column; discriminate|].
    rewrite distance_step.
    destruct (decide (JS.charAt str2 i = JS.charAt str1 j)) as [E|_]; [|lia].
    intros H. apply IHi in H as [-> Hk]. split; [reflexivity|].
    intros k Hlt. destruct (decide (k = j)) as [->|Hne]; [exact E|]. apply Hk. lia.
Qed.

Lemma get_beyond (s : string) (k : nat) : String.length s <= k -> String.get k s = None.
Proof.
  revert k. induction s as [|c s IH]; intros k Hk; [reflexivity|].
  destruct k as [|k]; [cbn in Hk; lia|]. cbn. apply IH. cbn in Hk. lia.
Qed.

Lemma distance_zero_iff (str1 str2 : string) :
  distance str1 str2 (String.length str2) (String.length str1) = 0 <-> str1 = str2.
Proof.
  split.
  - intros H0. apply distance_zero in H0 as [Hlen Hget].
    apply String.get_correct. intros k. unfold JS.charAt in Hget.
    destruct (decide (k < String.length str2)) as [Hlt|Hge]; [symmetry; now apply Hget|].
    rewrite !get_beyond by lia. reflexivity.
  - intros ->. apply distance_same.
Qed.

(** X5.  [levenshteinDistance] always returns a number.  It lies between
    the difference of the two lengths and the greater length, and it is
    zero exactly when the two strings are equal. *)
Theorem levenshtein_distance_bounds (str1 str2 : string) :
  exists d,
    levenshteinDistance str1 str2 = Some d /\
    d <= Nat.max (String.length str1) (String.length str2) /\
    String.length str1 <= d + String.length str2 /\
    String.length str2 <= d + String.length str1 /\
    (d = 0 <-> str1 = str2).
Proof.
  rewrite levenshteinDistance_is_distance. eexists. split; [reflexivity|].
  pose proof (distance_bounds str1 str2 (String.length str2) (String.length str1)) as (H1 & H2 & H3).
  repeat split; try lia; apply distance_zero_iff.
Qed.

(** *** The similarity of two texts *)

(** X6.  The text similarity is a percentage: a number between 0 and 100,
    and it is 100 exactly when the two texts are equal. *)
Theorem text_similarity_is_percentage (text1 text2 : string) :
  exists q,
    calculateTextSimilarity text1 text2 = JS.Num q /\
    (0 <= q)%Q /\ (q <= 100)%Q /\ ((q == 100)%Q <-> text1 = text2).
Proof.
  destruct (decide (text1 = text2)) as [->|Hne].
  { exists 100%Q. unfold calculateTextSimilarity.
    destruct (decide (text2 = text2)) as [_|N]; [|congruence].
    split; [reflexivity|]. split; [unfold Qle; cbn; lia|]. split; [apply Qle_refl|].
    split; reflexivity. }
  destruct (decide (text1 = "" \/ text2 = "")) as [Hempty|Hfull].
  { exists 0%Q. unfold calculateTextSimilarity.
    destruct (decide (text1 = text2)) as [E|_]; [congruence|].
    destruct (decide (text1 = "" \/ text2 = "")) as [_|N]; [|tauto].
    split; [reflexivity|]. split; [apply Qle_refl|]. split; [unfold Qle; cbn; lia|].
    split; intros H; [unfold Qeq in H; cbn in H; lia|contradiction]. }
  rewrite calculateTextSimilarity_distinct by tauto. cbv zeta.
  set (longer := if decide (String.length text2 < String.length text1) then text1 else text2).
  set (shorter := if decide (String.length text2 < String.length text1) then text2 else text1).
  assert (Hlong : String.length shorter <= String.length longer).
  { unfold longer, shorter. destruct (decide _); lia. }
  assert (Hpos : 0 < String.length longer).
  { assert (String.length text1 <> 0) by (destruct text1; [tauto|cbn; lia]).
    assert (String.length text2 <> 0) by (destruct text2; [tauto|cbn; lia]).
    unfold longer. destruct (decide _); lia. }
  assert (Hdiff : longer <> shorter).
  { unfold longer, shorter. destruct (decide _); congruence. }
  pose proof (distance_bounds longer shorter (String.length shorter) (String.length longer))
    as (Hmax & _ & _).
  pose proof (distance_zero_iff longer shorter) as Hzero.
  set (d := distance longer shorter (String.length shorter) (String.length longer)) in *.
  assert (0 < d) by (destruct d; [tauto|lia]).
  eexists. split; [reflexivity|].
  assert (Hq : forall L : nat, 0 < L -> (0 < d <= L)%nat ->
             (0 <= (Z.of_nat L - Z.of_nat d # Pos.of_nat L) * 100)%Q /\
             ((Z.of_nat L - Z.of_nat d # Pos.of_nat L) * 100 < 100)%Q).
  { intros L HL HdL. unfold Qle, Qlt, Qmult. cbn [Qnum Qden].
    rewrite ?Pos.mul_1_r, ?Z.mul_1_r.
    assert (Z.pos (Pos.of_nat L) = Z.of_nat L) as ->.
    { destruct L; [lia|]. rewrite <- Pos.of_nat_succ. lia. }
    nia. }
  destruct (Hq (String.length longer) Hpos) as [Hge Hlt]; [lia|].
  repeat split.
  - exact Hge.
  - now apply Qlt_le_weak.
  - intros E. rewrite E in Hlt. now apply Qlt_irrefl in Hlt.
  - intros E. contradiction.
Qed.

(** *** Comparing analyses *)

(** X7.  Comparing an analysis with itself reports a significant change
    exactly when the analysis counts no element: the change of the
    element count is then taken to be 100 percent.  In particular two
    failed analyses in a row always differ significantly. *)
Theorem compareAnalyses_with_itself (a : VisualAnalysis) :
  (hasSignificantChange (compareAnalyses a a) = true <-> elementCount a = 0) /\
  (elementCount a = 0 ->
   changedElements (compareAnalyses a a) = ["Element count changed by 100%"]) /\
  (0 < elementCount a -> changedElements (compareAnalyses a a) = []) /\
  hasSignificantChange (compareAnalyses (analyzePage None) (analyzePage None)) = true.
Proof.
  assert (Hnone : 0 < elementCount a -> compareAnalyses a a = mkDiff false (JS.Num (100 - 100)) []).
  { intros Hpos. unfold compareAnalyses.
    destruct (isBlank a), (hasErrors a); cbn [andb negb];
      destruct (decide (0 < elementCount a)) as [_|N]; try lia;
      replace (Z.to_nat (Z.abs (Z.of_nat (elementCount a) - Z.of_nat (elementCount a)))) with 0 by lia;
      unfold calculateTextSimilarity;
      (destruct (decide (textContent a = textContent a)) as [_|N]; [|congruence]);
      unfold JS.div_nat; (destruct (elementCount a) as [|n] eqn:En; [lia|]);
      cbn [JS.scale JS.gtb];
      (destruct (loadingIndicators a); reflexivity). }
  assert (Hzero : elementCount a = 0 ->
            compareAnalyses a a = mkDiff true (JS.Num (100 - 100)) ["Element count changed by 100%"]).
  { intros E. unfold compareAnalyses. rewrite E.
    destruct (isBlank a), (hasErrors a); cbn [andb negb];
      unfold calculateTextSimilarity;
      (destruct (decide (textContent a = textContent a)) as [_|N]; [|congruence]);
      (destruct (loadingIndicators a); reflexivity). }
  split; [|split; [|split]].
  - split.
    + intros H. destruct (elementCount a) as [|n] eqn:En; [reflexivity|].
      rewrite Hnone in H by lia. discriminate.
    + intros E. now rewrite Hzero.
  - intros E. now rewrite Hzero.
  - intros Hpos. now rewrite Hnone.
  - reflexivity.
Qed.

(** *** The analysis of a page *)

Lemma length_substring_to (n : nat) (s : string) : String.length (JS.substring_to n s) <= n.
Proof.
  unfold JS.substring_to. revert s. induction n as [|n IH]; intros s.
  - destruct s; cbn; lia.
  - destruct s as [|c s]; [cbn; lia|]. cbn [String.substring String.length].
    specialize (IH s). lia.
Qed.

Lemma length_omap_le {A B : Type} (f : A -> option B) (l : list A) :
  length (omap f l) <= length l.
Proof.
  induction l as [|x l IH]; [reflexivity|].
  cbn [omap list_omap]. destruct (f x); cbn [length]; lia.
Qed.

(** X8.  Whatever the page holds, and also when its evaluation fails,
    the analysis that [analyzePage] returns is coherent: it reports
    errors exactly when it lists an error message; the text it keeps has
    at most 500 code units; a page that is not blank has content and at
    least ten elements, and a page without content is blank with an empty
    text; and there are at most ten loading indicators. *)
Theorem analyzePage_is_coherent (page : option Document) :
  let a := analyzePage page in
  (hasErrors a = true <-> errorMessages a <> []) /\
  String.length (textContent a) <= 500 /\
  (isBlank a = false -> hasContent a = true /\ 10 <= elementCount a) /\
  (hasContent a = false -> isBlank a = true /\ textContent a = "") /\
  length (loadingIndicators a) <= 10.
Proof.
  destruct page as [doc|]; cbv zeta.
  2: { cbn. repeat split; try discriminate; try lia; intros; discriminate. }
  unfold analyzePage, page_script.
  cbn [hasErrors errorMessages textContent isBlank hasContent elementCount loadingIndicators].
  set (text := match body_innerText doc with Some t => JS.trim t | None => "" end).
  split; [|split; [|split; [|split]]].
  - destruct (omap errorMessage_of (errorElements_innerText doc)) as [|e es];
      destruct (default [] (capturedErrors doc)) as [|e' es']; cbn; split;
      try discriminate; try congruence; intros; reflexivity.
  - apply length_substring_to.
  - intros H. apply orb_false_iff in H as [H1 H2].
    apply negb_false_iff in H1. split; [exact H1|].
    apply bool_decide_eq_false in H2. lia.
  - intros H. rewrite H. split; [reflexivity|].
    apply bool_decide_eq_false in H. destruct text; [reflexivity|cbn in H; lia].
  - rewrite length_app.
    pose proof (length_omap_le (loadingIndicator_of doc) loadingSelectors) as Hsel.
    change (length loadingSelectors) with 9 in Hsel.
    destruct (JS.includes _ _); cbn [length]; lia.
Qed.

End AnalyzerProperties.

(** ** The comparator and its files *)

Section ComparatorProperties.

Import Comparator.

(** *** Identical images and bounds *)

Lemma channel_diff_same (img : PNG) (i : Z) :
  channel_diff img img i = None \/ channel_diff img img i = Some 0%Z.
Proof.
  unfold channel_diff. destruct (byte_at (data img) i) as [p|]; [right|now left].
  f_equal. lia.
Qed.

Lemma pixelDiff_at_same (img : PNG) (idx : Z) :
  pixelDiff_at img img idx = None \/ pixelDiff_at img img idx = Some 0%Z.
Proof.
  unfold pixelDiff_at.
  destruct (channel_diff_same img idx) as [-> | ->]; [now left|].
  destruct (channel_diff_same img (idx + 1)) as [-> | ->]; [now left|].
  destruct (channel_diff_same img (idx + 2)) as [-> | ->]; [now left|].
  destruct (channel_diff_same img (idx + 3)) as [-> | ->]; [now left|].
  now right.
Qed.

Lemma Qle_bool_true (p q : Q) : (p <= q)%Q -> Qle_bool p q = true.
Proof. intros H. now apply Qle_bool_iff. Qed.

Lemma not_counted_same (c : ScreenshotComparator) (img : PNG) (xy : nat * nat) :
  (0 <= pixelThreshold c)%Q -> counted_by_code c img img xy = false.
Proof.
  intros Hlimit. unfold counted_by_code.
  destruct (pixelDiff_at_same img (shl2 (width img * Z.of_nat xy.2 + Z.of_nat xy.1)))
    as [-> | ->]; [reflexivity|].
  unfold exceeds. change (inject_Z 0) with 0%Q. now rewrite Qle_bool_true.
Qed.

Lemma length_positions (img : PNG) :
  length (positions img) = Z.to_nat (height img) * Z.to_nat (width img).
Proof.
  unfold positions.
  assert (H : forall ys : list nat,
            length (y ← ys; (fun x => (x, y)) <$> seq 0 (Z.to_nat (width img))) =
            length ys * Z.to_nat (width img)).
  { induction ys as [|y ys IH]; [reflexivity|].
    rewrite bind_cons, length_app, IH, length_fmap, length_seq. cbn [length]. lia. }
  now rewrite H, length_seq.
Qed.

(** An image compared with itself, when the per-pixel threshold is not
    negative. *)
Lemma compareScreenshots_same (c : ScreenshotComparator) (img : PNG) (outputPath : option string) :
  (0 <= pixelThreshold c)%Q ->
  compareScreenshots c img img outputPath =
    (mkComparison (JS.leb (JS.scale (div_Z 0 (width img * height img)) 100) (threshold c))
       (JS.scale (div_Z 0 (width img * height img)) 100) 0
       (width img * height img) None, None).
Proof.
  intros Hlimit.
  assert (Hcount : counted (compare_pixels c img img
            (mkProgress 0 (replicate (Z.to_nat (4 * width img * height img)) 0%Z))) = 0%Z).
  { rewrite counted_compare_pixels. rewrite (filter_none _ (positions img)); [reflexivity|].
    intros xy _. now rewrite not_counted_same. }
  unfold compareScreenshots. rewrite !Z.eqb_refl. cbn [negb orb]. cbv zeta.
  rewrite Hcount. change (0 <? 0)%Z with false.
  destruct outputPath as [path|]; [rewrite andb_false_r|]; reflexivity.
Qed.

Lemma zero_percent_matches (c : ScreenshotComparator) (total : Z) :
  (0 < total)%Z -> (0 <= threshold c)%Q ->
  JS.leb (JS.scale (div_Z 0 total) 100) (threshold c) = true /\
  exists q, JS.scale (div_Z 0 total) 100 = JS.Num q /\ (q == 0)%Q.
Proof.
  intros Hpos Hthreshold. unfold div_Z.
  destruct (Z.eqb_spec total 0) as [E|_]; [lia|]. cbn [Z.eqb JS.scale JS.leb]. split.
  - apply Qle_bool_true. unfold Qle in Hthreshold |- *. cbn in Hthreshold |- *. lia.
  - eexists. split; reflexivity.
Qed.

(** X9.  An image compared with itself has no differing pixel, whatever
    its size and its bytes, provided the per-pixel threshold is not
    negative: no diff image is written, and when the image has pixels
    and the threshold is not negative the comparison is a match at 0
    percent. *)
Theorem identical_images_match
        (c : ScreenshotComparator) (img : PNG) (outputPath : option string) :
  (0 <= pixelThreshold c)%Q ->
  diffPixels (compareScreenshots c img img outputPath).1 = 0%Z /\
  diffImagePath (compareScreenshots c img img outputPath).1 = None /\
  (compareScreenshots c img img outputPath).2 = None /\
  ((0 < width img * height img)%Z -> (0 <= threshold c)%Q ->
   isMatch (compareScreenshots c img img outputPath).1 = true /\
   exists q, diffPercentage (compareScreenshots c img img outputPath).1 = JS.Num q /\ (q == 0)%Q).
Proof.
  intros Hlimit. rewrite compareScreenshots_same by exact Hlimit.
  cbn [fst snd diffPixels diffImagePath isMatch diffPercentage].
  split; [reflexivity|]. split; [reflexivity|]. split; [reflexivity|].
  intros Hpos Hthreshold. now apply zero_percent_matches.
Qed.

(** X10.  The number of differing pixels that [compareScreenshots]
    reports is never negative and never more than the total it reports,
    which is the number of pixels of the baseline; and when that total
    is not zero the percentage lies between 0 and 100. *)
Theorem diffPixels_within_total
        (c : ScreenshotComparator) (baseline current : PNG) (outputPath : option string) :
  (0 <= width baseline)%Z -> (0 <= height baseline)%Z ->
  let result := (compareScreenshots c baseline current outputPath).1 in
  totalPixels result = (width baseline * height baseline)%Z /\
  (0 <= diffPixels result <= totalPixels result)%Z /\
  ((0 < totalPixels result)%Z ->
   exists q, diffPercentage result = JS.Num q /\ (0 <= q)%Q /\ (q <= 100)%Q).
Proof.
  intros Hw Hh. cbv zeta.
  assert (Hpercent : forall n total : Z, (0 <= n <= total)%Z -> (0 < total)%Z ->
            exists q, JS.scale (div_Z n total) 100 = JS.Num q /\ (0 <= q)%Q /\ (q <= 100)%Q).
  { intros n total Hn Htotal. unfold div_Z.
    destruct (Z.eqb_spec total 0) as [E|_]; [lia|].
    cbn [JS.scale]. eexists. split; [reflexivity|].
    unfold Qle, Qmult. cbn [Qnum Qden]. rewrite Pos.mul_1_r, Z2Pos.id by lia. lia. }
  destruct (decide (width baseline = width current /\ height baseline = height current))
    as [[Ew Eh]|Hdim].
  - assert (Hbound : (0 <= counted (compare_pixels c baseline current
              (mkProgress 0 (replicate (Z.to_nat (4 * width baseline * height baseline)) 0%Z)))
              <= width baseline * height baseline)%Z).
    { rewrite counted_compare_pixels. cbn [counted].
      pose proof (length_filter (fun xy => counted_by_code c baseline current xy = true)
                    (positions baseline)) as Hle.
      rewrite length_positions in Hle. nia. }
    pose proof (diffPixels_compareScreenshots c baseline current outputPath Ew Eh) as Hd.
    pose proof (diffPercentage_compareScreenshots c baseline current outputPath Ew Eh) as Hp.
    assert (Ht : totalPixels (compareScreenshots c baseline current outputPath).1 =
                 (width baseline * height baseline)%Z).
    { unfold compareScreenshots. rewrite <- Ew, <- Eh, !Z.eqb_refl. cbn [negb orb].
      destruct outputPath as [path|]; [|reflexivity].
      destruct (negb (String.eqb path "") && _); reflexivity. }
    rewrite Ht, Hd. split; [reflexivity|]. split; [exact Hbound|].
    intros Hpos. rewrite Hp, Hd. now apply Hpercent.
  - assert (Hneq : negb (width baseline =? width current)%Z
                   || negb (height baseline =? height current)%Z = true).
    { destruct (Z.eqb_spec (width baseline) (width current));
        destruct (Z.eqb_spec (height baseline) (height current)); try reflexivity. tauto. }
    unfold compareScreenshots. rewrite Hneq.
    cbn [fst totalPixels diffPixels diffPercentage].
    split; [reflexivity|]. split; [nia|].
    intros _. exists 100%Q. split; [reflexivity|]. split; [unfold Qle; cbn; lia|apply Qle_refl].
Qed.

(** *** Comparing a capture with a baseline *)

(** The image [compareScreenshots] hands over for writing goes to the
    output path. *)
Lemma compareScreenshots_written c baseline current outputPath path diff :
  (compareScreenshots c baseline current outputPath).2 = Some (path, diff) ->
  outputPath = Some path.
Proof.
  unfold compareScreenshots.
  destruct (negb _ || negb _); [discriminate|].
  destruct outputPath as [p|]; [|discriminate].
  destruct (negb (String.eqb p "") && _); [|discriminate].
  cbn. congruence.
Qed.

(** [compareScreenshots] on files writes at most the output path. *)
Lemma compareScreenshots_files_frame c d baselinePath currentPath outputPath d' r :
  compareScreenshots_files c d baselinePath currentPath outputPath = (d', r) ->
  directories d' = directories d /\ writable d' = writable d /\
  forall p, outputPath <> Some p -> files d' !! p = files d !! p.
Proof.
  unfold compareScreenshots_files.
  destruct (readFile d baselinePath) as [fb|e]; [|intros [= <- _]; now repeat split].
  destruct (readFile d currentPath) as [fc|e]; [|intros [= <- _]; now repeat split].
  destruct (decoded fb) as [b|]; [|intros [= <- _]; now repeat split].
  destruct (decoded fc) as [cur|]; [|intros [= <- _]; now repeat split].
  destruct (compareScreenshots c b cur outputPath) as [result [[path diff]|]] eqn:E;
    [|intros [= <- _]; now repeat split].
  assert (Hout : outputPath = Some path).
  { apply (compareScreenshots_written c b cur outputPath path diff). now rewrite E. }
  unfold writeFile. destruct (writable d path && _).
  - intros [= <- _]. cbn [directories writable files]. repeat split.
    intros p Hp. apply lookup_insert_ne. congruence.
  - intros [= <- _]. now repeat split.
Qed.

Lemma compare_keyFrames_frame c cur base kfs d cs mx d' cs' mx' :
  fold_left (compare_keyFrame c cur base) kfs (d, cs, mx) = (d', cs', mx') ->
  cs'.*1 = cs.*1 ++ kfs /\
  directories d' = directories d /\ writable d' = writable d /\
  forall p, (forall kf, kf ∈ kfs -> p <> JS.join [cur; "diff-" +:+ kf]) ->
            files d' !! p = files d !! p.
Proof.
  revert d cs mx. induction kfs as [|kf kfs IH]; intros d cs mx.
  - cbn. intros [= <- <- <-]. rewrite app_nil_r. now repeat split.
  - cbn [fold_left].
    destruct (compare_keyFrame c cur base (d, cs, mx) kf) as [[d1 cs1] mx1] eqn:Estep.
    intros Hfold. destruct (IH d1 cs1 mx1 Hfold) as (Hnames & Hdirs & Hwr & Hfiles).
    assert (Hstep : cs1.*1 = cs.*1 ++ [kf] /\
              directories d1 = directories d /\ writable d1 = writable d /\
              forall p, p <> JS.join [cur; "diff-" +:+ kf] -> files d1 !! p = files d !! p).
    { unfold compare_keyFrame in Estep.
      destruct (access d (JS.join [base; kf])).
      - destruct (compareScreenshots_files c d (JS.join [cur; kf]) (JS.join [base; kf])
                    (Some (JS.join [cur; "diff-" +:+ kf]))) as [d2 [result|e]] eqn:Ecmp;
          injection Estep as <- <- <-;
          destruct (compareScreenshots_files_frame _ _ _ _ _ _ _ Ecmp) as (H1 & H2 & H3);
          rewrite fmap_app; (repeat split; try assumption);
          intros p Hp; apply H3; congruence.
      - injection Estep as <- <- <-. rewrite fmap_app. now repeat split. }
    destruct Hstep as (Hn1 & Hd1 & Hw1 & Hf1).
    split; [rewrite Hnames, Hn1, <- app_assoc; reflexivity|].
    split; [congruence|]. split; [congruence|].
    intros p Hp. rewrite Hfiles, Hf1; [reflexivity| |].
    + apply Hp. now left.
    + intros kf' Hin. apply Hp. now right.
Qed.

(** X11.  When the baseline directory exists and both manifests can be
    read, [compareWithBaseline] returns: it has one comparison per key
    frame of the current manifest, in the order of the manifest.  On
    the disk it has written nothing but diff images, at
    [diff-<key frame>] in the current capture directory. *)
Theorem compareWithBaseline_compares_every_keyFrame
        (c : ScreenshotComparator) (d : Disk) (currentCaptureDir baselineCaptureDir : string)
        (keyFrames : list string) (baselineKeyFrames : option (list string)) :
  access d baselineCaptureDir = true ->
  readManifest d (JS.join [currentCaptureDir; "manifest.json"]) = Some (Some keyFrames) ->
  readManifest d (JS.join [baselineCaptureDir; "manifest.json"]) = Some baselineKeyFrames ->
  exists d' result,
    compareWithBaseline c d currentCaptureDir baselineCaptureDir = (d', Ok result) /\
    baselineExists result = true /\
    (comparisons result).*1 = keyFrames /\
    directories d' = directories d /\
    forall p, (forall keyFrame, keyFrame ∈ keyFrames ->
                 p <> JS.join [currentCaptureDir; "diff-" +:+ keyFrame]) ->
              files d' !! p = files d !! p.
Proof.
  intros Hbase Hcur Hman. unfold compareWithBaseline. rewrite Hbase, Hcur, Hman. cbn [negb].
  destruct (fold_left _ keyFrames (d, [], JS.Num 0)) as [[d' cs] mx] eqn:Efold.
  destruct (compare_keyFrames_frame _ _ _ _ _ _ _ _ _ _ Efold) as (Hnames & Hdirs & _ & Hfiles).
  exists d'. eexists. split; [reflexivity|]. cbn [baselineExists comparisons].
  repeat split; assumption.
Qed.





(** *** Creating a baseline *)

(** The names [createBaseline] handles: the key frames and the manifest. *)
Definition baseline_names (keyFrames : list string) : list string :=
  keyFrames ++ ["manifest.json"].

Lemma copyFile_ok d src dest d' :
  copyFile d src dest = (d', Ok tt) ->
  exists f, files d !! src = Some f /\
            files d' = <[dest:=f]> (files d) /\
            directories d' = directories d /\ writable d' = writable d.
Proof.
  unfold copyFile. destruct (files d !! src) as [f|]; [|discriminate].
  destruct (writable d dest && _); [|discriminate].
  intros [= <-]. exists f. now repeat split.
Qed.

Lemma copy_keyFrames_ok captureDir baselineDir keyFrames d d' :
  (forall kf, kf ∈ keyFrames -> plain kf) ->
  copy_keyFrames d captureDir baselineDir keyFrames = (d', Ok tt) ->
  (forall kf src, kf ∈ keyFrames -> src ∈ keyFrames ->
     JS.join [baselineDir; kf] <> JS.join [captureDir; src]) ->
  directories d' = directories d /\ writable d' = writable d /\
  (forall kf, kf ∈ keyFrames ->
     is_Some (files d !! JS.join [captureDir; kf]) /\
     files d' !! JS.join [baselineDir; kf] = files d !! JS.join [captureDir; kf]) /\
  (forall p, (forall kf, kf ∈ keyFrames -> p <> JS.join [baselineDir; kf]) ->
     files d' !! p = files d !! p).
Proof.
  intros Hplain. revert d. induction keyFrames as [|kf0 kfs IH]; intros d.
  - cbn. intros [= <-] _. split; [reflexivity|]. split; [reflexivity|].
    split; [intros kf Hin; inversion Hin|intros p _; reflexivity].
  - cbn [copy_keyFrames].
    assert (Hplain' : forall kf, kf ∈ kfs -> plain kf) by (intros kf Hkf; apply Hplain; now right).
    specialize (IH Hplain').
    destruct (copyFile d (JS.join [captureDir; kf0]) (JS.join [baselineDir; kf0]))
      as [d1 [[]|e]] eqn:Ecopy; [|discriminate].
    apply copyFile_ok in Ecopy as (f & Hsrc & Hfiles1 & Hdirs1 & Hwr1).
    intros Hrest Hpaths.
    destruct (IH d1 Hrest) as (Hdirs & Hwr & Hcopied & Hframe).
    { intros kf src Hkf Hsrc'. apply Hpaths; now right. }
    assert (Hsame : forall p, p <> JS.join [baselineDir; kf0] -> files d1 !! p = files d !! p).
    { intros p Hp. rewrite Hfiles1. now apply lookup_insert_ne. }
    split; [congruence|]. split; [congruence|]. split.
    + intros kf Hin.
      assert (Hsource : files d1 !! JS.join [captureDir; kf] = files d !! JS.join [captureDir; kf]).
      { apply Hsame. intros E. symmetry in E. revert E. apply Hpaths; [now left|exact Hin]. }
      destruct (decide (kf ∈ kfs)) as [Hkfs|Hfirst].
      * destruct (Hcopied kf Hkfs) as [Hsome Heq]. rewrite Hsource in Hsome, Heq. now split.
      * assert (kf = kf0) as -> by (apply elem_of_cons in Hin as [?|?]; [assumption|contradiction]).
        split; [now rewrite Hsrc|].
        rewrite Hframe.
        -- rewrite Hfiles1, lookup_insert_eq. now rewrite Hsrc.
        -- intros kf' Hin' E.
           apply join_plain_inj in E; [subst kf'; contradiction|apply Hplain; now left|].
           now apply Hplain'.
    + intros p Hp. rewrite Hframe, Hsame; [reflexivity| |].
      * apply Hp. now left.
      * intros kf Hin. apply Hp. now right.
Qed.

Lemma mkdir_ok d path d1 :
  mkdir d path = (d1, Ok tt) ->
  files d1 = files d /\ writable d1 = writable d /\ path ∈ directories d1 /\
  (forall q, q ∈ directories d1 <-> q = path \/ q ∈ directories d).
Proof.
  unfold mkdir. destruct (bool_decide (path ∈ directories d)) eqn:Edir.
  - intros [= <-]. apply bool_decide_eq_true in Edir.
    repeat split; try assumption; [|intros [->|?]; assumption]. now right.
  - destruct (_ || _); [discriminate|]. intros [= <-]. cbn [files writable directories].
    repeat split; try set_solver.
Qed.

Lemma createBaseline_ok
      (d d' : Disk) (captureDir baselineDir : string) (keyFrames : list string) :
  (forall keyFrame, keyFrame ∈ keyFrames -> plain keyFrame) ->
  readManifest d (JS.join [captureDir; "manifest.json"]) = Some (Some keyFrames) ->
  (forall name source, name ∈ baseline_names keyFrames -> source ∈ baseline_names keyFrames ->
     JS.join [baselineDir; name] <> JS.join [captureDir; source]) ->
  createBaseline d captureDir baselineDir = (d', Ok tt) ->
  access d' baselineDir = true /\
  (forall name, name ∈ baseline_names keyFrames ->
     is_Some (files d !! JS.join [captureDir; name]) /\
     files d' !! JS.join [baselineDir; name] = files d !! JS.join [captureDir; name]) /\
  (forall p, (forall name, name ∈ baseline_names keyFrames -> p <> JS.join [baselineDir; name]) ->
     files d' !! p = files d !! p).
Proof.
  intros Hplain Hman Hpaths. unfold createBaseline.
  destruct (mkdir d baselineDir) as [d1 [[]|e]] eqn:Emk; [|discriminate].
  apply mkdir_ok in Emk as (Hfiles1 & Hwr1 & Hdir1 & Hdirs1).
  assert (Hman1 : readManifest d1 (JS.join [captureDir; "manifest.json"]) = Some (Some keyFrames))
    by (unfold readManifest in *; now rewrite Hfiles1).
  rewrite Hman1.
  destruct (copy_keyFrames d1 captureDir baselineDir keyFrames) as [d2 [[]|e]] eqn:Ecopy;
    [|discriminate].
  apply copy_keyFrames_ok in Ecopy as (Hdirs2 & Hwr2 & Hcopied & Hframe); [|exact Hplain|].
  2: { intros kf src Hkf Hsrc. apply Hpaths; apply elem_of_app; now left. }
  intros Elast. apply copyFile_ok in Elast as (f & Hsrc & Hfiles' & Hdirs' & Hwr').
  assert (Hmanifest_in : "manifest.json" ∈ baseline_names keyFrames)
    by (apply elem_of_app; right; now left).
  assert (Hf : files d !! JS.join [captureDir; "manifest.json"] = Some f).
  { rewrite <- Hfiles1, <- Hsrc. symmetry. apply Hframe.
    intros kf Hin E. symmetry in E. revert E.
    apply Hpaths; [apply elem_of_app; now left|exact Hmanifest_in]. }
  split; [|split].
  - unfold access. rewrite Hdirs', Hdirs2. rewrite (bool_decide_eq_true_2 _ Hdir1).
    apply orb_true_r.
  - intros name Hin. apply elem_of_app in Hin as [Hkf|Hm].
    + destruct (Hcopied name Hkf) as [Hsome Heq]. rewrite Hfiles1 in Hsome, Heq.
      split; [exact Hsome|]. rewrite Hfiles'.
      destruct (decide (name = "manifest.json")) as [->|Hne].
      * rewrite lookup_insert_eq. now rewrite Hf.
      * rewrite lookup_insert_ne; [exact Heq|]. intros E.
        apply join_plain_inj in E; [congruence|now repeat split|now apply Hplain].
    + apply list_elem_of_singleton in Hm. subst name. split; [now rewrite Hf|].
      rewrite Hfiles', lookup_insert_eq. now rewrite Hf.
  - intros p Hp. rewrite Hfiles', lookup_insert_ne by (intros E; symmetry in E; revert E; now apply Hp).
    rewrite Hframe, Hfiles1; [reflexivity|].
    intros kf Hin. apply Hp. apply elem_of_app. now left.
Qed.

(** X13.  When [createBaseline] returns, the baseline directory exists
    and holds, under the same names, the content that the capture
    directory held for every key frame of its manifest and for the
    manifest itself; every other file is as it was.  (The key frames
    are supposed to be plain file names, and the paths written to differ
    from the paths read.) *)
Theorem createBaseline_copies_keyFrames_and_manifest
        (d d' : Disk) (captureDir baselineDir : string) (keyFrames : list string) :
  (forall keyFrame, keyFrame ∈ keyFrames -> plain keyFrame) ->
  readManifest d (JS.join [captureDir; "manifest.json"]) = Some (Some keyFrames) ->
  (forall name source, name ∈ baseline_names keyFrames -> source ∈ baseline_names keyFrames ->
     JS.join [baselineDir; name] <> JS.join [captureDir; source]) ->
  createBaseline d captureDir baselineDir = (d', Ok tt) ->
  access d' baselineDir = true /\
  (forall name, name ∈ baseline_names keyFrames ->
     is_Some (files d !! JS.join [captureDir; name]) /\
     files d' !! JS.join [baselineDir; name] = files d !! JS.join [captureDir; name]) /\
  (forall p, (forall name, name ∈ baseline_names keyFrames -> p <> JS.join [baselineDir; name]) ->
     files d' !! p = files d !! p).
Proof. apply createBaseline_ok. Qed.

(** A number that is zero. *)
Definition is_zero (x : JS.number) : Prop := exists q, x = JS.Num q /\ (q == 0)%Q.

Lemma Math_max_zero (x y : JS.number) : is_zero x -> is_zero y -> is_zero (JS.Math_max x y).
Proof.
  intros (p & -> & Hp) (q & -> & Hq). cbn [JS.Math_max].
  destruct (Qle_bool p q); eexists; (split; [reflexivity|assumption]).
Qed.

(** A comparison that found nothing. *)
Definition clean (result : ComparisonResult) : Prop :=
  isMatch result = true /\ diffPixels result = 0%Z /\ is_zero (diffPercentage result) /\
  diffImagePath result = None.

(** The loop of [compareWithBaseline] over key frames whose current and
    baseline files are the same image. *)
Lemma compare_keyFrames_same c cur base kfs d cs mx :
  (0 <= pixelThreshold c)%Q -> (0 <= threshold c)%Q ->
  (forall kf, kf ∈ kfs ->
     exists f img, files d !! JS.join [cur; kf] = Some f /\
                   files d !! JS.join [base; kf] = Some f /\
                   decoded f = Some img /\ (0 < width img * height img)%Z) ->
  is_zero mx ->
  exists new mx',
    fold_left (compare_keyFrame c cur base) kfs (d, cs, mx) = (d, cs ++ new, mx') /\
    new.*1 = kfs /\ Forall (fun entry => clean entry.2) new /\ is_zero mx'.
Proof.
  intros Hlimit Hthreshold. revert cs mx. induction kfs as [|kf kfs IH]; intros cs mx Hsame Hmx.
  - exists [], mx. rewrite app_nil_r. now repeat split.
  - destruct (Hsame kf) as (f & img & Hcur & Hbase & Himg & Hpos); [now left|].
    destruct (zero_percent_matches c _ Hpos Hthreshold) as [Hmatch Hzero].
    assert (Hstep : compare_keyFrame c cur base (d, cs, mx) kf =
              (d, cs ++ [(kf, (compareScreenshots c img img
                                 (Some (JS.join [cur; "diff-" +:+ kf]))).1)],
               JS.Math_max mx (diffPercentage (compareScreenshots c img img
                                 (Some (JS.join [cur; "diff-" +:+ kf]))).1))).
    { unfold compare_keyFrame, access. rewrite Hbase.
      rewrite bool_decide_eq_true_2 by (now eexists). cbn [orb].
      unfold compareScreenshots_files, readFile. rewrite Hcur, Hbase, Himg.
      now rewrite compareScreenshots_same by exact Hlimit. }
    rewrite compareScreenshots_same in Hstep by exact Hlimit.
    cbn [fst diffPercentage] in Hstep.
    destruct (IH (cs ++ [(kf, mkComparison
                 (JS.leb (JS.scale (div_Z 0 (width img * height img)) 100) (threshold c))
                 (JS.scale (div_Z 0 (width img * height img)) 100) 0
                 (width img * height img) None)])
                (JS.Math_max mx (JS.scale (div_Z 0 (width img * height img)) 100)))
      as (new & mx' & Hfold & Hnames & Hclean & Hmx').
    { intros kf' Hin. apply Hsame. now right. }
    { now apply Math_max_zero. }
    eexists (_ :: new), mx'. cbn [fold_left]. rewrite Hstep, Hfold, <- app_assoc.
    split; [reflexivity|]. split; [cbn; now rewrite Hnames|]. split; [|exact Hmx'].
    constructor; [|exact Hclean]. cbn [snd]. now repeat split.
Qed.

(** X14.  A capture compared with the baseline just created from it
    matches: when [createBaseline] has returned and every key frame is
    an image with pixels, [compareWithBaseline] -- with thresholds that
    are not negative -- finds the baseline, compares every key frame,
    counts no differing pixel, reports an overall match at 0 percent, and
    leaves the disk as it is.  (The key frames are supposed to be plain
    file names, and the paths written to differ from the paths read.) *)
Theorem capture_matches_its_own_baseline
        (c : ScreenshotComparator) (d d' : Disk) (captureDir baselineDir : string)
        (keyFrames : list string) :
  (0 <= pixelThreshold c)%Q -> (0 <= threshold c)%Q ->
  (forall keyFrame, keyFrame ∈ keyFrames -> plain keyFrame) ->
  readManifest d (JS.join [captureDir; "manifest.json"]) = Some (Some keyFrames) ->
  (forall name source, name ∈ baseline_names keyFrames -> source ∈ baseline_names keyFrames ->
     JS.join [baselineDir; name] <> JS.join [captureDir; source]) ->
  (forall keyFrame f, keyFrame ∈ keyFrames ->
     files d !! JS.join [captureDir; keyFrame] = Some f ->
     exists img, decoded f = Some img /\ (0 < width img * height img)%Z) ->
  createBaseline d captureDir baselineDir = (d', Ok tt) ->
  exists result,
    compareWithBaseline c d' captureDir baselineDir = (d', Ok result) /\
    baselineExists result = true /\
    overallMatch result = true /\
    (comparisons result).*1 = keyFrames /\
    Forall (fun entry => isMatch entry.2 = true /\ diffPixels entry.2 = 0%Z) (comparisons result) /\
    exists q, maxDiffPercentage result = JS.Num q /\ (q == 0)%Q.
Proof.
  intros Hlimit Hthreshold Hplain Hman Hpaths Himages Hcreate.
  destruct (createBaseline_ok d d' captureDir baselineDir keyFrames Hplain Hman Hpaths Hcreate)
    as (Hdir & Hcopied & Hframe).
  assert (Hmanifest_in : "manifest.json" ∈ baseline_names keyFrames)
    by (apply elem_of_app; right; now left).
  assert (Hkept : forall name, name ∈ baseline_names keyFrames ->
            files d' !! JS.join [captureDir; name] = files d !! JS.join [captureDir; name]).
  { intros name Hin. apply Hframe. intros other Hother E. symmetry in E. revert E.
    now apply Hpaths. }
  assert (Hman_cur : readManifest d' (JS.join [captureDir; "manifest.json"]) = Some (Some keyFrames)).
  { unfold readManifest in *. now rewrite Hkept. }
  assert (Hman_base : readManifest d' (JS.join [baselineDir; "manifest.json"]) = Some (Some keyFrames)).
  { unfold readManifest in *. destruct (Hcopied _ Hmanifest_in) as [_ ->]. exact Hman. }
  unfold compareWithBaseline. rewrite Hdir, Hman_cur, Hman_base. cbn [negb].
  destruct (compare_keyFrames_same c captureDir baselineDir keyFrames d' [] (JS.Num 0)
              Hlimit Hthreshold) as (new & mx' & Hfold & Hnames & Hclean & Hmx').
  { intros kf Hin.
    assert (Hname : kf ∈ baseline_names keyFrames) by (apply elem_of_app; now left).
    destruct (Hcopied kf Hname) as [[f Hf] Hbase].
    destruct (Himages kf f Hin Hf) as (img & Himg & Hpos).
    exists f, img. rewrite Hkept, Hbase by exact Hname. now repeat split. }
  { exists 0%Q. split; reflexivity. }
  rewrite Hfold. cbn [app]. eexists. split; [reflexivity|].
  cbn [baselineExists overallMatch comparisons maxDiffPercentage].
  split; [reflexivity|]. split; [|split; [exact Hnames|split; [|exact Hmx']]].
  - apply forallb_forall. intros entry Hin.
    apply list_elem_of_In in Hin. rewrite Forall_forall in Hclean.
    now destruct (Hclean entry Hin) as [-> _].
  - eapply Forall_impl; [exact Hclean|]. intros entry (H1 & H2 & _). now split.
Qed.

(** X15.  [createBaseline] makes the baseline directory before it reads
    the manifest of the capture.  On a capture whose manifest cannot be
    read it throws, and leaves an empty baseline directory behind; a
    comparison with that baseline, which before reported that no
    baseline exists, now throws too. *)
Theorem failed_createBaseline_leaves_directory
        (c : ScreenshotComparator) (d : Disk) (captureDir baselineDir : string) :
  access d baselineDir = false -> writable d baselineDir = true ->
  readManifest d (JS.join [captureDir; "manifest.json"]) = None ->
  let d1 := mkDisk (files d) ({[baselineDir]} ∪ directories d) (writable d) in
  createBaseline d captureDir baselineDir =
    (d1, Throws (Error "Could not read capture manifest")) /\
  compareWithBaseline c d captureDir baselineDir =
    (d, Ok (mkRegression false [] false (JS.Num 0))) /\
  compareWithBaseline c d1 captureDir baselineDir =
    (d1, Throws (Error "Could not read manifest files")).
Proof.
  intros Haccess Hwritable Hman. cbv zeta.
  unfold access in Haccess. apply orb_false_iff in Haccess as [Hfile Hdir].
  split; [|split].
  - unfold createBaseline, mkdir. rewrite Hdir, Hfile, Hwritable. cbn [orb negb].
    unfold readManifest in *. cbn [files]. now rewrite Hman.
  - unfold compareWithBaseline, access. now rewrite Hfile, Hdir.
  - unfold compareWithBaseline, access. cbn [files directories].
    rewrite (bool_decide_eq_true_2 (baselineDir ∈ {[baselineDir]} ∪ directories d))
      by set_solver.
    rewrite orb_true_r. cbn [negb].
    unfold readManifest in *. cbn [files]. now rewrite Hman.
Qed.

End ComparatorProperties.

(** ** The storage manager *)

Section StorageProperties.

Import Storage.

(** *** The order of strings *)

Lemma ascii_compare_trans (x y z : ascii) :
  Ascii.compare x y <> Gt -> Ascii.compare y z <> Gt ->
  Ascii.compare x z <> Gt /\
  (Ascii.compare x z = Eq -> Ascii.compare x y = Eq /\ Ascii.compare y z = Eq).
Proof.
  unfold Ascii.compare.
  destruct (N.compare_spec (N_of_ascii x) (N_of_ascii y)),
           (N.compare_spec (N_of_ascii y) (N_of_ascii z)),
           (N.compare_spec (N_of_ascii x) (N_of_ascii z));
    intros; (split; [|intros]); try congruence; try split; try congruence; try lia.
Qed.

Lemma string_leb_trans (a b c : string) :
  String.leb a b = true -> String.leb b c = true -> String.leb a c = true.
Proof.
  unfold String.leb. revert b c. induction a as [|x a IH]; intros b c.
  - destruct c; reflexivity.
  - destruct b as [|y b]; [discriminate|]. destruct c as [|z c]; [discriminate|].
    cbn [String.compare]. intros Hab Hbc.
    assert (Hxy : Ascii.compare x y <> Gt) by (destruct (Ascii.compare x y); congruence).
    assert (Hyz : Ascii.compare y z <> Gt) by (destruct (Ascii.compare y z); congruence).
    destruct (ascii_compare_trans x y z Hxy Hyz) as [Hxz Heq].
    destruct (Ascii.compare x z) eqn:E; [|reflexivity|congruence].
    destruct (Heq eq_refl) as [E1 E2]. rewrite E1 in Hab. rewrite E2 in Hbc.
    specialize (IH b c Hab Hbc). exact IH.
Qed.

(** The order of [listCaptures]: greatest first. *)
Definition descending : string -> string -> Prop := fun x y => String.leb y x = true.

Lemma StronglySorted_rev {A : Type} (R : A -> A -> Prop) (l : list A) :
  StronglySorted R l -> StronglySorted (fun x y => R y x) (rev l).
Proof.
  induction 1 as [|x l Hl IH Hx]; [constructor|]. cbn [rev].
  assert (Happ : forall l1, StronglySorted (fun x y => R y x) l1 ->
            Forall (fun y => R x y) l1 -> StronglySorted (fun x y => R y x) (l1 ++ [x])).
  { induction l1 as [|a l1 IH1]; intros Hs Hall; [repeat constructor|].
    apply StronglySorted_inv in Hs as [Hs Ha]. inversion Hall; subst.
    cbn. constructor; [now apply IH1|].
    apply Forall_app. split; [exact Ha|]. now repeat constructor. }
  apply Happ; [exact IH|]. apply Forall_forall. intros y Hy.
  rewrite Forall_forall in Hx. apply Hx. apply list_elem_of_In. apply list_elem_of_In in Hy.
  now apply in_rev.
Qed.

Lemma listCaptures_sorted (readdir : option (list Dirent)) :
  StronglySorted descending (listCaptures readdir).
Proof.
  destruct readdir as [entries|]; [|constructor]. unfold listCaptures, JS.sort.
  apply (StronglySorted_rev (fun x y => String.leb x y = true)).
  apply JS.StringSort.StronglySorted_sort.
  intros a b c. apply string_leb_trans.
Qed.

(** X16.  [listCaptures] returns the names of the directories among the
    entries of the output directory, each as often as it is listed,
    greatest name first; entries that are not directories are left out,
    and when the output directory cannot be read the list is empty. *)
Theorem listCaptures_lists_directories_greatest_first (readdir : option (list Dirent)) :
  StronglySorted descending (listCaptures readdir) /\
  match readdir with
  | Some entries =>
      listCaptures readdir ≡ₚ name <$> filter (fun entry => isDirectory entry = true) entries
  | None => listCaptures readdir = []
  end.
Proof.
  split; [apply listCaptures_sorted|].
  destruct readdir as [entries|]; [|reflexivity].
  unfold listCaptures, JS.sort. rewrite <- Permutation_rev.
  symmetry. apply JS.StringSort.Permuted_sort.
Qed.





(** *** The capture directory *)

Lemma dashed_is_plain (name stamp : string) :
  has_slash name = false -> has_slash stamp = false -> plain (name +:+ "-" +:+ stamp).
Proof.
  intros Hname Hstamp. split; [|split; [|split]].
  - rewrite !has_slash_app, Hname, Hstamp. reflexivity.
  - destruct name; [rewrite append_nil_l|rewrite append_cons]; discriminate.
  - destruct name as [|a [|b name]]; rewrite ?append_cons, ?append_nil_l; discriminate.
  - destruct name as [|a [|b [|c name]]]; rewrite ?append_cons, ?append_nil_l; discriminate.
Qed.

Lemma replace_colons_and_dots_spec (s : string) :
  String.length (replace_colons_and_dots s) = String.length s /\
  has_slash (replace_colons_and_dots s) = has_slash s /\
  JS.includes (replace_colons_and_dots s) ":" = false /\
  JS.includes (replace_colons_and_dots s) "." = false.
Proof.
  induction s as [|c s (IH1 & IH2 & IH3 & IH4)]; [now repeat split|].
  cbn [replace_colons_and_dots String.length has_slash JS.includes String.prefix].
  rewrite IH1, IH2, IH3, IH4.
  destruct (Ascii.eqb_spec c ":") as [->|Hcolon]; [now repeat split|].
  destruct (Ascii.eqb_spec c ".") as [->|Hdot]; [now repeat split|].
  cbn [orb]. repeat split.
  - destruct (ascii_dec ":" c) as [E|_]; [congruence|reflexivity].
  - destruct (ascii_dec "." c) as [E|_]; [congruence|reflexivity].
Qed.

(** X18.  The directory that [createCaptureDirectory] creates for a
    capture is named after the capture and the time: when neither the
    name nor the time stamp contains a slash, the last segment of the
    path it returns is the name, a dash, and the time stamp with its
    colons and dots replaced by dashes -- and that segment is the
    [captureId] of the manifest of a capturer that uses the directory.
    When the directory cannot be made, the error is rethrown. *)
Theorem captureId_is_name_and_time
        (this : StorageManager) (cwd isoNow name : string)
        {PerformanceMetrics : Type} (analyzePerformance : PerformanceMetrics -> list string)
        (requestCount totalResourceSize : PerformanceMetrics -> Z)
        (st : Capturer.State (PerformanceMetrics := PerformanceMetrics)) (manifestTime : string) :
  has_slash name = false -> has_slash isoNow = false ->
  let stamp := replace_colons_and_dots isoNow in
  exists path,
    createCaptureDirectory this cwd isoNow None name = Capturer.Returned path /\
    Capturer.basename path = name +:+ "-" +:+ stamp /\
    String.length stamp = String.length isoNow /\
    JS.includes stamp ":" = false /\ JS.includes stamp "." = false /\
    (Capturer.captureDir st = path ->
     Capturer.captureId
       (Capturer.generateManifest analyzePerformance requestCount totalResourceSize st manifestTime)
     = name +:+ "-" +:+ stamp) /\
    forall error, createCaptureDirectory this cwd isoNow (Some error) name = Capturer.Thrown error.
Proof.
  intros Hname Hiso. cbv zeta.
  destruct (replace_colons_and_dots_spec isoNow) as (Hlen & Hslash & Hcolon & Hdot).
  eexists. split; [reflexivity|].
  assert (Hbase : Capturer.basename
            (JS.join [outputDir this; Capturer.basename (dirname cwd);
                      name +:+ "-" +:+ replace_colons_and_dots isoNow]) =
            name +:+ "-" +:+ replace_colons_and_dots isoNow).
  { apply (basename_join_plain [outputDir this; Capturer.basename (dirname cwd)]).
    apply dashed_is_plain; [exact Hname|]. now rewrite Hslash. }
  split; [exact Hbase|]. repeat split; try assumption.
  intros Hdir. unfold Capturer.generateManifest. cbn [Capturer.captureId]. now rewrite Hdir.
Qed.

End StorageProperties.

(** ** The metrics collector *)

Section MetricsProperties.

Import Metrics.

(** The entry that a resource makes as the slowest one. *)
Definition entry_of (r : Resource) : SlowestResource :=
  mkSlowest (name r) (duration r) (JS.or_int (size r) 0).

Lemma or_zero_eq (x : Q) : (or_zero x == x)%Q.
Proof.
  unfold or_zero. destruct (Qeq_bool x 0) eqn:E; [|reflexivity].
  apply Qeq_bool_iff in E. now symmetry.
Qed.

(** The state of the reduction: nothing chosen and no positive
    duration seen, or an entry whose duration is positive and the
    greatest seen. *)
Definition slowest_of (seen : list Resource) (slowest : option SlowestResource) : Prop :=
  match slowest with
  | None => Forall (fun r => (duration r <= 0)%Q) seen
  | Some s =>
      (0 < slowest_duration s)%Q /\
      Forall (fun r => (duration r <= slowest_duration s)%Q) seen /\
      exists before r after,
        seen = before ++ r :: after /\ s = entry_of r /\
        Forall (fun r' => (duration r' < duration r)%Q) before
  end.

Lemma slower_step (seen : list Resource) (slowest : option SlowestResource) (current : Resource) :
  slowest_of seen slowest -> slowest_of (seen ++ [current]) (slower slowest current).
Proof.
  unfold slower. destruct slowest as [s|]; cbn [slowest_of].
  - intros (Hpos & Hmax & before & r & after & -> & -> & Hfirst).
    cbn [entry_of slowest_duration] in *.
    destruct (Qle_bool (duration current) (or_zero (duration r))) eqn:E; cbn [negb slowest_of].
    + apply Qle_bool_iff in E. rewrite or_zero_eq in E.
      split; [exact Hpos|]. split.
      * apply Forall_app. split; [exact Hmax|]. now repeat constructor.
      * exists before, r, (after ++ [current]). rewrite <- app_assoc. now repeat split.
    + assert (Hlt : (duration r < duration current)%Q).
      { apply Qnot_le_lt. intros Hle. rewrite <- (or_zero_eq (duration r)) in Hle.
        apply Qle_bool_iff in Hle. congruence. }
      cbn [slowest_duration]. split; [now apply (Qlt_trans _ (duration r))|]. split.
      * apply Forall_app. split; [|repeat constructor; apply Qle_refl].
        eapply Forall_impl; [exact Hmax|]. intros r' Hr'. cbn beta in Hr' |- *.
        apply (Qle_trans _ (duration r)); [exact Hr'|now apply Qlt_le_weak].
      * exists (before ++ r :: after), current, []. split; [reflexivity|]. split; [reflexivity|].
        eapply Forall_impl; [exact Hmax|]. intros r' Hr'. cbn beta in Hr' |- *.
        now apply (Qle_lt_trans _ (duration r)).
  - intros Hnone.
    destruct (Qle_bool (duration current) 0) eqn:E; cbn [negb slowest_of].
    + apply Qle_bool_iff in E. apply Forall_app. split; [exact Hnone|]. now repeat constructor.
    + assert (Hlt : (0 < duration current)%Q).
      { apply Qnot_le_lt. intros Hle. apply Qle_bool_iff in Hle. congruence. }
      cbn [slowest_duration]. split; [exact Hlt|]. split.
      * apply Forall_app. split; [|repeat constructor; apply Qle_refl].
        eapply Forall_impl; [exact Hnone|]. intros r' Hr'. cbn beta in Hr' |- *.
        apply (Qle_trans _ 0); [exact Hr'|now apply Qlt_le_weak].
      * exists seen, current, []. split; [reflexivity|]. split; [reflexivity|].
        eapply Forall_impl; [exact Hnone|]. intros r' Hr'. cbn beta in Hr' |- *.
        now apply (Qle_lt_trans _ 0).
Qed.

Lemma slower_fold (todo seen : list Resource) (slowest : option SlowestResource) :
  slowest_of seen slowest -> slowest_of (seen ++ todo) (fold_left slower todo slowest).
Proof.
  revert seen slowest. induction todo as [|r todo IH]; intros seen slowest H.
  - now rewrite app_nil_r.
  - cbn [fold_left]. replace (seen ++ r :: todo) with ((seen ++ [r]) ++ todo)
      by (now rewrite <- app_assoc).
    apply IH. now apply slower_step.
Qed.

(** X19.  The [slowestResource] of a reading is the first of the
    resources with the greatest duration, provided that duration is
    positive: its url, duration and size are those of that resource, no
    resource took longer, and every resource before it took less.  When
    no resource has a positive duration -- in particular when there is no
    resource -- it is the placeholder with an empty url, duration 0 and
    size 0. *)
Theorem slowestResource_is_first_of_greatest_duration
        (this : MetricsCollector) (page : PageReadings) (now : Z) :
  let reading := collectMetrics this page now in
  (Forall (fun r => (duration r <= 0)%Q) (resources page) /\
   slowestResource reading = mkSlowest "" 0 0) \/
  (exists before r after,
     resources page = before ++ r :: after /\
     slowestResource reading = mkSlowest (name r) (duration r) (size r) /\
     (0 < duration r)%Q /\
     Forall (fun r' => (duration r' < duration r)%Q) before /\
     Forall (fun r' => (duration r' <= duration r)%Q) (resources page)).
Proof.
  cbv zeta. unfold collectMetrics. cbn [slowestResource].
  pose proof (slower_fold (resources page) [] None) as H. cbn [app] in H.
  specialize (H (List.Forall_nil _)).
  destruct (fold_left slower (resources page) None) as [s|]; cbn [slowest_of default] in H |- *.
  - right. destruct H as (Hpos & Hmax & before & r & after & Hsplit & -> & Hfirst).
    exists before, r, after. cbn [entry_of slowest_duration] in *.
    repeat split; try assumption.
    cbv [default from_option id entry_of JS.or_int].
    destruct (Z.eqb_spec (size r) 0) as [E|_]; [rewrite E|]; reflexivity.
  - left. now split.
Qed.

End MetricsProperties.

(** ** The browser controller *)

Section BrowserProperties.

Import Browser.

(** X20.  [launch()] applies the configured network throttling only
    when the controller already holds a page: [applyThrottling] is
    called before the page is created and returns at once without one.
    On a controller that holds no page -- a new one, or one that has been
    closed -- [launch()] makes the same calls, with or without throttling
    options, and never opens a CDP session. *)
Theorem throttling_is_not_applied_on_launch
        (pw : Playwright) (options : BrowserOptions) (h : Handles) :
  page h = false ->
  launch_controller pw options h =
    launch_controller pw (mkOptions (headless options) (viewport options) (userAgent options)
                                    (deviceName options) None) h /\
  Forall (fun call => call <> context_newCDPSession /\
                      forall down up latency, call <> emulateNetworkConditions down up latency)
         (launch_controller pw options h).1.2.
Proof.
  intros Hpage. unfold launch_controller, applyThrottling, emulated_device.
  cbn [headless viewport userAgent deviceName throttling page]. rewrite Hpage. cbn [negb].
  split.
  - destruct (throttling options); reflexivity.
  - destruct (launch_rejects pw); [repeat constructor; discriminate|].
    destruct (newContext_rejects pw); [repeat constructor; discriminate|].
    destruct (throttling options); destruct (newPage_rejects pw);
      cbn [fst snd app]; repeat constructor; discriminate.
Qed.

End BrowserProperties.

(** ** The loading detector *)

Section DetectorProperties.

Import Detector.


Lemma fold_max_perm (now : N) (l l' : list N) :
  Permutation l l' -> fold_right N.max now l = fold_right N.max now l'.
Proof. induction 1; cbn; lia. Qed.

Lemma existsb_perm {A : Type} (f : A -> bool) (l l' : list A) :
  Permutation l l' -> existsb f l = existsb f l'.
Proof.
  induction 1 as [|x l l' _ IH|x y l|l l' l'' _ IH1 _ IH2]; cbn.
  - reflexivity.
  - now rewrite IH.
  - destruct (f x), (f y); reflexivity.
  - congruence.
Qed.

Lemma fold_max_app (now : N) (l1 l2 : list N) :
  fold_right N.max now (l1 ++ l2) = fold_right N.max (fold_right N.max now l2) l1.
Proof. apply fold_right_app. Qed.

Lemma fold_max_ge (now : N) (l : list N) : (now <= fold_right N.max now l)%N.
Proof. induction l; cbn; lia. Qed.

(** X22.  What a composite strategy answers, and when, does not depend
    on the order of its members; and a composite of composites answers
    like the composite of all their members. *)
Theorem composite_is_order_independent
        (strategies strategies' inner : list LoadingStrategy) (page : Page) (now : N) :
  (Permutation strategies strategies' ->
   detect (CompositeStrategy strategies) page now =
   detect (CompositeStrategy strategies') page now) /\
  detect (CompositeStrategy (CompositeStrategy inner :: strategies)) page now =
  detect (CompositeStrategy (inner ++ strategies)) page now.
Proof.
  split.
  - intros Hperm. cbn [detect CompositeStrategy Promise_all settledAt outcome]. f_equal.
    + apply fold_max_perm. now do 2 apply Permutation_map.
    + apply existsb_perm. now do 2 apply Permutation_map.
  - cbn [detect CompositeStrategy Promise_all settledAt outcome map]. f_equal.
    + rewrite !map_app, fold_max_app. cbn [fold_right].
      set (rest := fold_right N.max now
                     (map settledAt (map (fun s => detect s page now) strategies))).
      pose proof (fold_max_ge now (map settledAt (map (fun s => detect s page now) strategies)))
        as Hge. fold rest in Hge.
      induction inner as [|s inner IH]; cbn; lia.
    + rewrite !map_app, existsb_app. reflexivity.
Qed.

End DetectorProperties.

(** ** Examples

    The properties above that have premises, at concrete inputs. *)

Section Examples.

(** *** Captures *)

Import Capturer.

(** The capture [uneventful] takes its three samples one after the
    other. *)
Lemma sequential_session_witness :
  NoDup (filename <$> screenshots
           (self (run Analyzer.compareAnalyses (schedule uneventful)
                    (navigating (local_app 3000 1000 None) uneventful "shots/capture")))) /\
  NoDup (identifyKeyFrames
           (self (run Analyzer.compareAnalyses (schedule uneventful)
                    (navigating (local_app 3000 1000 None) uneventful "shots/capture")))).
Proof.
  apply (sequential_session_keyFrames_distinct Analyzer.compareAnalyses
           (local_app 3000 1000 None) uneventful "shots/capture" (schedule uneventful)).
  reflexivity.
Defined.

(** Completion is recorded 900 ms after the start; two samples and two
    ticks of the interval timer follow. *)
Definition completed_early : Run (PerformanceMetrics := unit) :=
  exec Analyzer.compareAnalyses
    (navigating (local_app 3000 1000 None) uneventful "shots/capture")
    (detect_resume true 900).

Definition afterwards : list (Event (PerformanceMetrics := unit)) :=
  [initial_begin; take_resume 0 spinner_page; interval_tick 1000;
   final_begin 3000; take_resume 1 loaded_page].

Lemma no_interval_sample_witness :
  loadingComplete (self (run Analyzer.compareAnalyses afterwards completed_early)) = true /\
  exec Analyzer.compareAnalyses (run Analyzer.compareAnalyses afterwards completed_early)
       (interval_tick 4000)
  = run Analyzer.compareAnalyses afterwards completed_early.
Proof.
  apply (no_interval_sample_after_completion Analyzer.compareAnalyses completed_early
           afterwards 4000).
  reflexivity.
Defined.

(** A world in which the browser cannot be launched. *)
Definition no_browser : World (PerformanceMetrics := unit) :=
  mkWorld Browser.no_handles (Some "Executable not found") (Returned "shots/capture") None
          [] None 0 [] None [] None 0 [] None "2024-01-20T14:30:22.000Z" None
          (Browser.mkClosing false false false).

Lemma setup_failure_witness :
  (capture (local_app 3000 1000 None) no_browser).2 = Thrown "Executable not found" /\
  browser (self (capture (local_app 3000 1000 None) no_browser).1)
  = [Browser.launch; Browser.close] /\
  screenshots (self (capture (local_app 3000 1000 None) no_browser).1) = [].
Proof.
  apply (setup_failure_closes_without_navigating Analyzer.compareAnalyses
           no_findings no_count no_count (local_app 3000 1000 None) no_browser
           "Executable not found").
  left. reflexivity.
Defined.

(** The first sample of the capture [uneventful] is a key frame, and
    its file name is in the key-frame list. *)
Lemma keyFrames_annotated_witness :
  "000-0ms.png" ∈
    identifyKeyFrames
      (self (run Analyzer.compareAnalyses (schedule uneventful)
               (navigating (local_app 3000 1000 None) uneventful "shots/capture"))).
Proof.
  apply (proj2 (keyFrames_are_the_annotated_samples Analyzer.compareAnalyses
                  (local_app 3000 1000 None) uneventful "shots/capture" (schedule uneventful)
                  eq_refl "000-0ms.png")).
  eexists 0, _. split; [reflexivity|]. split; [reflexivity|]. left. reflexivity.
Defined.

(** A script error is thrown while the page loads, and its screenshot
    fails: the handler gives up, and the initial sample, whose call is
    the second one to be suspended, is the first to be pushed. *)
Definition failed_error_screenshot : World (PerformanceMetrics := unit) :=
  faultless
    [error_begin "js-error" "boom" 4990; error_resume 0 false]
    [take_resume 1 spinner_page; metrics_collected None]
    [interval_tick 6100; take_resume 2 loaded_page; metrics_collected None;
     detect_resume true 7000]
    [take_resume 3 loaded_page; metrics_collected None]
    5000 8000.

Lemma first_sample_witness :
  match manifest_of (local_app 3000 1000 None) failed_error_screenshot with
  | Some m =>
      map phase (result_screenshots m) = [initial; loading; final] /\
      exists s, head (result_screenshots m) = Some s /\
                phase s = initial /\ isKeyFrame (annotations s) = Some true /\
                filename s = "000-0ms.png" /\ timestamp s = 0%Z
  | None => False
  end.
Proof.
  unfold manifest_of.
  destruct (capture (local_app 3000 1000 None) failed_error_screenshot)
    as [r [m|error]] eqn:Hcapture; cbn [snd].
  - split; [vm_compute in Hcapture; now inversion Hcapture|].
    apply (first_sample_is_initial_key_frame Analyzer.compareAnalyses
             no_findings no_count no_count (local_app 3000 1000 None)
             failed_error_screenshot r m "shots/capture" [] spinner_page
             [metrics_collected None] Hcapture).
    + reflexivity.
    + repeat constructor.
    + reflexivity.
    + constructor.
  - vm_compute in Hcapture. discriminate Hcapture.
Defined.

(** *** Images and baselines *)

Import Comparator.

Definition red : PNG := mkPNG 1 1 [255; 0; 0; 255]%Z.

Definition blue : PNG := mkPNG 1 1 [0; 0; 255; 255]%Z.

Lemma identical_images_witness :
  diffPixels (compareScreenshots (new None None) red red (Some "diff.png")).1 = 0%Z /\
  isMatch (compareScreenshots (new None None) red red (Some "diff.png")).1 = true.
Proof.
  pose proof (identical_images_match (new None None) red (Some "diff.png")) as H.
  destruct H as (Hpixels & _ & _ & Hmatch); [vm_compute; discriminate|].
  split; [exact Hpixels|].
  apply Hmatch; [reflexivity|vm_compute; discriminate].
Defined.

Lemma diffPixels_within_total_witness :
  (0 <= diffPixels (compareScreenshots (new None None) red blue None).1
     <= totalPixels (compareScreenshots (new None None) red blue None).1)%Z.
Proof.
  pose proof (diffPixels_within_total (new None None) red blue None) as H.
  cbv zeta in H. destruct H as (_ & Hbounds & _); [vm_compute; discriminate..|].
  exact Hbounds.
Defined.

(** A capture with two key frames, and a disk that holds it. *)
Definition run1 : gmap string File :=
  {[ "shots/run1/manifest.json" := mkFile None (truthy (Some ["000-0ms.png"; "001-500ms.png"]));
     "shots/run1/000-0ms.png" := mkFile (Some red) unparsable;
     "shots/run1/001-500ms.png" := mkFile (Some blue) unparsable ]}.

Definition capture_disk : Disk :=
  mkDisk run1 {[ "shots"; "shots/run1" ]} (fun _ => true).

(** The same disk with a baseline that lacks the second key frame. *)
Definition partial_baseline : Disk :=
  mkDisk (<["baselines/run1/manifest.json" := mkFile None (truthy (Some ["000-0ms.png"]))]>
            (<["baselines/run1/000-0ms.png" := mkFile (Some blue) unparsable]> run1))
         {[ "shots"; "shots/run1"; "baselines/run1" ]} (fun _ => true).

Lemma distinct_paths (names : list string) (baselineDir captureDir : string) :
  forallb (fun name => forallb (fun source =>
     negb (String.eqb (JS.join [baselineDir; name]) (JS.join [captureDir; source]))) names) names
  = true ->
  forall name source, name ∈ names -> source ∈ names ->
    JS.join [baselineDir; name] <> JS.join [captureDir; source].
Proof.
  intros H name source Hname Hsource E.
  rewrite forallb_forall in H. apply list_elem_of_In in Hname, Hsource.
  specialize (H name Hname). rewrite forallb_forall in H. specialize (H source Hsource).
  apply negb_true_iff, String.eqb_neq in H. contradiction.
Qed.

Lemma compareWithBaseline_witness :
  exists d' result,
    compareWithBaseline (new None None) partial_baseline "shots/run1" "baselines/run1"
      = (d', Ok result) /\
    baselineExists result = true /\
    (comparisons result).*1 = ["000-0ms.png"; "001-500ms.png"].
Proof.
  destruct (compareWithBaseline_compares_every_keyFrame (new None None) partial_baseline
              "shots/run1" "baselines/run1" ["000-0ms.png"; "001-500ms.png"]
              (Some ["000-0ms.png"]))
    as (d' & result & Hresult & Hexists & Hnames & _); [reflexivity..|].
  exists d', result. now repeat split.
Defined.


Definition with_baseline : Disk := (createBaseline capture_disk "shots/run1" "baselines/run1").1.

Lemma run1_paths :
  forall name source,
    name ∈ baseline_names ["000-0ms.png"; "001-500ms.png"] ->
    source ∈ baseline_names ["000-0ms.png"; "001-500ms.png"] ->
    JS.join ["baselines/run1"; name] <> JS.join ["shots/run1"; source].
Proof. apply distinct_paths. reflexivity. Qed.

Lemma run1_plain :
  forall keyFrame, keyFrame ∈ ["000-0ms.png"; "001-500ms.png"] -> plain keyFrame.
Proof.
  intros keyFrame Hin. rewrite !elem_of_cons, elem_of_nil in Hin.
  destruct Hin as [->|[->|[]]]; (split; [reflexivity|repeat split; discriminate]).
Qed.

Lemma createBaseline_witness :
  access with_baseline "baselines/run1" = true /\
  files with_baseline !! "baselines/run1/001-500ms.png" = Some (mkFile (Some blue) unparsable).
Proof.
  destruct (createBaseline_copies_keyFrames_and_manifest capture_disk with_baseline
              "shots/run1" "baselines/run1" ["000-0ms.png"; "001-500ms.png"])
    as (Haccess & Hcopied & _).
  - exact run1_plain.
  - reflexivity.
  - exact run1_paths.
  - vm_compute. reflexivity.
  - split; [exact Haccess|].
    assert (Hin : "001-500ms.png" ∈ baseline_names ["000-0ms.png"; "001-500ms.png"])
      by (apply list_elem_of_In; cbn; tauto).
    exact (proj2 (Hcopied "001-500ms.png" Hin)).
Defined.

Lemma baseline_round_trip_witness :
  exists result,
    compareWithBaseline (new None None) with_baseline "shots/run1" "baselines/run1"
      = (with_baseline, Ok result) /\
    overallMatch result = true.
Proof.
  destruct (capture_matches_its_own_baseline (new None None) capture_disk with_baseline
              "shots/run1" "baselines/run1" ["000-0ms.png"; "001-500ms.png"])
    as (result & Hresult & _ & Hmatch & _).
  - vm_compute. discriminate.
  - vm_compute. discriminate.
  - exact run1_plain.
  - reflexivity.
  - exact run1_paths.
  - intros keyFrame f Hin. rewrite !elem_of_cons, elem_of_nil in Hin.
    destruct Hin as [->|[->|[]]]; intros [= <-]; eexists; (split; [reflexivity|reflexivity]).
  - vm_compute. reflexivity.
  - exists result. now split.
Defined.

(** A capture directory without manifest. *)
Definition no_manifest : Disk :=
  mkDisk {[ "shots/run2/000-0ms.png" := mkFile (Some red) unparsable ]}
         {[ "shots"; "shots/run2" ]} (fun _ => true).

Lemma failed_createBaseline_witness :
  (createBaseline no_manifest "shots/run2" "baselines/run2").2
    = Throws (Error "Could not read capture manifest") /\
  (compareWithBaseline (new None None)
     (createBaseline no_manifest "shots/run2" "baselines/run2").1 "shots/run2" "baselines/run2").2
    = Throws (Error "Could not read manifest files").
Proof.
  pose proof (failed_createBaseline_leaves_directory (new None None) no_manifest
                "shots/run2" "baselines/run2") as H.
  cbv zeta in H. destruct H as (Hcreate & _ & Hcompare); [reflexivity..|].
  rewrite Hcreate. cbn [fst snd]. rewrite Hcompare. split; reflexivity.
Defined.

(** *** Stored captures *)

Import Storage.



Lemma captureId_witness :
  exists path,
    createCaptureDirectory (Storage.new None) "/home/dev/shop" "2024-01-20T14:30:22.000Z"
                           None "app" = Returned path /\
    basename path = "app-2024-01-20T14-30-22-000Z".
Proof.
  destruct (captureId_is_name_and_time (Storage.new None) "/home/dev/shop"
              "2024-01-20T14:30:22.000Z" "app" no_findings no_count no_count
              (Capturer.new (local_app 3000 1000 None)) "2024-01-20T14:30:30.000Z")
    as (path & Hpath & Hbase & _); [reflexivity..|].
  exists path. split; [exact Hpath|exact Hbase].
Defined.

(** *** Launching with throttling options *)

Import Browser.

Definition slow_network : BrowserOptions :=
  mkOptions (Some true) (Some (1280, 720)%Z) None None
            (Some (mkThrottling (Some 500000%Q) None (Some 200%Q))).

Definition chromium_installed : Playwright :=
  mkPlaywright (fun _ => false) None None None None.

Lemma throttling_witness :
  (launch_controller chromium_installed slow_network no_handles).1.2
  = [chromium_launch (Some true); browser_newContext (Some (1280, 720)%Z) None None;
     context_newPage].
Proof.
  destruct (throttling_is_not_applied_on_launch chromium_installed slow_network no_handles)
    as [Hsame _]; [reflexivity|].
  rewrite Hsame. reflexivity.
Defined.

End Examples.
